(** * Global search: aggregation handler, history store, client controller

    A shallow embedding of
      - supabase/functions/global-search/index.ts  (the Deno.serve handler),
      - the recent_searches table with its pruning trigger (SQL migration),
      - the useGlobalSearch hook (the [search] callback) and
      - the row index computed by the GlobalSearch palette,
    followed by the properties established about them.

    Conventions.  A JavaScript string is a Rocq [string]; its characters are
    read as UTF-16 code units below 256, on which [toLowerCase], [trim] and the
    regular-expression classes below agree with ECMAScript.  JavaScript
    numbers that the code only uses as integers are [Z].  A nullable column
    (one the code guards with [||] or [?.]) is an [option]. *)

From Stdlib Require Import ZArith List String Ascii Bool Arith Lia.
From Stdlib Require Import Permutation Sorted.
Import ListNotations.

Local Open Scope string_scope.
Local Open Scope Z_scope.

(* ------------------------------------------------------------------ *)
(** ** JavaScript primitives used by the code *)

Module JS.

Definition code (c : ascii) : N := N_of_ascii c.

(** White space as [\s] and [String.prototype.trim] see it (code units
    below 256): TAB, LF, VT, FF, CR, SPACE and NO-BREAK SPACE. *)
Definition is_space (c : ascii) : bool :=
  let n := code c in
  (((9 <=? n) && (n <=? 13)) || (n =? 32) || (n =? 160))%N.

Definition is_upper (c : ascii) : bool :=
  let n := code c in
  (((65 <=? n) && (n <=? 90))
   || ((192 <=? n) && (n <=? 222) && negb (n =? 215)))%N.

Definition lower_char (c : ascii) : ascii :=
  if is_upper c then ascii_of_N (code c + 32) else c.

Fixpoint toLowerCase (s : string) : string :=
  match s with
  | EmptyString => EmptyString
  | String c s' => String (lower_char c) (toLowerCase s')
  end.

Fixpoint trimStart (s : string) : string :=
  match s with
  | EmptyString => EmptyString
  | String c s' => if is_space c then trimStart s' else s
  end.

Fixpoint rev_append (s acc : string) : string :=
  match s with
  | EmptyString => acc
  | String c s' => rev_append s' (String c acc)
  end.

Definition rev (s : string) : string := rev_append s EmptyString.

Definition trimEnd (s : string) : string := rev (trimStart (rev s)).

Definition trim (s : string) : string := trimEnd (trimStart s).

(** [s.includes(sub)] *)
Fixpoint includes (s sub : string) : bool :=
  String.prefix sub s ||
  match s with
  | EmptyString => false
  | String _ s' => includes s' sub
  end.

(** [s.replace(/[class]/g, by)] for a one-character replacement. *)
Fixpoint replace_class (cls : ascii -> bool) (by_ : ascii) (s : string) : string :=
  match s with
  | EmptyString => EmptyString
  | String c s' =>
      String (if cls c then by_ else c) (replace_class cls by_ s')
  end.

(** [s.replace(/\s/g, '')] *)
Fixpoint remove_class (cls : ascii -> bool) (s : string) : string :=
  match s with
  | EmptyString => EmptyString
  | String c s' =>
      if cls c then remove_class cls s' else String c (remove_class cls s')
  end.

(** [s.split(/\s+/)]: cut at every maximal run of white space; a run at
    either end leaves an empty piece there, as in ECMAScript. *)
Fixpoint split_ws_from (cur : string) (prev_ws : bool) (s : string) : list string :=
  match s with
  | EmptyString => [rev cur]
  | String c s' =>
      if is_space c then
        if prev_ws then split_ws_from cur true s'
        else rev cur :: split_ws_from EmptyString true s'
      else split_ws_from (String c cur) false s'
  end.

Definition split_ws (s : string) : list string :=
  split_ws_from EmptyString false s.

(** [parts.join(sep)] *)
Fixpoint join (sep : string) (parts : list string) : string :=
  match parts with
  | [] => EmptyString
  | [p] => p
  | p :: rest => p ++ sep ++ join sep rest
  end.

(** [s.substring(0, n)] for a non-negative literal [n]. *)
Fixpoint substring0 (n : nat) (s : string) : string :=
  match n, s with
  | O, _ => EmptyString
  | _, EmptyString => EmptyString
  | S n', String c s' => String c (substring0 n' s')
  end.

(** Truthiness of a nullable string: [null] and [''] are falsy. *)
Definition truthy (v : option string) : bool :=
  match v with
  | Some s => negb (String.eqb s EmptyString)
  | None => false
  end.

(** [a || b] on nullable strings. *)
Definition or_else (a b : option string) : option string :=
  if truthy a then a else b.

(** [a || 'literal'] *)
Definition or_lit (a : option string) (b : string) : string :=
  match a with
  | Some s => if String.eqb s EmptyString then b else s
  | None => b
  end.

(** [`${v}`] for a nullable string. *)
Definition template (v : option string) : string :=
  match v with Some s => s | None => "null" end.

(** [arr.includes(x)] on an array of strings. *)
Definition arr_includes (arr : list string) (x : string) : bool :=
  existsb (String.eqb x) arr.

(** [arr.slice(0, e)] for an integer [e]: a negative end counts from the
    end of the array. *)
Definition slice0 {A} (arr : list A) (e : Z) : list A :=
  let len := Z.of_nat (List.length arr) in
  let k := if e <? 0 then Z.max (len + e) 0 else Z.min e len in
  firstn (Z.to_nat k) arr.

(** [arr.map((x, idx) => f x idx)] *)
Fixpoint mapi_from {A B} (f : A -> nat -> B) (i : nat) (l : list A) : list B :=
  match l with
  | [] => []
  | x :: l' => f x i :: mapi_from f (S i) l'
  end.

Definition mapi {A B} (f : A -> nat -> B) (l : list A) : list B :=
  mapi_from f 0 l.

(** [arr.findIndex(p)]: the first index satisfying [p], or [-1]. *)
Fixpoint findIndex_from {A} (p : A -> bool) (i : Z) (l : list A) : Z :=
  match l with
  | [] => -1
  | x :: l' => if p x then i else findIndex_from p (i + 1) l'
  end.

Definition findIndex {A} (p : A -> bool) (l : list A) : Z :=
  findIndex_from p 0 l.

End JS.

(* ------------------------------------------------------------------ *)
(** ** Regular expressions, matched by derivatives *)

Module Regex.

Inductive re : Type :=
| Void : re
| Eps : re
| Cls : (ascii -> bool) -> re
| Cat : re -> re -> re
| Alt : re -> re -> re
| Star : re -> re.

Fixpoint nullable (r : re) : bool :=
  match r with
  | Void => false
  | Eps => true
  | Cls _ => false
  | Cat a b => nullable a && nullable b
  | Alt a b => nullable a || nullable b
  | Star _ => true
  end.

Definition cat (a b : re) : re :=
  match a, b with
  | Void, _ => Void
  | _, Void => Void
  | Eps, _ => b
  | _, Eps => a
  | _, _ => Cat a b
  end.

Definition alt (a b : re) : re :=
  match a, b with
  | Void, _ => b
  | _, Void => a
  | _, _ => Alt a b
  end.

Fixpoint deriv (c : ascii) (r : re) : re :=
  match r with
  | Void => Void
  | Eps => Void
  | Cls p => if p c then Eps else Void
  | Cat a b =>
      if nullable a then alt (cat (deriv c a) b) (deriv c b)
      else cat (deriv c a) b
  | Alt a b => alt (deriv c a) (deriv c b)
  | Star a => cat (deriv c a) (Star a)
  end.

(** The whole string matches [r] (a pattern written [^r$]). *)
Fixpoint matches (r : re) (s : string) : bool :=
  match s with
  | EmptyString => nullable r
  | String c s' => matches (deriv c r) s'
  end.

Definition chr (c : ascii) : re := Cls (Ascii.eqb c).
(** a literal under the [i] flag *)
Definition chr_i (c : ascii) : re :=
  Cls (fun x => Ascii.eqb (JS.lower_char x) (JS.lower_char c)).
Definition opt (r : re) : re := Alt Eps r.
Definition plus (r : re) : re := Cat r (Star r).
Fixpoint rep (n : nat) (r : re) : re :=
  match n with O => Eps | S n' => Cat r (rep n' r) end.
Definition at_least (n : nat) (r : re) : re := Cat (rep n r) (Star r).
Definition any : re := Cls (fun _ => true).

Fixpoint lit_i (s : string) : re :=
  match s with
  | EmptyString => Eps
  | String c s' => Cat (chr_i c) (lit_i s')
  end.

Definition in_range (lo hi : N) (c : ascii) : bool :=
  ((lo <=? JS.code c) && (JS.code c <=? hi))%N.
Definition is_digit : ascii -> bool := in_range 48 57.
Definition is_lower_az : ascii -> bool := in_range 97 122.
Definition is_upper_az : ascii -> bool := in_range 65 90.
Definition is_letter (c : ascii) : bool := is_lower_az c || is_upper_az c.
(** [\w] *)
Definition is_word (c : ascii) : bool :=
  is_letter c || is_digit c || Ascii.eqb c "_".
(** [[0-9a-f]] under the [i] flag *)
Definition is_hex (c : ascii) : bool :=
  is_digit c || in_range 97 102 c || in_range 65 70 c.

End Regex.

(* ------------------------------------------------------------------ *)
(** ** Intent classifier and query sanitizer (index.ts, lines 26-59) *)

Import Regex.

(** [[^\s@]] *)
Definition not_space_at (c : ascii) : bool :=
  negb (JS.is_space c) && negb (Ascii.eqb c "@").

(** [/^[^\s@]+@[^\s@]+\.[^\s@]+$/] *)
Definition emailRegex : re :=
  Cat (plus (Cls not_space_at))
   (Cat (chr "@")
     (Cat (plus (Cls not_space_at))
       (Cat (chr ".") (plus (Cls not_space_at))))).

(** [[\d\s()-]] *)
Definition phone_char (c : ascii) : bool :=
  is_digit c || JS.is_space c || Ascii.eqb c "(" || Ascii.eqb c ")"
  || Ascii.eqb c "-".

(** [/^[+]?[\d\s()-]{7,}$/] *)
Definition phoneRegex : re :=
  Cat (opt (chr "+")) (at_least 7 (Cls phone_char)).

(** [/^[0-9a-f]{8}-[0-9a-f]{4}-[0-9a-f]{4}-[0-9a-f]{4}-[0-9a-f]{12}$/i] *)
Definition uuidRegex : re :=
  Cat (rep 8 (Cls is_hex))
   (Cat (chr "-") (Cat (rep 4 (Cls is_hex))
     (Cat (chr "-") (Cat (rep 4 (Cls is_hex))
       (Cat (chr "-") (Cat (rep 4 (Cls is_hex))
         (Cat (chr "-") (rep 12 (Cls is_hex))))))))).

(** [[\w.-]] *)
Definition host_char (c : ascii) : bool :=
  is_word c || Ascii.eqb c "." || Ascii.eqb c "-".

(** [/^(https?:\/\/)?([\w.-]+)\.([a-z]{2,})/i]: no [$], so any suffix may
    follow the match. *)
Definition urlRegex : re :=
  Cat (opt (Cat (lit_i "http") (Cat (opt (chr_i "s")) (lit_i "://"))))
   (Cat (plus (Cls host_char))
     (Cat (chr ".")
       (Cat (at_least 2 (Cls is_letter)) (Star any)))).

Definition detectQueryIntent (query : string) : list string :=
  let intents :=
    ((if matches emailRegex (JS.trim query) then ["email"] else [])
     ++ (if matches phoneRegex (JS.remove_class JS.is_space query)
         then ["phone"] else [])
     ++ (if matches uuidRegex (JS.trim query) then ["id"] else [])
     ++ (if matches urlRegex (JS.trim query) then ["url"] else []))%list in
  match intents with
  | [] => ["text"]
  | _ => intents
  end.

(** The class of [escapeSearchQuery]: ampersand, bar, bang, both
    parentheses, colon, both angle brackets, star, backslash, double quote
    (code 34) and single quote. *)
Definition unsafe_char (c : ascii) : bool :=
  existsb (Ascii.eqb c)
    ["&"; "|"; "!"; "("; ")"; ":"; "<"; ">"; "*"; "\"; "'"]%char
  || (JS.code c =? 34)%N.

Definition escapeSearchQuery (query : string) : string :=
  JS.trim (JS.replace_class unsafe_char " "%char query).

Definition createFuzzyPattern (query : string) : string :=
  let escaped := escapeSearchQuery query in
  let words :=
    filter (fun w => (0 <? String.length w)%nat) (JS.split_ws escaped) in
  JS.join " & " (map (fun w => w ++ ":*") words).


(* ------------------------------------------------------------------ *)
(** ** Result shape and the stable sort of [Array.prototype.sort] *)

(** A value of a [metadata] bag. *)
Inductive MetaValue : Type :=
| MStr : option string -> MetaValue
| MBool : bool -> MetaValue
| MNum : option Z -> MetaValue.

Record SearchResult : Type := mkResult {
  id : string;
  type : string;
  title : string;
  subtitle : option string;
  redirectUrl : string;
  priorityScore : Z;
  metadata : option (list (string * MetaValue))
}.

Section StableSort.
Context {A : Type} (key : A -> Z).

(** Insert [x] in front of the first element whose key does not exceed
    the key of [x]: elements with the key of [x] stay behind it only if
    they were inserted before, that is, stood after it in the input. *)
Fixpoint insert_desc (x : A) (l : list A) : list A :=
  match l with
  | [] => [x]
  | y :: l' =>
      if key y <=? key x then x :: l else y :: insert_desc x l'
  end.

(** Sort by [key], largest first, stable.  ECMAScript requires
    [Array.prototype.sort] to be stable, and a stable sort by a total
    preorder has one possible result ([sort_desc_unique] below), so this
    is [arr.sort((a, b) => key(b) - key(a))]; it is also
    [ORDER BY key DESC] for distinct keys. *)
Fixpoint sort_desc (l : list A) : list A :=
  match l with
  | [] => []
  | x :: l' => insert_desc x (sort_desc l')
  end.

Definition desc (a b : A) : Prop := key b <= key a.

Definition with_key (k : Z) (l : list A) : list A :=
  filter (fun x => key x =? k) l.
End StableSort.

(* ------------------------------------------------------------------ *)
(** ** The data store as the handler sees it *)

(** What an awaited supabase query resolves to: [{ data, error }].  The
    client reports a failed query in [error]; the handler reads failures
    nowhere else (lines 138-142, 166-169, 192-195, 225-228). *)
Record PgResult (A : Type) : Type := mkPg {
  data : option A;
  error : option string
}.
Arguments mkPg {A} _ _.
Arguments data {A} _.
Arguments error {A} _.

Record LeadRow : Type := mkLead {
  lead_id : string;
  lead_name : option string;
  lead_email : option string;
  lead_mobile : option string;
  lead_status : option string;
  lead_source : option string
}.

Record UserRow : Type := mkUser {
  user_id : string;
  user_name : option string;
  user_email : option string;
  user_phone : option string;
  user_role : option string
}.

Record AgentRow : Type := mkAgent {
  agent_id : string;
  agent_name : string;
  agent_voice : option string;
  agent_tone : option string;
  agent_is_active : bool
}.

Record CallRow : Type := mkCall {
  call_id : string;
  call_status : option string;
  call_duration : option Z;
  call_summary : option string;
  call_created_at : string;
  (** the joined lead, [leads!inner(id, name)] *)
  call_leads : option (string * option string)
}.

(** The filter [searchLeads] puts on the [leads] table. *)
Inductive LeadFilter : Type :=
| IlikeEmail (pattern : string)
| IlikeMobile (pattern : string)
| OrNameEmailMobile (name_pat email_pat mobile_pat : string).

(** A request sent to the store, in the order the handler sends them. *)
Inductive StoreCall : Type :=
| SelectLeads (company : string) (f : LeadFilter) (limit : Z)
| SelectUsers (company : string) (name_pat email_pat : string) (limit : Z)
| SelectAgents (company : string) (name_pat : string) (limit : Z)
| SelectCalls (company : string) (summary_pat : string) (limit : Z)
| UpsertRecentSearch (user : string) (query : string) (created_at : Z).

(** The store's answers.  The four selects are functions of the request
    sent; [now] is the clock read by [new Date()]. *)
Record Supabase : Type := mkSupabase {
  from_leads : string -> LeadFilter -> Z -> PgResult (list LeadRow);
  from_users : string -> string -> string -> Z -> PgResult (list UserRow);
  from_agents : string -> string -> Z -> PgResult (list AgentRow);
  from_calls : string -> string -> Z -> PgResult (list CallRow);
  now : Z
}.

(* ------------------------------------------------------------------ *)
(** ** The recent_searches table and its trigger (SQL migration) *)

Module RecentSearches.

(** [recent_searches (id, user_id, query, created_at)]; [created_at] in
    milliseconds. *)
Record Row : Type := mkRow {
  rs_id : nat;
  rs_user_id : string;
  rs_query : string;
  rs_created_at : Z
}.

(** The rows in insertion order and the source of fresh ids
    ([gen_random_uuid()]). *)
Record Table : Type := mkTable {
  rows : list Row;
  next_id : nat
}.

Definition empty : Table := mkTable [] 0.

Definition of_user (u : string) (r : Row) : bool :=
  String.eqb (rs_user_id r) u.

(** The columns of [UNIQUE(user_id, query)]. *)
Definition same_key (u q : string) (r : Row) : bool :=
  String.eqb (rs_user_id r) u && String.eqb (rs_query r) q.

(** [SELECT id FROM recent_searches WHERE user_id = NEW.user_id
     ORDER BY created_at DESC LIMIT 10].  Rows of equal [created_at], whose
    order SQL leaves open, are taken in table order. *)
Definition newest_ids (u : string) (rs : list Row) : list nat :=
  map rs_id (firstn 10 (sort_desc rs_created_at (filter (of_user u) rs))).

(** The body of [limit_recent_searches()], with [NEW.user_id = u]:
    [DELETE FROM recent_searches WHERE user_id = u AND id NOT IN (...)]. *)
Definition limit_recent_searches (u : string) (rs : list Row) : list Row :=
  let keep := newest_ids u rs in
  filter (fun r => negb (of_user u r && negb (existsb (Nat.eqb (rs_id r)) keep)))
         rs.

Definition touch (u q : string) (ts : Z) (r : Row) : Row :=
  if same_key u q r then mkRow (rs_id r) u q ts else r.

(** [upsert({user_id, query, created_at}, {onConflict: 'user_id,query'})]:
    a row with this key is updated in place; otherwise a row is inserted
    and [trigger_limit_recent_searches] (AFTER INSERT, FOR EACH ROW) runs. *)
Definition upsert (t : Table) (u q : string) (ts : Z) : Table :=
  if existsb (same_key u q) (rows t) then
    mkTable (map (touch u q ts) (rows t)) (next_id t)
  else
    mkTable
      (limit_recent_searches u (rows t ++ [mkRow (next_id t) u q ts]))
      (S (next_id t)).

Definition rows_of (u : string) (t : Table) : list Row :=
  filter (of_user u) (rows t).

Definition keys (rs : list Row) : list (string * string) :=
  map (fun r => (rs_user_id r, rs_query r)) rs.

(** The table's constraints: primary key, fresh-id supply, and
    [UNIQUE(user_id, query)]. *)
Record wf (t : Table) : Prop := mkWf {
  wf_ids : NoDup (map rs_id (rows t));
  wf_fresh : Forall (fun r => (rs_id r < next_id t)%nat) (rows t);
  wf_unique : NoDup (keys (rows t))
}.

(** The handler's writes for one caller, oldest first, each given as
    (stored query text, timestamp). *)
Definition upsert_all (t : Table) (u : string) (writes : list (string * Z))
  : Table :=
  fold_left (fun t w => upsert t u (fst w) (snd w)) writes t.

Definition written (r : Row) : string * Z := (rs_query r, rs_created_at r).

(** The last [n] elements of a list. *)
Definition latest {A} (n : nat) (l : list A) : list A :=
  skipn (List.length l - n) l.

End RecentSearches.

(* ------------------------------------------------------------------ *)
(** ** The handler (index.ts, lines 61-348) *)

Record SearchRequest : Type := mkRequest {
  query : option string;           (** [None]: the field is missing *)
  filters : option (list string);  (** [None]: defaults to [[]] *)
  limit : option Z                 (** [None]: defaults to [10] *)
}.

Record AuthUser : Type := mkAuthUser { auth_user_id : string }.

Record UserProfile : Type := mkProfile {
  profile_id : string;
  company_id : string;
  role : string
}.

Record SearchResponse : Type := mkResponse {
  results : list SearchResult;
  categories : list (string * list SearchResult);
  totalCount : option Z;
  resp_query : option string;
  intents : option (list string)
}.

Inductive Body : Type :=
| BNull
| BError (msg : string) (details : option string)
| BSearch (r : SearchResponse).

Record Response : Type := mkHttp {
  status : Z;
  body : Body
}.

(** The handler's observable effect: the response, the requests it sent to
    the store, and the recent_searches table afterwards. *)
Record Outcome : Type := mkOutcome {
  response : Response;
  store_calls : list StoreCall;
  recent_after : RecentSearches.Table
}.

Definition rows_or_empty {A} (r : PgResult (list A)) : list A :=
  match data r with Some d => d | None => [] end.

Definition excluded (filters : list string) (tag : string) : bool :=
  (0 <? List.length filters)%nat && negb (JS.arr_includes filters tag).

Section Adapters.
Variable sb : Supabase.
Variable query_ : string.
Variable filters_ : list string.
Variable limit_ : Z.
Variable intents_ : list string.
Variable searchPattern : string.
Variable companyId : string.
Variable isAdmin : bool.

Definition leadFilter : LeadFilter :=
  if JS.arr_includes intents_ "email" then IlikeEmail searchPattern
  else if JS.arr_includes intents_ "phone" then IlikeMobile searchPattern
  else OrNameEmailMobile searchPattern searchPattern searchPattern.

Definition leadResult (lead : LeadRow) (idx : nat) : SearchResult :=
  {| id := lead_id lead;
     type := "lead";
     title := JS.or_lit (lead_name lead) "Unknown Lead";
     subtitle :=
       JS.or_else (JS.or_else (lead_email lead) (lead_mobile lead))
                  (lead_status lead);
     redirectUrl := "/leads/" ++ lead_id lead;
     priorityScore := 100 - Z.of_nat idx;
     metadata := Some [("status", MStr (lead_status lead));
                       ("source", MStr (lead_source lead))] |}.

Definition searchLeads : list SearchResult * list StoreCall :=
  if excluded filters_ "leads" then ([], [])
  else
    let r := from_leads sb companyId leadFilter limit_ in
    (match error r with
     | Some _ => []
     | None => JS.mapi leadResult (rows_or_empty r)
     end,
     [SelectLeads companyId leadFilter limit_]).

Definition userResult (u : UserRow) (idx : nat) : SearchResult :=
  {| id := user_id u;
     type := "user";
     title := JS.or_lit (user_name u) "Unknown User";
     subtitle := JS.or_else (user_email u) (user_role u);
     redirectUrl := "/settings";
     priorityScore := 80 - Z.of_nat idx;
     metadata := Some [("role", MStr (user_role u))] |}.

Definition searchUsers : list SearchResult * list StoreCall :=
  if excluded filters_ "users" then ([], [])
  else if negb isAdmin then ([], [])
  else
    let r := from_users sb companyId searchPattern searchPattern limit_ in
    (match error r with
     | Some _ => []
     | None => JS.mapi userResult (rows_or_empty r)
     end,
     [SelectUsers companyId searchPattern searchPattern limit_]).

Definition agentResult (agent : AgentRow) (idx : nat) : SearchResult :=
  {| id := agent_id agent;
     type := "agent";
     title := agent_name agent;
     subtitle :=
       Some (JS.template (agent_voice agent) ++ " voice - "
             ++ (if agent_is_active agent then "Active" else "Inactive"));
     redirectUrl := "/agents";
     priorityScore := 70 - Z.of_nat idx;
     metadata := Some [("voice", MStr (agent_voice agent));
                       ("isActive", MBool (agent_is_active agent))] |}.

Definition searchAgents : list SearchResult * list StoreCall :=
  if excluded filters_ "agents" then ([], [])
  else
    let r := from_agents sb companyId searchPattern limit_ in
    (match error r with
     | Some _ => []
     | None => JS.mapi agentResult (rows_or_empty r)
     end,
     [SelectAgents companyId searchPattern limit_]).

Definition callResult (call : CallRow) (idx : nat) : SearchResult :=
  {| id := call_id call;
     type := "call";
     title :=
       "Call with "
       ++ JS.or_lit (match call_leads call with
                     | Some (_, name) => name
                     | None => None
                     end) "Unknown";
     subtitle :=
       JS.or_else (option_map (JS.substring0 50) (call_summary call))
                  (call_status call);
     redirectUrl := "/call-analytics";
     priorityScore := 60 - Z.of_nat idx;
     metadata := Some [("status", MStr (call_status call));
                       ("duration", MNum (call_duration call))] |}.

Definition searchCalls : list SearchResult * list StoreCall :=
  if excluded filters_ "calls" then ([], [])
  else
    let r := from_calls sb companyId searchPattern limit_ in
    (match error r with
     | Some _ => []
     | None => JS.mapi callResult (rows_or_empty r)
     end,
     [SelectCalls companyId searchPattern limit_]).

(** An entry of the two static catalogues:
    [{ id, title, subtitle, url, keywords }]. *)
Record Item : Type := mkItem {
  item_id : string;
  item_title : string;
  item_subtitle : string;
  item_url : string;
  item_keywords : list string
}.

Definition settingsItems : list Item :=
  [ mkItem "profile" "Profile Settings" "Manage your profile" "/settings" [];
    mkItem "notifications" "Notification Settings" "Configure alerts"
           "/settings" [];
    mkItem "integrations" "Integrations" "Connect external services"
           "/integrations" [];
    mkItem "api-keys" "API Keys" "Manage API credentials" "/settings" [];
    mkItem "company" "Company Settings" "Organization preferences"
           "/settings" [] ].

Definition itemResult (tag : string) (base : Z) (item : Item) (idx : nat)
  : SearchResult :=
  {| id := item_id item;
     type := tag;
     title := item_title item;
     subtitle := Some (item_subtitle item);
     redirectUrl := item_url item;
     priorityScore := base - Z.of_nat idx;
     metadata := None |}.

Definition searchSettings : list SearchResult :=
  if excluded filters_ "settings" then []
  else
    let lowerQuery := JS.toLowerCase query_ in
    JS.mapi (itemResult "setting" 50)
      (filter (fun item =>
                 JS.includes (JS.toLowerCase (item_title item)) lowerQuery
                 || JS.includes (JS.toLowerCase (item_subtitle item)) lowerQuery)
              settingsItems).

Definition navItems : list Item :=
  [ mkItem "dashboard" "Dashboard" "Overview & stats" "/dashboard"
           ["home"; "overview"; "stats"; "metrics"];
    mkItem "leads" "Leads" "Manage leads" "/leads"
           ["contacts"; "prospects"; "customers"];
    mkItem "analytics" "Analytics" "Charts & insights" "/analytics"
           ["reports"; "data"; "charts"; "graphs"];
    mkItem "call-analytics" "Call Analytics" "Call metrics" "/call-analytics"
           ["calls"; "phone"; "conversations"];
    mkItem "agents" "Agents" "AI voice agents" "/agents"
           ["ai"; "voice"; "bots"; "assistants"];
    mkItem "integrations" "Integrations" "Connect apps" "/integrations"
           ["connect"; "apps"; "services"; "api"];
    mkItem "settings" "Settings" "Preferences" "/settings"
           ["config"; "preferences"; "account"] ].

Definition searchNavigation : list SearchResult :=
  let lowerQuery := JS.toLowerCase query_ in
  JS.mapi (itemResult "navigation" 90)
    (filter (fun item =>
               JS.includes (JS.toLowerCase (item_title item)) lowerQuery
               || JS.includes (JS.toLowerCase (item_subtitle item)) lowerQuery
               || existsb (fun k => JS.includes k lowerQuery)
                          (item_keywords item))
            navItems).

(** The requests of [Promise.all([searchLeads(), ..., searchCalls()])]. *)
Definition adapterCalls : list StoreCall :=
  (snd searchLeads ++ snd searchUsers ++ snd searchAgents
   ++ snd searchCalls)%list.
End Adapters.

(** [categories[result.type].push(result)], creating the bucket on first
    use; buckets stay in the order their keys were first written, which is
    the order [Object.values] and [Object.entries] enumerate them in. *)
Fixpoint push_category (r : SearchResult)
    (cats : list (string * list SearchResult)) : list (string * list SearchResult) :=
  match cats with
  | [] => [(type r, [r])]
  | (k, bucket) :: rest =>
      if String.eqb k (type r) then (k, (bucket ++ [r])%list) :: rest
      else (k, bucket) :: push_category r rest
  end.

Definition build_categories (rs : list SearchResult)
  : list (string * list SearchResult) :=
  fold_left (fun cats r => push_category r cats) rs [].

(** [categories[tag]], [[]] standing for a missing bucket. *)
Fixpoint bucket (tag : string) (cats : list (string * list SearchResult))
  : list SearchResult :=
  match cats with
  | [] => []
  | (k, b) :: rest => if String.eqb k tag then b else bucket tag rest
  end.

(** [sum(categories[*].length)] *)
Definition categories_size (cats : list (string * list SearchResult)) : nat :=
  list_sum (map (fun kb => List.length (snd kb)) cats).

Definition json (st : Z) (b : Body) : Response := mkHttp st b.

Definition emptyResponse : SearchResponse :=
  mkResponse [] [] None None None.

(** The recent-searches write of lines 325-328.  [write_error] is what the
    store answers: [None] when the row was written, [Some e] when the write
    failed and the table is unchanged.  The handler drops the answer. *)
Definition recordSearch (write_error : option string)
    (t : RecentSearches.Table) (u q : string) (ts : Z) : RecentSearches.Table :=
  match write_error with
  | None => RecentSearches.upsert t u q ts
  | Some _ => t
  end.

(** [const { query, filters = [], limit = 10 } = body] *)
Definition filters_of (req : SearchRequest) : list string :=
  match filters req with Some f => f | None => [] end.

Definition limit_of (req : SearchRequest) : Z :=
  match limit req with Some l => l | None => 10 end.

(** [`%${query.toLowerCase()}%`] *)
Definition searchPattern_of (q : string) : string :=
  "%" ++ JS.toLowerCase q ++ "%".

(** [userProfile.role === 'admin'] *)
Definition isAdmin_of (userProfile : UserProfile) : bool :=
  String.eqb (role userProfile) "admin".

Section Run.
Variable sb : Supabase.
Variable userProfile : UserProfile.
Variable q : string.
Variable req : SearchRequest.

(** Lines 296-304: what the six adapters return for the query [q] of
    request [req]. *)
Definition leadsResults : list SearchResult :=
  fst (searchLeads sb (filters_of req) (limit_of req) (detectQueryIntent q)
         (searchPattern_of q) (company_id userProfile)).

Definition usersResults : list SearchResult :=
  fst (searchUsers sb (filters_of req) (limit_of req) (searchPattern_of q)
         (company_id userProfile) (isAdmin_of userProfile)).

Definition agentsResults : list SearchResult :=
  fst (searchAgents sb (filters_of req) (limit_of req) (searchPattern_of q)
         (company_id userProfile)).

Definition callsResults : list SearchResult :=
  fst (searchCalls sb (filters_of req) (limit_of req) (searchPattern_of q)
         (company_id userProfile)).

Definition settingsResults : list SearchResult :=
  searchSettings q (filters_of req).

Definition navigationResults : list SearchResult := searchNavigation q.

(** The array [results] after the [push] of lines 306-313. *)
Definition results_of : list SearchResult :=
  (leadsResults ++ usersResults ++ agentsResults ++ callsResults
   ++ settingsResults ++ navigationResults)%list.
End Run.

(** ... and after [results.sort((a, b) => b.priorityScore - a.priorityScore)]. *)
Definition sorted_of (sb : Supabase) (userProfile : UserProfile)
    (q : string) (req : SearchRequest) : list SearchResult :=
  sort_desc priorityScore (results_of sb userProfile q req).

(** Lines 102-339: everything after authentication. *)
Definition aggregate (sb : Supabase) (write_error : option string)
    (recent : RecentSearches.Table) (user : AuthUser)
    (userProfile : UserProfile) (req : SearchRequest) : Outcome :=
  match query req with
  | None => mkOutcome (json 200 (BSearch emptyResponse)) [] recent
  | Some q =>
      if (String.length q <? 2)%nat then
        mkOutcome (json 200 (BSearch emptyResponse)) [] recent
      else
        let intents_ := detectQueryIntent q in
        let tsQuery := createFuzzyPattern q in
        let sorted := sorted_of sb userProfile q req in
        let cats := build_categories sorted in
        let ts := now sb in
        mkOutcome
          (json 200
             (BSearch
                (mkResponse (JS.slice0 sorted (limit_of req)) cats
                   (Some (Z.of_nat (List.length sorted))) (Some q)
                   (Some intents_))))
          (adapterCalls sb (filters_of req) (limit_of req) intents_
             (searchPattern_of q) (company_id userProfile)
             (isAdmin_of userProfile)
           ++ [UpsertRecentSearch (auth_user_id user) (JS.trim q) ts])%list
          (recordSearch write_error recent (auth_user_id user) (JS.trim q) ts)
  end.

(** The scores of an adapter's output: [base] for the first result, one
    less for each further one. *)
Definition decrements_from (base : Z) (rs : list SearchResult) : Prop :=
  forall i r, nth_error rs i = Some r -> priorityScore r = base - Z.of_nat i.

(** The search payload of a response ([emptyResponse] for the others). *)
Definition payload (o : Outcome) : SearchResponse :=
  match body (response o) with
  | BSearch r => r
  | _ => emptyResponse
  end.

(** What [await req.json()] gives: the parsed body, or a thrown error with
    its message. *)
Inductive Json : Type :=
| Parsed (b : SearchRequest)
| Thrown (message : string).

(** An incoming HTTP request: method, [Authorization] header and body. *)
Record HttpRequest : Type := mkHttpRequest {
  http_method : string;
  authorization : option string;
  http_json : Json
}.

(** The identity provider and the profile lookup of lines 80-93. *)
Record Auth : Type := mkAuth {
  getUser : string -> option AuthUser;
  maybeSingle : string -> option UserProfile
}.

(** [authHeader.replace('Bearer ', '')]: the first occurrence is removed. *)
Fixpoint remove_first (pat s : string) : string :=
  if String.prefix pat s then
    String.substring (String.length pat) (String.length s - String.length pat) s
  else
    match s with
    | EmptyString => EmptyString
    | String c s' => String c (remove_first pat s')
    end.

(** The whole handler. *)
Definition serve (auth : Auth) (sb : Supabase) (write_error : option string)
    (recent : RecentSearches.Table) (req : HttpRequest) : Outcome :=
  if String.eqb (http_method req) "OPTIONS" then
    mkOutcome (json 200 BNull) [] recent
  else if negb (JS.truthy (authorization req)) then
    mkOutcome (json 401 (BError "Missing authorization header" None)) [] recent
  else
    let token := remove_first "Bearer " (JS.template (authorization req)) in
    match getUser auth token with
    | None => mkOutcome (json 401 (BError "Invalid token" None)) [] recent
    | Some user =>
        match maybeSingle auth (auth_user_id user) with
        | None =>
            mkOutcome (json 404 (BError "User profile not found" None)) [] recent
        | Some userProfile =>
            match http_json req with
            | Thrown message =>
                mkOutcome
                  (json 500 (BError "Internal server error" (Some message)))
                  [] recent
            | Parsed b => aggregate sb write_error recent user userProfile b
            end
        end
    end.

(* ------------------------------------------------------------------ *)
(** ** The client controller: [useGlobalSearch] (the [search] callback) *)

Module Client.

(** The part of a parsed response that [search] stores. *)
Record SearchData : Type := mkData {
  data_results : list SearchResult;
  data_categories : list (string * list SearchResult)
}.

(** Where an invocation of [search] is suspended. *)
Inductive Phase : Type :=
| AwaitSession (searchQuery : string) (filters : list string)
| AwaitFetch (signal : nat)
| AwaitJson (signal : nat).

(** How [fetch] settles when its signal is not aborted. *)
Inductive FetchResult : Type :=
| NetworkError (message : string)
| HttpResponse (ok : bool).

(** The hook's state, without the query text, the recent searches and
    the debounce timer, which [search] does not touch.  An
    [AbortController] is the number under which it was created; [aborted]
    lists those whose [abort()] was called; [sent] lists the requests
    handed to [fetch], newest first, as (invocation, query, signal). *)
Record Hook : Type := mkHook {
  results : list SearchResult;
  categories : list (string * list SearchResult);
  isLoading : bool;
  error : option string;
  abortControllerRef : option nat;
  aborted : list nat;
  controllers : nat;
  calls : list (nat * Phase);
  invocations : nat;
  sent : list (nat * string * nat)
}.

Definition init : Hook :=
  mkHook [] [] false None None [] 0 [] 0 [].

Definition minQueryLength : nat := 2.

Definition is_aborted (h : Hook) (signal : nat) : bool :=
  existsb (Nat.eqb signal) (aborted h).

Fixpoint phase_of (c : nat) (cs : list (nat * Phase)) : option Phase :=
  match cs with
  | [] => None
  | (c', p) :: rest => if Nat.eqb c' c then Some p else phase_of c rest
  end.

Definition drop_call (c : nat) (cs : list (nat * Phase)) : list (nat * Phase) :=
  filter (fun cp => negb (Nat.eqb (fst cp) c)) cs.

Definition set_phase (c : nat) (p : Phase) (cs : list (nat * Phase))
  : list (nat * Phase) :=
  (c, p) :: drop_call c cs.

(** [finally { setIsLoading(false) }], the invocation being over. *)
Definition finish (c : nat) (h : Hook) : Hook :=
  mkHook (results h) (categories h) false (error h) (abortControllerRef h)
    (aborted h) (controllers h) (drop_call c (calls h)) (invocations h)
    (sent h).

(** The [catch] branch for an error that is not an [AbortError]. *)
Definition fail (c : nat) (message : string) (h : Hook) : Hook :=
  finish c
    (mkHook [] [] (isLoading h) (Some message) (abortControllerRef h)
       (aborted h) (controllers h) (calls h) (invocations h) (sent h)).

(** Lines 244-258: [search] up to its first [await]. *)
Definition search (searchQuery : string) (filters : list string) (h : Hook)
  : Hook :=
  if (String.length searchQuery <? minQueryLength)%nat then
    mkHook [] [] (isLoading h) (error h) (abortControllerRef h) (aborted h)
      (controllers h) (calls h) (invocations h) (sent h)
  else
    let aborted' :=
      match abortControllerRef h with
      | Some ctl => ctl :: aborted h
      | None => aborted h
      end in
    mkHook (results h) (categories h) true None (Some (controllers h))
      aborted' (S (controllers h))
      ((invocations h, AwaitSession searchQuery filters) :: calls h)
      (S (invocations h)) (sent h).

(** Lines 260-278: [getSession()] has resolved; without a session the
    invocation ends, otherwise [fetch] is called with the signal of the
    controller that [abortControllerRef.current] holds at this moment. *)
Definition sessionResolved (c : nat) (session : bool) (h : Hook) : Hook :=
  match phase_of c (calls h) with
  | Some (AwaitSession q _) =>
      if negb session then
        finish c
          (mkHook (results h) (categories h) (isLoading h)
             (Some "Not authenticated") (abortControllerRef h) (aborted h)
             (controllers h) (calls h) (invocations h) (sent h))
      else
        match abortControllerRef h with
        | Some signal =>
            mkHook (results h) (categories h) (isLoading h) (error h)
              (abortControllerRef h) (aborted h) (controllers h)
              (set_phase c (AwaitFetch signal) (calls h)) (invocations h)
              ((c, q, signal) :: sent h)
        | None => fail c "Cannot read properties of null" h
        end
  | _ => h
  end.

(** Lines 266-282: [fetch] settles.  With an aborted signal it rejects
    with an [AbortError], which the [catch] branch drops. *)
Definition fetchSettled (c : nat) (r : FetchResult) (h : Hook) : Hook :=
  match phase_of c (calls h) with
  | Some (AwaitFetch signal) =>
      if is_aborted h signal then finish c h
      else
        match r with
        | NetworkError message => fail c message h
        | HttpResponse false => fail c "Search request failed" h
        | HttpResponse true =>
            mkHook (results h) (categories h) (isLoading h) (error h)
              (abortControllerRef h) (aborted h) (controllers h)
              (set_phase c (AwaitJson signal) (calls h)) (invocations h)
              (sent h)
        end
  | _ => h
  end.

(** Lines 284-287: [response.json()] settles ([inr] is a parse failure);
    reading the body of an aborted request rejects with an [AbortError].
    The call of [fetchRecentSearches()] is left out: it touches the list of
    recent searches only. *)
Definition jsonSettled (c : nat) (r : SearchData + string) (h : Hook) : Hook :=
  match phase_of c (calls h) with
  | Some (AwaitJson signal) =>
      if is_aborted h signal then finish c h
      else
        match r with
        | inr message => fail c message h
        | inl d =>
            finish c
              (mkHook (data_results d) (data_categories d) (isLoading h)
                 (error h) (abortControllerRef h) (aborted h) (controllers h)
                 (calls h) (invocations h) (sent h))
        end
  | _ => h
  end.

(** What can happen to the hook. *)
Inductive Event : Type :=
| Search (searchQuery : string) (filters : list string)
| SessionResolved (call : nat) (session : bool)
| FetchSettled (call : nat) (r : FetchResult)
| JsonSettled (call : nat) (r : SearchData + string).

Definition step (h : Hook) (e : Event) : Hook :=
  match e with
  | Search q f => search q f h
  | SessionResolved c s => sessionResolved c s h
  | FetchSettled c r => fetchSettled c r h
  | JsonSettled c r => jsonSettled c r h
  end.

Definition run (h : Hook) (trace : list Event) : Hook :=
  fold_left step trace h.

(** The invocation [c] has handed its request to [fetch] and has not
    finished: its request is in flight. *)
Definition in_flight (c : nat) (h : Hook) : Prop :=
  exists signal,
    phase_of c (calls h) = Some (AwaitFetch signal)
    \/ phase_of c (calls h) = Some (AwaitJson signal).

(** The event concerns invocation [c]. *)
Definition event_of (c : nat) (e : Event) : Prop :=
  match e with
  | Search _ _ => False
  | SessionResolved c' _ | FetchSettled c' _ | JsonSettled c' _ => c' = c
  end.

(** Every request in flight carries the signal of the current controller
    or of an aborted one, and invocations are numbered below
    [invocations]. *)
Record consistent (h : Hook) : Prop := mkConsistent {
  signals_known : forall c signal,
    phase_of c (calls h) = Some (AwaitFetch signal)
    \/ phase_of c (calls h) = Some (AwaitJson signal) ->
    In signal (aborted h) \/ abortControllerRef h = Some signal;
  calls_numbered : forall c ph,
    phase_of c (calls h) = Some ph -> (c < invocations h)%nat
}.

(** The invocation [c] was superseded after its request was sent: it is
    over, or it waits on a signal that has been aborted. *)
Definition superseded (c : nat) (h : Hook) : Prop :=
  (c < invocations h)%nat
  /\ match phase_of c (calls h) with
     | None => True
     | Some (AwaitSession _ _) => False
     | Some (AwaitFetch signal) | Some (AwaitJson signal) =>
         In signal (aborted h)
     end.

(** What the palette displays of the hook. *)
Definition display (h : Hook)
  : list SearchResult * list (string * list SearchResult) * option string :=
  (results h, categories h, error h).

End Client.

(* ------------------------------------------------------------------ *)
(** ** The palette's row index (GlobalSearch.tsx, lines 72 and 289-299) *)

Module Palette.

(** [Object.values(categories).flat()] *)
Definition flatResults (categories : list (string * list SearchResult))
  : list SearchResult :=
  List.concat (map snd categories).

(** [flatResults.findIndex(r => r.id === result.id)] *)
Definition globalIndex (flat : list SearchResult) (result : SearchResult) : Z :=
  JS.findIndex (fun r => String.eqb (id r) (id result)) flat.

(** [isSelected] of a rendered row. *)
Definition isSelected (flat : list SearchResult) (selectedIndex : Z)
    (result : SearchResult) : bool :=
  globalIndex flat result =? selectedIndex.

End Palette.

(** The [ILIKE] patterns a request to the store carries. *)
Definition ilike_patterns (c : StoreCall) : list string :=
  match c with
  | SelectLeads _ (IlikeEmail pat) _ => [pat]
  | SelectLeads _ (IlikeMobile pat) _ => [pat]
  | SelectLeads _ (OrNameEmailMobile n e m) _ => [n; e; m]
  | SelectUsers _ n e _ => [n; e]
  | SelectAgents _ n _ => [n]
  | SelectCalls _ s _ => [s]
  | UpsertRecentSearch _ _ _ => []
  end.

(** The limit a select request carries. *)
Definition call_limit (c : StoreCall) : option Z :=
  match c with
  | SelectLeads _ _ l | SelectUsers _ _ _ l | SelectAgents _ _ l
  | SelectCalls _ _ l => Some l
  | UpsertRecentSearch _ _ _ => None
  end.

Definition is_history_write (c : StoreCall) : bool :=
  match c with
  | UpsertRecentSearch _ _ _ => true
  | _ => false
  end.

(* ------------------------------------------------------------------ *)
(** ** Concrete stores, callers and requests used in the examples *)

Module Sample.

Definition none {A} : PgResult (list A) := mkPg (Some []) None.

(** A tenant without matching rows. *)
Definition emptyStore : Supabase :=
  mkSupabase (fun _ _ _ => none) (fun _ _ _ _ => none)
             (fun _ _ _ => none) (fun _ _ _ => none) 1700000000000.

Definition johnDoe : UserRow :=
  mkUser "u-2" (Some "John Doe") (Some "john.doe@acme.test") None
         (Some "user").

Definition johnSmith : LeadRow :=
  mkLead "l-1" (Some "John Smith") (Some "john@smith.test") None
         (Some "new") (Some "web").

(** A tenant with the lead John Smith and the staff account John Doe. *)
Definition johnStore : Supabase :=
  mkSupabase (fun _ _ _ => mkPg (Some [johnSmith]) None)
             (fun _ _ _ _ => mkPg (Some [johnDoe]) None)
             (fun _ _ _ => none) (fun _ _ _ => none) 1700000000000.

Definition caller : AuthUser := mkAuthUser "u-1".
Definition member : UserProfile := mkProfile "u-1" "acme" "user".
Definition admin : UserProfile := mkProfile "u-1" "acme" "admin".

Definition request (q : string) : SearchRequest :=
  mkRequest (Some q) None None.

Definition requestLimit (q : string) (l : Z) : SearchRequest :=
  mkRequest (Some q) None (Some l).

(** The two catalogue entries named [integrations], as results. *)
Definition integrationsSetting : SearchResult :=
  {| id := "integrations"; type := "setting"; title := "Integrations";
     subtitle := Some "Connect external services";
     redirectUrl := "/integrations"; priorityScore := 50; metadata := None |}.

Definition integrationsPage : SearchResult :=
  {| id := "integrations"; type := "navigation"; title := "Integrations";
     subtitle := Some "Connect apps";
     redirectUrl := "/integrations"; priorityScore := 90; metadata := None |}.

(** A tenant whose [leads] query returns eleven rows. *)
Definition leadNamed (i : string) : LeadRow :=
  mkLead i (Some "Leads Ltd") None None (Some "new") None.

Definition leadsStore : Supabase :=
  mkSupabase
    (fun _ _ _ =>
       mkPg (Some (map leadNamed
                     ["a"; "b"; "c"; "d"; "e"; "f"; "g"; "h"; "i"; "j"; "k"]))
            None)
    (fun _ _ _ _ => none) (fun _ _ _ => none) (fun _ _ _ => none)
    1700000000000.

(** Eleven searches of one caller, one per second. *)
Definition elevenWrites : list (string * Z) :=
  [("alpha", 1000); ("bravo", 2000); ("charlie", 3000); ("delta", 4000);
   ("echo", 5000); ("foxtrot", 6000); ("golf", 7000); ("hotel", 8000);
   ("india", 9000); ("juliet", 10000); ("kilo", 11000)].

(** Two searches issued back to back, the sessions resolved afterwards,
    and the responses arriving in reverse order: first the one to [abc],
    then the one to [ab]. *)
Definition reordered (dataA dataB : Client.SearchData) : list Client.Event :=
  [ Client.Search "ab" [];
    Client.Search "abc" [];
    Client.SessionResolved 0 true;
    Client.SessionResolved 1 true;
    Client.FetchSettled 1 (Client.HttpResponse true);
    Client.JsonSettled 1 (inl dataB);
    Client.FetchSettled 0 (Client.HttpResponse true);
    Client.JsonSettled 0 (inl dataA) ].

End Sample.

(* ------------------------------------------------------------------ *)
(** ** Notions used to state further properties *)

(** The strings a regular expression denotes. *)
Inductive denotes : Regex.re -> string -> Prop :=
| denotes_eps : denotes Regex.Eps EmptyString
| denotes_cls (p : ascii -> bool) (c : ascii) :
    p c = true -> denotes (Regex.Cls p) (String c EmptyString)
| denotes_cat (a b : Regex.re) (s t : string) :
    denotes a s -> denotes b t -> denotes (Regex.Cat a b) (s ++ t)
| denotes_alt_l (a b : Regex.re) (s : string) :
    denotes a s -> denotes (Regex.Alt a b) s
| denotes_alt_r (a b : Regex.re) (s : string) :
    denotes b s -> denotes (Regex.Alt a b) s
| denotes_star_nil (a : Regex.re) : denotes (Regex.Star a) EmptyString
| denotes_star_cons (a : Regex.re) (s t : string) :
    denotes a s -> denotes (Regex.Star a) t -> denotes (Regex.Star a) (s ++ t).

(** Every character of the string satisfies [p]. *)
Fixpoint all_chars (p : ascii -> bool) (s : string) : bool :=
  match s with
  | EmptyString => true
  | String c s' => p c && all_chars p s'
  end.

(** The character occurs in the string. *)
Fixpoint has_char (c : ascii) (s : string) : bool :=
  match s with
  | EmptyString => false
  | String d s' => Ascii.eqb d c || has_char c s'
  end.

(** The tenant a select request is scoped to ([.eq('company_id', ...)]). *)
Definition call_company (c : StoreCall) : option string :=
  match c with
  | SelectLeads company _ _ | SelectUsers company _ _ _
  | SelectAgents company _ _ | SelectCalls company _ _ => Some company
  | UpsertRecentSearch _ _ _ => None
  end.

(** The request is a select on the [leads] table. *)
Definition is_leads_select (c : StoreCall) : bool :=
  match c with
  | SelectLeads _ _ _ => true
  | _ => false
  end.

(** What the handler asks of the store: the profile select of lines 89-93,
    keyed by the id of the authenticated user, and the requests of the
    adapters and of the history write. *)
Inductive StoreRequest : Type :=
| SelectProfile (id : string)
| Sent (call : StoreCall).

(** The requests of one run of the handler, in the order they are sent:
    none before the token is accepted, then the profile select, then
    those of [serve]. *)
Definition store_requests (auth : Auth) (sb : Supabase)
    (write_error : option string) (recent : RecentSearches.Table)
    (req : HttpRequest) : list StoreRequest :=
  if String.eqb (http_method req) "OPTIONS" then []
  else if negb (JS.truthy (authorization req)) then []
  else
    let token := remove_first "Bearer " (JS.template (authorization req)) in
    match getUser auth token with
    | None => []
    | Some user =>
        SelectProfile (auth_user_id user)
        :: map Sent (store_calls (serve auth sb write_error recent req))
    end.

Definition is_search_select (r : StoreRequest) : bool :=
  match r with
  | Sent (UpsertRecentSearch _ _ _) => false
  | Sent _ => true
  | SelectProfile _ => false
  end.

Definition is_write (r : StoreRequest) : bool :=
  match r with
  | Sent (UpsertRecentSearch _ _ _) => true
  | _ => false
  end.

(** Every character class of the expression lies within [p]. *)
Fixpoint within (p : ascii -> bool) (r : Regex.re) : Prop :=
  match r with
  | Regex.Void | Regex.Eps => True
  | Regex.Cls q => forall c, q c = true -> p c = true
  | Regex.Cat a b | Regex.Alt a b => within p a /\ within p b
  | Regex.Star a => within p a
  end.

(* ------------------------------------------------------------------ *)
(** ** Recent searches as the client reads them, and any run of writes *)

(** [fetchRecentSearches] (database.types.ts, lines 221-238):
    [select('query').order('created_at', { ascending: false }).limit(5)],
    which the policy "Users can manage own recent searches"
    ([auth.uid() = user_id]) restricts to the caller's rows. *)
Definition fetchRecentSearches (t : RecentSearches.Table) (caller : string)
  : list string :=
  map RecentSearches.rs_query
    (firstn 5 (sort_desc RecentSearches.rs_created_at
                 (RecentSearches.rows_of caller t))).

(** History writes of any callers, oldest first: (caller, text, time). *)
Definition write_all (t : RecentSearches.Table)
    (writes : list (string * string * Z)) : RecentSearches.Table :=
  fold_left
    (fun t w => RecentSearches.upsert t (fst (fst w)) (snd (fst w)) (snd w))
    writes t.

(* ------------------------------------------------------------------ *)
(** ** Keyboard selection in the palette (GlobalSearch.tsx, lines 92-115) *)

Module Selection.

(** [prev => (prev + 1) % Math.max(totalResults, 1)]; [%] is the remainder
    that takes the sign of the dividend. *)
Definition arrowDown (totalResults prev : Z) : Z :=
  Z.rem (prev + 1) (Z.max totalResults 1).

(** [prev => (prev - 1 + Math.max(totalResults, 1)) % Math.max(totalResults, 1)] *)
Definition arrowUp (totalResults prev : Z) : Z :=
  Z.rem (prev - 1 + Z.max totalResults 1) (Z.max totalResults 1).

(** [flatResults[selectedIndex]], the row that Enter activates. *)
Definition selected (flat : list SearchResult) (selectedIndex : Z)
  : option SearchResult :=
  if selectedIndex <? 0 then None else nth_error flat (Z.to_nat selectedIndex).

Fixpoint times {A} (n : nat) (f : A -> A) (x : A) : A :=
  match n with
  | O => x
  | S n' => times n' f (f x)
  end.

End Selection.

(* ------------------------------------------------------------------ *)
(** ** Debouncing and clearing (database.types.ts, lines 300-334) *)

Module Debounce.

(** The hook together with its query text and its debounce timer: the
    pending call [search(searchQuery, filters)], if a timeout is set. *)
Record Controller : Type := mkController {
  hook : Client.Hook;
  query : string;
  debounceTimer : option (string * option (list string))
}.

Definition init : Controller := mkController Client.init "" None.

(** [setResults(rs); setCategories(cs); setIsLoading(l)] *)
Definition show (rs : list SearchResult)
    (cs : list (string * list SearchResult)) (loading : bool)
    (h : Client.Hook) : Client.Hook :=
  Client.mkHook rs cs loading (Client.error h) (Client.abortControllerRef h)
    (Client.aborted h) (Client.controllers h) (Client.calls h)
    (Client.invocations h) (Client.sent h).

(** [debouncedSearch]: the pending timeout is cleared; a query shorter than
    [minQueryLength] empties the display at once, any other is scheduled. *)
Definition debouncedSearch (searchQuery : string)
    (filters : option (list string)) (c : Controller) : Controller :=
  if (String.length searchQuery <? Client.minQueryLength)%nat then
    mkController (show [] [] false (hook c)) (query c) None
  else
    mkController
      (show (Client.results (hook c)) (Client.categories (hook c)) true (hook c))
      (query c) (Some (searchQuery, filters)).

(** [handleQueryChange], returned by the hook as [setQuery]. *)
Definition handleQueryChange (newQuery : string) (c : Controller) : Controller :=
  debouncedSearch newQuery None (mkController (hook c) newQuery (debounceTimer c)).

(** The timeout elapses: [search(searchQuery, filters)] runs, an omitted
    [filters] taking its default [[]]. *)
Definition timerFires (c : Controller) : Controller :=
  match debounceTimer c with
  | Some (searchQuery, filters) =>
      mkController
        (Client.search searchQuery
           (match filters with Some f => f | None => [] end) (hook c))
        (query c) None
  | None => c
  end.

(** [clearSearch]: query, results, categories and error are reset, the
    timeout is cleared and the current controller aborted. *)
Definition clearSearch (c : Controller) : Controller :=
  let h := hook c in
  mkController
    (Client.mkHook [] [] (Client.isLoading h) None (Client.abortControllerRef h)
       (match Client.abortControllerRef h with
        | Some ctl => ctl :: Client.aborted h
        | None => Client.aborted h
        end)
       (Client.controllers h) (Client.calls h) (Client.invocations h)
       (Client.sent h))
    "" None.

(** What can happen to the controller: a keystroke, the timeout, a call of
    [clearSearch], or an event of the hook (a direct call of the exported
    [search], or one of its promises settling). *)
Inductive Event : Type :=
| QueryChange (newQuery : string)
| TimerFires
| ClearSearch
| HookEvent (e : Client.Event).

Definition step (c : Controller) (e : Event) : Controller :=
  match e with
  | QueryChange q => handleQueryChange q c
  | TimerFires => timerFires c
  | ClearSearch => clearSearch c
  | HookEvent e =>
      mkController (Client.step (hook c) e) (query c) (debounceTimer c)
  end.

Definition run (c : Controller) (trace : list Event) : Controller :=
  fold_left step trace c.

(** The event starts no search: it is neither a keystroke nor the timeout
    nor a direct call of [search]. *)
Definition passive (e : Event) : Prop :=
  match e with
  | QueryChange _ | TimerFires => False
  | ClearSearch => True
  | HookEvent (Client.Search _ _) => False
  | HookEvent _ => True
  end.

(** All controllers created so far have been aborted. *)
Definition all_aborted (h : Client.Hook) : Prop :=
  (forall ctl, Client.abortControllerRef h = Some ctl ->
               In ctl (Client.aborted h))
  /\ forall c signal,
       Client.phase_of c (Client.calls h) = Some (Client.AwaitFetch signal)
       \/ Client.phase_of c (Client.calls h) = Some (Client.AwaitJson signal) ->
       In signal (Client.aborted h).

(** What holds from a call of [clearSearch] on, as long as no search is
    started. *)
Definition cleared (c : Controller) : Prop :=
  Client.results (hook c) = [] /\ Client.categories (hook c) = []
  /\ query c = "" /\ debounceTimer c = None /\ all_aborted (hook c).

End Debounce.

(* ------------------------------------------------------------------ *)
(** ** CSV rendering of exported rows (export-data/index.ts, lines 10-32) *)

Module Csv.

(** The characters of [String(val)] for a number: digits, sign, decimal
    point and exponent mark, and the letters of [NaN] and [Infinity]. *)
Definition number_char (c : ascii) : bool :=
  ((48 <=? JS.code c) && (JS.code c <=? 57))%N
  || existsb (Ascii.eqb c)
       ["."%char; "e"%char; "+"%char; "-"%char; "N"%char; "a"%char;
        "I"%char; "n"%char; "f"%char; "i"%char; "t"%char; "y"%char].

(** The functions that every object inherits from [Object.prototype]. *)
Inductive Builtin : Type :=
| ObjectConstructor
| DefineGetter
| DefineSetter
| HasOwnProperty
| LookupGetter
| LookupSetter
| IsPrototypeOf
| PropertyIsEnumerable
| ToString
| ValueOf
| ToLocaleString.

(** A value found in a row: [null], a string, an object or array given by
    its [JSON.stringify] text, a number given by its [String(val)] text, a
    boolean, or an inherited function. *)
Inductive Value : Type :=
| Null
| Str (s : string)
| Obj (json : string)
| Num (digits : string) (shape : all_chars number_char digits = true)
| Bool (b : bool)
| Fun (f : Builtin).

(** A row: its own properties, in the order of [Object.keys]. *)
Definition Row : Type := list (string * Value).

(** The own property of that name, if there is one. *)
Fixpoint own (row : Row) (header : string) : option Value :=
  match row with
  | [] => None
  | (k, v) :: rest => if String.eqb k header then Some v else own rest header
  end.

(** What a name that is not an own property gives through the prototype
    chain: a function of [Object.prototype], the prototype itself for
    [__proto__] (an object without enumerable properties), or
    [undefined]. *)
Definition inherited (header : string) : option Value :=
  if String.eqb header "constructor" then Some (Fun ObjectConstructor)
  else if String.eqb header "__defineGetter__" then Some (Fun DefineGetter)
  else if String.eqb header "__defineSetter__" then Some (Fun DefineSetter)
  else if String.eqb header "hasOwnProperty" then Some (Fun HasOwnProperty)
  else if String.eqb header "__lookupGetter__" then Some (Fun LookupGetter)
  else if String.eqb header "__lookupSetter__" then Some (Fun LookupSetter)
  else if String.eqb header "isPrototypeOf" then Some (Fun IsPrototypeOf)
  else if String.eqb header "propertyIsEnumerable" then
    Some (Fun PropertyIsEnumerable)
  else if String.eqb header "toString" then Some (Fun ToString)
  else if String.eqb header "valueOf" then Some (Fun ValueOf)
  else if String.eqb header "toLocaleString" then Some (Fun ToLocaleString)
  else if String.eqb header "__proto__" then Some (Obj "{}")
  else None.

(** [row[header]]; [None] is [undefined]. *)
Definition get (row : Row) (header : string) : option Value :=
  match own row header with
  | Some v => Some v
  | None => inherited header
  end.

(** The name under which a built-in function prints. *)
Definition function_name (f : Builtin) : string :=
  match f with
  | ObjectConstructor => "Object"
  | DefineGetter => "__defineGetter__"
  | DefineSetter => "__defineSetter__"
  | HasOwnProperty => "hasOwnProperty"
  | LookupGetter => "__lookupGetter__"
  | LookupSetter => "__lookupSetter__"
  | IsPrototypeOf => "isPrototypeOf"
  | PropertyIsEnumerable => "propertyIsEnumerable"
  | ToString => "toString"
  | ValueOf => "valueOf"
  | ToLocaleString => "toLocaleString"
  end.

(** [String(val)] for a built-in function. *)
Definition string_of_function (f : Builtin) : string :=
  "function " ++ function_name f ++ "() { [native code] }".

(** The double quote, the comma and the line feed. *)
Definition dquote : ascii := ascii_of_N 34.
Definition comma : ascii := ascii_of_N 44.
Definition linefeed : ascii := ascii_of_N 10.

(** [val.replace(/q/g, 'qq')], where q is the double quote. *)
Fixpoint double_quotes (s : string) : string :=
  match s with
  | EmptyString => EmptyString
  | String c s' =>
      if Ascii.eqb c dquote then String dquote (String dquote (double_quotes s'))
      else String c (double_quotes s')
  end.

(** The template literal of lines 21 and 24: the text between two double
    quotes, its own double quotes doubled. *)
Definition quoted (s : string) : string :=
  String dquote (double_quotes s ++ String dquote EmptyString).

(** Lines 17-27: the text of one cell. *)
Definition cell (val : option Value) : string :=
  match val with
  | None | Some Null => EmptyString
  | Some (Str s) => quoted s
  | Some (Obj json) => quoted json
  | Some (Num digits _) => digits
  | Some (Bool b) => if b then "true" else "false"
  | Some (Fun f) => string_of_function f
  end.

(** [columns || Object.keys(data[0])]: an array, even an empty one, is
    truthy. *)
Definition headers_of (first : Row) (columns : option (list string))
  : list string :=
  match columns with
  | Some c => c
  | None => map fst first
  end.

Definition jsonToCSV (data : list Row) (columns : option (list string))
  : string :=
  match data with
  | [] => EmptyString
  | first :: _ =>
      let headers := headers_of first columns in
      JS.join (String linefeed EmptyString)
        (JS.join (String comma EmptyString) headers
         :: map (fun row =>
                   JS.join (String comma EmptyString)
                     (map (fun header => cell (get row header)) headers))
              data)
  end.

(** What a cell stands for: the string itself, the JSON text, the text of
    the number, [true] or [false], the text of the function; nothing for
    [null] and [undefined]. *)
Definition text (val : option Value) : string :=
  match val with
  | None | Some Null => EmptyString
  | Some (Str s) => s
  | Some (Obj json) => json
  | Some (Num digits _) => digits
  | Some (Bool b) => if b then "true" else "false"
  | Some (Fun f) => string_of_function f
  end.

(** How a reader of CSV splits a text: commas separate the fields of a
    record and line feeds the records; a double quote opens a quoted part,
    which runs to the next double quote that is not doubled, a doubled one
    standing for one double quote. *)
Inductive Mode : Type := Plain | Quoted | QuoteSeen.

Fixpoint read (mode : Mode) (field : string) (fields : list string)
    (s : string) : list (list string) :=
  match s with
  | EmptyString => [(fields ++ [field])%list]
  | String c rest =>
      match mode with
      | Quoted =>
          if Ascii.eqb c dquote then read QuoteSeen field fields rest
          else read Quoted (field ++ String c EmptyString) fields rest
      | _ =>
          if Ascii.eqb c dquote then
            match mode with
            | QuoteSeen =>
                read Quoted (field ++ String dquote EmptyString) fields rest
            | _ => read Quoted field fields rest
            end
          else if Ascii.eqb c comma then
            read Plain EmptyString (fields ++ [field])%list rest
          else if Ascii.eqb c linefeed then
            (fields ++ [field])%list :: read Plain EmptyString [] rest
          else read Plain (field ++ String c EmptyString) fields rest
      end
  end.

Definition parse (s : string) : list (list string) :=
  read Plain EmptyString [] s.

(** The character is none of the three that the reader treats specially. *)
Definition ordinary (c : ascii) : bool :=
  negb (Ascii.eqb c dquote) && negb (Ascii.eqb c comma)
  && negb (Ascii.eqb c linefeed).

(** The text that follows a field: nothing, a comma or a line feed. *)
Definition boundary (rest : string) : Prop :=
  match rest with
  | EmptyString => True
  | String c _ => c = comma \/ c = linefeed
  end.

(** [enc] is read as the field [dec]. *)
Definition encodes (enc dec : string) : Prop :=
  forall fields rest, boundary rest ->
    read Plain EmptyString fields (enc ++ rest) = read Plain dec fields rest.

End Csv.

(* ------------------------------------------------------------------ *)
(** ** The export handler (export-data/index.ts, lines 34-252) *)

Module ExportData.

(** The filters the handler chains on a query. *)
Inductive Filter : Type :=
| Eq (column value : string)
| Gte (column value : string)
| Lte (column value : string).

(** A select sent to the store: table, column list, filters in the order
    they are chained, and whether [.order('created_at', { ascending:
    false })] is applied. *)
Record Query : Type := mkQuery {
  q_table : string;
  q_select : string;
  q_filters : list Filter;
  q_ordered : bool
}.

(** [filters] of the request body; the default [{}] has every field
    [None]. *)
Record Filters : Type := mkFilters {
  f_status : option string;
  f_source : option string;
  f_startDate : option string;
  f_endDate : option string
}.

(** The request body; [format] defaults to ['csv'] when absent. *)
Record ExportRequest : Type := mkExportRequest {
  type : option string;
  format : option string;
  filters : Filters
}.

(** What [await req.json()] gives. *)
Inductive ExportJson : Type :=
| Parsed (b : ExportRequest)
| Thrown (message : string).

Record Request : Type := mkRequest {
  method : string;
  authorization : option string;
  json : ExportJson
}.

(** The row of the [permissions] table. *)
Record Permissions : Type := mkPermissions {
  can_export_data : option bool
}.

(** The store: the data selects as a function of the query sent, the
    permissions lookup by user id, and the date that
    [new Date().toISOString().split('T')[0]] gives. *)
Record Store : Type := mkStore {
  select : Query -> PgResult (list Csv.Row);
  permissions : string -> option Permissions;
  today : string
}.

Inductive Content : Type :=
| NoContent
| ErrorJson (error : string)
| CsvFile (csv : string) (filename : string)
| DataJson (data : list Csv.Row) (filename : string).

Record Reply : Type := mkReply {
  status : Z;
  content : Content
}.

(** The reply carries exported data. *)
Definition is_data (r : Reply) : bool :=
  match content r with
  | CsvFile _ _ | DataJson _ _ => true
  | _ => false
  end.

Definition admins : list string := ["super_admin"; "admin"].

(** [!permissions?.can_export_data], negated. *)
Definition may_export (p : option Permissions) : bool :=
  match p with
  | Some row =>
      match can_export_data row with Some true => true | _ => false end
  | None => false
  end.

(** [if (userProfile.role !== 'super_admin') query = query.eq('company_id',
    userProfile.company_id)] *)
Definition company_scope (userProfile : UserProfile) : list Filter :=
  if negb (String.eqb (role userProfile) "super_admin") then
    [Eq "company_id" (company_id userProfile)]
  else [].

(** [if (v) query = query.f(column, v)] *)
Definition when_truthy (f : string -> string -> Filter) (column : string)
    (v : option string) : list Filter :=
  if JS.truthy v then [f column (JS.template v)] else [].

Definition type_is (b : ExportRequest) (name : string) : bool :=
  match type b with
  | Some t => String.eqb t name
  | None => false
  end.

Definition refuse (st : Z) (message : string) : Reply * list Query :=
  (mkReply st (ErrorJson message), []).

(** The [catch] branch: [error.message || 'Internal server error']. *)
Definition caught (message : string) (sent : list Query) : Reply * list Query :=
  (mkReply 500 (ErrorJson (JS.or_lit (Some message) "Internal server error")),
   sent).

(** Lines 228-243. *)
Definition deliver (b : ExportRequest) (data : list Csv.Row)
    (filename : string) (columns : list string) (sent : list Query)
  : Reply * list Query :=
  if String.eqb (match format b with Some f => f | None => "csv" end) "csv"
  then
    (mkReply 200
       (CsvFile (Csv.jsonToCSV data (Some columns)) (filename ++ ".csv")),
     sent)
  else (mkReply 200 (DataJson data filename), sent).

Section Handler.
Variable auth : Auth.
Variable store : Store.
(** Lines 200-213: the rows counting the leads by status and by source, in
    the order of [Object.entries]. *)
Variable analyticsData : list Csv.Row -> list Csv.Row.

(** [const { data, error } = await query; if (error) throw error;
    data = rows || []], then the rest of the branch. *)
Definition selected (q : Query) (b : ExportRequest) (filename : string)
    (columns : list string) : Reply * list Query :=
  match error (select store q) with
  | Some message => caught message [q]
  | None => deliver b (rows_or_empty (select store q)) filename columns [q]
  end.

(** Lines 97-226: the [switch] on the export type. *)
Definition switch (userProfile : UserProfile) (b : ExportRequest)
  : Reply * list Query :=
  if type_is b "leads" then
    selected
      (mkQuery "leads"
         "id, name, email, mobile, status, source, created_at, updated_at"
         (company_scope userProfile
          ++ when_truthy Eq "status" (f_status (filters b))
          ++ when_truthy Eq "source" (f_source (filters b))
          ++ when_truthy Gte "created_at" (f_startDate (filters b))
          ++ when_truthy Lte "created_at" (f_endDate (filters b)))%list
         true)
      b ("leads_export_" ++ today store)
      ["id"; "name"; "email"; "mobile"; "status"; "source"; "created_at";
       "updated_at"]
  else if type_is b "users" then
    if negb (JS.arr_includes admins (role userProfile)) then
      refuse 403 "Only admins can export users"
    else
      selected
        (mkQuery "users" "id, name, email, phone, role, is_active, created_at"
           (company_scope userProfile) true)
        b ("users_export_" ++ today store)
        ["id"; "name"; "email"; "phone"; "role"; "is_active"; "created_at"]
  else if type_is b "companies" then
    if negb (String.eqb (role userProfile) "super_admin") then
      refuse 403 "Only super admins can export companies"
    else
      selected
        (mkQuery "companies"
           "id, name, subscription_tier, subscription_status, max_users, created_at"
           [] true)
        b ("companies_export_" ++ today store)
        ["id"; "name"; "subscription_tier"; "subscription_status"; "max_users";
         "created_at"]
  else if type_is b "calls" then
    selected
      (mkQuery "calls" "id, lead_id, status, duration, sentiment, created_at"
         (company_scope userProfile) true)
      b ("calls_export_" ++ today store)
      ["id"; "lead_id"; "status"; "duration"; "sentiment"; "created_at"]
  else if type_is b "analytics" then
    let leadsQuery :=
      mkQuery "leads" "status, source, created_at"
        (company_scope userProfile) false in
    deliver b (analyticsData (rows_or_empty (select store leadsQuery)))
      ("analytics_export_" ++ today store) ["metric"; "value"; "count"]
      [leadsQuery]
  else refuse 400 "Invalid export type".

(** The whole handler: the reply and the selects sent to the store. *)
Definition handler (req : Request) : Reply * list Query :=
  if String.eqb (method req) "OPTIONS" then (mkReply 200 NoContent, [])
  else if negb (JS.truthy (authorization req)) then
    refuse 401 "Missing authorization header"
  else
    let token := remove_first "Bearer " (JS.template (authorization req)) in
    match getUser auth token with
    | None => refuse 401 "Invalid token"
    | Some user =>
        match maybeSingle auth (auth_user_id user) with
        | None => refuse 404 "User profile not found"
        | Some userProfile =>
            if negb (JS.arr_includes admins (role userProfile))
               && negb (may_export (permissions store (auth_user_id user)))
            then refuse 403 "Export permission denied"
            else
              match json req with
              | Thrown message => caught message []
              | Parsed b => switch userProfile b
              end
        end
    end.

End Handler.

End ExportData.

(* ------------------------------------------------------------------ *)
(** ** The permissions table and its trigger (SQL migration) *)

Module PermissionsTable.

(** [permissions (user_id, can_view_analytics, ..., can_delete_leads)],
    without the generated id and the timestamps. *)
Record Row : Type := mkRow {
  user_id : string;
  can_view_analytics : option bool;
  can_make_calls : option bool;
  can_export_data : option bool;
  can_manage_leads : option bool;
  can_view_all_leads : option bool;
  can_edit_leads : option bool;
  can_delete_leads : option bool
}.

Definition Table : Type := list Row.

(** [create_default_permissions()], run AFTER INSERT ON users FOR EACH ROW
    with the new row's id and role: for a member or user a row is inserted
    with the listed values, the two columns left out taking their
    defaults, unless the user has a row already (ON CONFLICT DO
    NOTHING). *)
Definition create_default_permissions (new_id new_role : string) (t : Table)
  : Table :=
  if JS.arr_includes ["member"; "user"] new_role then
    if existsb (fun r => String.eqb (user_id r) new_id) t then t
    else
      (t ++ [mkRow new_id (Some false) (Some true) (Some false) (Some false)
               (Some false) (Some true) (Some false)])%list
  else t.

(** [.from('permissions').select('can_export_data').eq('user_id', id)
    .maybeSingle()]: the row if there is exactly one. *)
Definition lookup (t : Table) (id : string) : option ExportData.Permissions :=
  match filter (fun r => String.eqb (user_id r) id) t with
  | [r] => Some (ExportData.mkPermissions (can_export_data r))
  | _ => None
  end.

End PermissionsTable.

(** A member who holds the export permission, and a store with one lead
    whose name contains a double quote and a comma. *)
Module ExportSample.

Definition auth : Auth :=
  mkAuth (fun _ => Some Sample.caller) (fun _ => Some Sample.member).

Definition lead : Csv.Row :=
  [("id", Csv.Str "l-1");
   ("name", Csv.Str (String Csv.dquote "Smith, John"));
   ("email", Csv.Null);
   ("status", Csv.Str "new")].

Definition store : ExportData.Store :=
  ExportData.mkStore (fun _ => mkPg (Some [lead]) None)
    (fun _ => Some (ExportData.mkPermissions (Some true))) "2024-01-01".

Definition noAnalytics (leads : list Csv.Row) : list Csv.Row := [].

(** The same store, the permissions being those that the trigger leaves
    for the caller in an empty table. *)
Definition freshStore : ExportData.Store :=
  ExportData.mkStore (fun _ => mkPg (Some [lead]) None)
    (PermissionsTable.lookup
       (PermissionsTable.create_default_permissions "u-1" "user" []))
    "2024-01-01".

Definition request : ExportData.Request :=
  ExportData.mkRequest "POST" (Some "Bearer t")
    (ExportData.Parsed
       (ExportData.mkExportRequest (Some "leads") None
          (ExportData.mkFilters None None None None))).

End ExportSample.

(* ================================================================== *)
(** * Properties *)

(** ** The stable sort *)

Section StableSortFacts.
Context {A : Type} (key : A -> Z).

Lemma insert_desc_perm (x : A) (l : list A) :
  Permutation (x :: l) (insert_desc key x l).
Proof.
  induction l as [|y l IH]; simpl; [reflexivity|].
  destruct (key y <=? key x); [reflexivity|].
  rewrite perm_swap. now constructor.
Qed.

Lemma sort_desc_perm (l : list A) : Permutation l (sort_desc key l).
Proof.
  induction l as [|x l IH]; simpl; [constructor|].
  rewrite <- insert_desc_perm. now constructor.
Qed.

Lemma sort_desc_length (l : list A) :
  List.length (sort_desc key l) = List.length l.
Proof. symmetry. apply Permutation_length, sort_desc_perm. Qed.

Lemma sort_desc_In (x : A) (l : list A) : In x (sort_desc key l) <-> In x l.
Proof.
  split; intro H.
  - eapply Permutation_in; [symmetry; apply sort_desc_perm | exact H].
  - eapply Permutation_in; [apply sort_desc_perm | exact H].
Qed.

Lemma insert_desc_sorted (x : A) (l : list A) :
  StronglySorted (desc key) l -> StronglySorted (desc key) (insert_desc key x l).
Proof.
  induction 1 as [|y l Hs IH Hall]; simpl.
  - repeat constructor.
  - destruct (key y <=? key x) eqn:E.
    + apply Z.leb_le in E. constructor; [now constructor|].
      constructor; [exact E|].
      eapply Forall_impl; [|exact Hall]. unfold desc. intros; lia.
    + apply Z.leb_gt in E. constructor; [exact IH|].
      eapply Permutation_Forall; [apply insert_desc_perm|].
      constructor; [unfold desc; lia | exact Hall].
Qed.

Lemma sort_desc_sorted (l : list A) : StronglySorted (desc key) (sort_desc key l).
Proof.
  induction l; simpl; [constructor | now apply insert_desc_sorted].
Qed.

Lemma with_key_insert (k : Z) (x : A) (l : list A) :
  with_key key k (insert_desc key x l) = with_key key k (x :: l).
Proof.
  induction l as [|y l IH]; [reflexivity|].
  cbn [insert_desc]. destruct (key y <=? key x) eqn:E; [reflexivity|].
  apply Z.leb_gt in E. unfold with_key in *. cbn [filter] in *.
  rewrite IH.
  destruct (key x =? k) eqn:Ex, (key y =? k) eqn:Ey; try reflexivity.
  apply Z.eqb_eq in Ex, Ey. lia.
Qed.

(** Elements of equal key leave the sort in the order they entered it. *)
Lemma sort_desc_stable (k : Z) (l : list A) :
  with_key key k (sort_desc key l) = with_key key k l.
Proof.
  induction l as [|x l IH]; [reflexivity|].
  cbn [sort_desc]. rewrite with_key_insert.
  unfold with_key in *. cbn [filter]. now rewrite IH.
Qed.

Lemma with_key_In (k : Z) (x : A) (l : list A) :
  In x (with_key key k l) <-> In x l /\ key x = k.
Proof.
  unfold with_key. rewrite filter_In, Z.eqb_eq. reflexivity.
Qed.

(** Two descending lists with the same elements of every key, in the
    same order, are the same list. *)
Lemma sorted_stable_unique (l1 l2 : list A) :
  StronglySorted (desc key) l1 -> StronglySorted (desc key) l2 ->
  (forall k, with_key key k l1 = with_key key k l2) ->
  l1 = l2.
Proof.
  intros H1. revert l2. induction H1 as [|a l1 Hs1 IH Ha]; intros l2 H2 Heq.
  - destruct l2 as [|b l2]; [reflexivity|].
    specialize (Heq (key b)). unfold with_key in Heq. cbn in Heq.
    rewrite Z.eqb_refl in Heq. discriminate.
  - destruct l2 as [|b l2].
    + specialize (Heq (key a)). unfold with_key in Heq. cbn in Heq.
      rewrite Z.eqb_refl in Heq. discriminate.
    + inversion H2 as [|? ? Hs2 Hb]; subst.
      assert (Hab : key a = key b).
      { assert (In a (b :: l2)) as Hina.
        { apply (with_key_In (key a)). rewrite <- Heq.
          apply with_key_In. split; [now left | reflexivity]. }
        assert (In b (a :: l1)) as Hinb.
        { apply (with_key_In (key b)). rewrite Heq.
          apply with_key_In. split; [now left | reflexivity]. }
        assert (key a <= key b).
        { destruct Hina as [->|Hina]; [lia|].
          rewrite Forall_forall in Hb. apply (Hb _ Hina). }
        assert (key b <= key a).
        { destruct Hinb as [->|Hinb]; [lia|].
          rewrite Forall_forall in Ha. apply (Ha _ Hinb). }
        lia. }
      assert (a = b).
      { specialize (Heq (key a)). unfold with_key in Heq. cbn in Heq.
        rewrite Z.eqb_refl in Heq. rewrite <- Hab, Z.eqb_refl in Heq.
        now inversion Heq. }
      subst b. f_equal. apply IH; [exact Hs2|].
      intro k. specialize (Heq k). unfold with_key in *. cbn in Heq.
      destruct (key a =? k); [now inversion Heq | exact Heq].
Qed.

(** Any stable descending arrangement of [l] is [sort_desc l]. *)
Lemma sort_desc_unique (l l' : list A) :
  StronglySorted (desc key) l' ->
  (forall k, with_key key k l' = with_key key k l) ->
  l' = sort_desc key l.
Proof.
  intros Hs Hk. apply sorted_stable_unique; [exact Hs | apply sort_desc_sorted |].
  intro k. now rewrite Hk, sort_desc_stable.
Qed.

Lemma insert_desc_smallest (x : A) (l : list A) :
  Forall (fun y => key x < key y) l -> insert_desc key x l = (l ++ [x])%list.
Proof.
  induction 1 as [|y l Hy _ IH]; [reflexivity|].
  cbn. destruct (key y <=? key x) eqn:E; [apply Z.leb_le in E; lia|].
  now rewrite IH.
Qed.

(** A strictly ascending list is sorted by reversing it. *)
Lemma sort_desc_ascending (l : list A) :
  StronglySorted (fun a b => key a < key b) l ->
  sort_desc key l = List.rev l.
Proof.
  induction 1 as [|a l _ IH Ha]; [reflexivity|].
  cbn. rewrite IH. apply insert_desc_smallest.
  apply Forall_forall. intros b Hb. apply in_rev in Hb.
  rewrite Forall_forall in Ha. now apply Ha.
Qed.
End StableSortFacts.

(** ** Intent classifier and sanitizer on examples *)

Example intents_of_examples :
  detectQueryIntent "a@b.co" = ["email"]
  /\ detectQueryIntent "+1-555-0101" = ["phone"]
  /\ detectQueryIntent "550e8400-e29b-41d4-a716-446655440000" = ["id"]
  /\ detectQueryIntent "hello world" = ["text"]
  /\ detectQueryIntent "https://example.com/x" = ["url"].
Proof. repeat split; vm_compute; reflexivity. Qed.

Example sanitizer_examples :
  escapeSearchQuery " R&D (lab) " = "R D  lab"
  /\ createFuzzyPattern " R&D (lab) " = "R:* & D:* & lab:*"
  /\ JS.split_ws " a  b " = [""; "a"; "b"; ""].
Proof. repeat split. Qed.

(** ** Arrays *)

Lemma mapi_from_nth {A B} (f : A -> nat -> B) (l : list A) (k i : nat) :
  nth_error (JS.mapi_from f k l) i
  = option_map (fun x => f x (k + i)%nat) (nth_error l i).
Proof.
  revert k i. induction l as [|x l IH]; intros k [|i]; cbn; try reflexivity.
  - now rewrite Nat.add_0_r.
  - rewrite IH. now replace (S k + i)%nat with (k + S i)%nat by lia.
Qed.

Lemma mapi_nth {A B} (f : A -> nat -> B) (l : list A) (i : nat) :
  nth_error (JS.mapi f l) i = option_map (fun x => f x i) (nth_error l i).
Proof. unfold JS.mapi. now rewrite mapi_from_nth. Qed.

Lemma mapi_from_In {A B} (f : A -> nat -> B) (l : list A) (k : nat) (y : B) :
  In y (JS.mapi_from f k l) <-> exists x i, nth_error l i = Some x /\ y = f x (k + i)%nat.
Proof.
  split.
  - intro H. apply In_nth_error in H. destruct H as [i H].
    rewrite mapi_from_nth in H. destruct (nth_error l i) as [x|] eqn:E; [|discriminate].
    exists x, i. split; [exact E|]. cbn in H. now inversion H.
  - intros (x & i & Hx & ->). apply nth_error_In with (n := i).
    now rewrite mapi_from_nth, Hx.
Qed.

Lemma mapi_Forall {A B} (P : B -> Prop) (f : A -> nat -> B) (l : list A) :
  (forall x i, P (f x i)) -> Forall P (JS.mapi f l).
Proof.
  intro H. apply Forall_forall. intros y Hy.
  apply mapi_from_In in Hy. destruct Hy as (x & i & _ & ->). apply H.
Qed.

Lemma slice0_nonneg {A} (l : list A) (e : Z) :
  0 <= e -> JS.slice0 l e = firstn (Z.to_nat e) l.
Proof.
  intro H. unfold JS.slice0.
  destruct (e <? 0) eqn:E; [apply Z.ltb_lt in E; lia|].
  destruct (Z.min_spec e (Z.of_nat (List.length l))) as [[Hlt ->]|[Hge ->]].
  - reflexivity.
  - rewrite Nat2Z.id, firstn_all. symmetry. apply firstn_all2. lia.
Qed.

Lemma slice0_negative {A} (l : list A) (e : Z) :
  e < 0 -> JS.slice0 l e = firstn (List.length l - Z.to_nat (- e)) l.
Proof.
  intro H. unfold JS.slice0.
  destruct (e <? 0) eqn:E; [|apply Z.ltb_ge in E; lia].
  f_equal. lia.
Qed.

Lemma firstn_incl {A} (n : nat) (l : list A) (x : A) :
  In x (firstn n l) -> In x l.
Proof.
  intro H. rewrite <- (firstn_skipn n l). apply in_or_app. now left.
Qed.

Lemma slice0_incl {A} (l : list A) (e : Z) (x : A) :
  In x (JS.slice0 l e) -> In x l.
Proof. unfold JS.slice0. apply firstn_incl. Qed.

(** ** The category map *)

Lemma bucket_push (tag : string) (r : SearchResult) cats :
  bucket tag (push_category r cats)
  = if String.eqb (type r) tag then (bucket tag cats ++ [r])%list
    else bucket tag cats.
Proof.
  induction cats as [|[k b] rest IH]; cbn.
  - rewrite String.eqb_sym. now destruct (String.eqb tag (type r)).
  - destruct (String.eqb k (type r)) eqn:Ek; cbn.
    + apply String.eqb_eq in Ek. subst k.
      destruct (String.eqb (type r) tag); reflexivity.
    + destruct (String.eqb k tag) eqn:Et.
      * apply String.eqb_eq in Et. subst k. now rewrite String.eqb_sym, Ek.
      * exact IH.
Qed.

Lemma bucket_fold (tag : string) (rs : list SearchResult) cats :
  bucket tag (fold_left (fun c r => push_category r c) rs cats)
  = (bucket tag cats
     ++ filter (fun r => String.eqb (type r) tag) rs)%list.
Proof.
  revert cats. induction rs as [|r rs IH]; intro cats; cbn.
  - now rewrite app_nil_r.
  - rewrite IH, bucket_push.
    destruct (String.eqb (type r) tag); [now rewrite <- app_assoc | reflexivity].
Qed.

(** Each bucket holds the results of its type, in sorted order. *)
Lemma bucket_build (tag : string) (rs : list SearchResult) :
  bucket tag (build_categories rs)
  = filter (fun r => String.eqb (type r) tag) rs.
Proof. unfold build_categories. now rewrite bucket_fold. Qed.

Lemma categories_size_cons (k : string) (b : list SearchResult) rest :
  categories_size ((k, b) :: rest)
  = (List.length b + categories_size rest)%nat.
Proof. reflexivity. Qed.

Lemma categories_size_push (r : SearchResult) cats :
  categories_size (push_category r cats) = S (categories_size cats).
Proof.
  induction cats as [|[k b] rest IH]; [reflexivity|].
  cbn [push_category]. destruct (String.eqb k (type r)).
  - rewrite !categories_size_cons, length_app. cbn. lia.
  - rewrite !categories_size_cons, IH. lia.
Qed.

Lemma categories_size_build (rs : list SearchResult) :
  categories_size (build_categories rs) = List.length rs.
Proof.
  unfold build_categories.
  enough (H : forall cats,
             categories_size (fold_left (fun c r => push_category r c) rs cats)
             = (categories_size cats + List.length rs)%nat) by apply H.
  induction rs as [|r rs IH]; intro cats; cbn [fold_left List.length]; [lia|].
  rewrite IH, categories_size_push. lia.
Qed.

Lemma flat_push (r x : SearchResult) cats :
  In x (Palette.flatResults (push_category r cats))
  <-> x = r \/ In x (Palette.flatResults cats).
Proof.
  unfold Palette.flatResults.
  induction cats as [|[k b] rest IH]; cbn.
  - intuition congruence.
  - destruct (String.eqb k (type r)); cbn.
    + rewrite !in_app_iff. cbn. intuition congruence.
    + rewrite !in_app_iff, IH. intuition.
Qed.

(** The buckets together hold exactly the results they were built from. *)
Lemma flat_build (x : SearchResult) (rs : list SearchResult) :
  In x (Palette.flatResults (build_categories rs)) <-> In x rs.
Proof.
  unfold build_categories.
  enough (H : forall cats,
             In x (Palette.flatResults
                     (fold_left (fun c r => push_category r c) rs cats))
             <-> In x (Palette.flatResults cats) \/ In x rs).
  { rewrite H. cbn. intuition. }
  induction rs as [|r rs IH]; intro cats; cbn [fold_left In]; [intuition|].
  rewrite IH, flat_push. intuition congruence.
Qed.

Lemma bucket_In_flat (tag : string) (x : SearchResult) cats :
  In x (bucket tag cats) -> In x (Palette.flatResults cats).
Proof.
  unfold Palette.flatResults.
  induction cats as [|[k b] rest IH]; cbn; [tauto|].
  rewrite in_app_iff. destruct (String.eqb k tag); auto.
Qed.

(** ** The aggregator *)

(** The handler's result for a query of two characters or more. *)
Lemma aggregate_search sb we recent user p req q :
  query req = Some q -> (2 <= String.length q)%nat ->
  aggregate sb we recent user p req
  = mkOutcome
      (json 200
         (BSearch
            (mkResponse (JS.slice0 (sorted_of sb p q req) (limit_of req))
               (build_categories (sorted_of sb p q req))
               (Some (Z.of_nat (List.length (sorted_of sb p q req))))
               (Some q) (Some (detectQueryIntent q)))))
      (adapterCalls sb (filters_of req) (limit_of req) (detectQueryIntent q)
         (searchPattern_of q) (company_id p) (isAdmin_of p)
       ++ [UpsertRecentSearch (auth_user_id user) (JS.trim q) (now sb)])%list
      (recordSearch we recent (auth_user_id user) (JS.trim q) (now sb)).
Proof.
  intros Hq Hlen. unfold aggregate. rewrite Hq.
  destruct (String.length q <? 2)%nat eqn:E; [|reflexivity].
  apply Nat.ltb_lt in E. lia.
Qed.

(** The handler's result for a missing or shorter query. *)
Lemma aggregate_short sb we recent user p req :
  (query req = None
   \/ exists q, query req = Some q /\ (String.length q < 2)%nat) ->
  aggregate sb we recent user p req
  = mkOutcome (json 200 (BSearch emptyResponse)) [] recent.
Proof.
  intros [Hq | (q & Hq & Hlen)]; unfold aggregate; rewrite Hq; [reflexivity|].
  apply Nat.ltb_lt in Hlen. now rewrite Hlen.
Qed.

Lemma query_cases (req : SearchRequest) :
  (query req = None
   \/ exists q, query req = Some q /\ (String.length q < 2)%nat)
  \/ exists q, query req = Some q /\ (2 <= String.length q)%nat.
Proof.
  destruct (query req) as [q|]; [|now left; left].
  destruct (Nat.lt_ge_cases (String.length q) 2).
  - left. right. now exists q.
  - right. now exists q.
Qed.

(** An authenticated request with a parsable body is answered by
    [aggregate]; the properties below are stated for it. *)
Lemma serve_authenticated auth sb we recent req header user userProfile b :
  http_method req <> "OPTIONS" ->
  authorization req = Some header -> header <> "" ->
  getUser auth (remove_first "Bearer " header) = Some user ->
  maybeSingle auth (auth_user_id user) = Some userProfile ->
  http_json req = Parsed b ->
  serve auth sb we recent req = aggregate sb we recent user userProfile b.
Proof.
  intros Hm Ha Hh Hu Hp Hb. unfold serve.
  apply String.eqb_neq in Hm. rewrite Hm, Ha. cbn [JS.truthy JS.template].
  apply String.eqb_neq in Hh. rewrite Hh. cbn [negb].
  now rewrite Hu, Hp, Hb.
Qed.

(** C1, counterexample.  With the limit [-1] the query [settings] is
    answered with three results: more than the limit. *)
Lemma results_exceed_negative_limit :
  let req := Sample.requestLimit "settings" (-1) in
  let r := payload (aggregate Sample.emptyStore None RecentSearches.empty
                      Sample.caller Sample.member req) in
  query req = Some "settings"
  /\ limit_of req = -1
  /\ List.length (results r) = 3%nat
  /\ ~ Z.of_nat (List.length (results r)) <= limit_of req.
Proof.
  cbv zeta. split; [reflexivity|]. split; [reflexivity|].
  split; [reflexivity|]. vm_compute. intro H. now apply H.
Qed.

(** C1.  A query of at least two characters is answered with [results] =
    [sorted.slice(0, limit)], which for a limit that is not negative is the
    first [limit] entries of the sorted merged sequence, while [categories]
    (bucket by bucket) and [totalCount] are taken from the whole sorted
    sequence.  For every query and every limit [results] has at most as
    many entries as the buckets of [categories] hold together; it has at
    most [limit] entries when the limit is not negative. *)
Theorem results_capped_categories_whole sb we recent user p req :
  let r := payload (aggregate sb we recent user p req) in
  (forall q, query req = Some q -> (2 <= String.length q)%nat ->
     results r = JS.slice0 (sorted_of sb p q req) (limit_of req)
     /\ (0 <= limit_of req ->
         results r = firstn (Z.to_nat (limit_of req)) (sorted_of sb p q req))
     /\ categories r = build_categories (sorted_of sb p q req)
     /\ (forall tag,
           bucket tag (categories r)
           = filter (fun x => String.eqb (type x) tag) (sorted_of sb p q req))
     /\ categories_size (categories r) = List.length (results_of sb p q req)
     /\ totalCount r = Some (Z.of_nat (List.length (results_of sb p q req))))
  /\ (0 <= limit_of req ->
      Z.of_nat (List.length (results r)) <= limit_of req)
  /\ (List.length (results r) <= categories_size (categories r))%nat.
Proof.
  intros r. subst r.
  destruct (query_cases req) as [Hshort | (q & Hq & Hlen)].
  - rewrite (aggregate_short _ _ _ _ _ _ Hshort). cbn.
    split; [|split; [intros; lia | lia]].
    intros q Hq Hlen. destruct Hshort as [Hn | (q' & Hq' & Hlt)].
    + congruence.
    + assert (q' = q) by congruence. subst. lia.
  - rewrite (aggregate_search _ _ _ _ _ _ _ Hq Hlen). unfold payload, json.
    cbn [response body results categories totalCount].
    rewrite categories_size_build.
    assert (Hsz : List.length (sorted_of sb p q req)
                  = List.length (results_of sb p q req))
      by apply sort_desc_length.
    split; [|split].
    + intros q' Hq' _. assert (q' = q) by congruence. subst q'.
      split; [reflexivity|].
      split; [intro Hlim; now apply slice0_nonneg|].
      split; [reflexivity|].
      split; [intro tag; apply bucket_build|].
      split; [exact Hsz | now rewrite Hsz].
    + intro Hlim. rewrite slice0_nonneg by exact Hlim.
      pose proof (firstn_le_length (Z.to_nat (limit_of req))
                    (sorted_of sb p q req)).
      lia.
    + destruct (Z.lt_ge_cases (limit_of req) 0) as [Hneg | Hlim].
      * rewrite slice0_negative by exact Hneg. rewrite length_firstn. lia.
      * rewrite slice0_nonneg by lia. rewrite length_firstn. lia.
Qed.

Lemma results_capped_categories_whole_witness :
  0 <= limit_of (Sample.requestLimit "settings" 2)
  /\ Z.of_nat (List.length (results (payload
       (aggregate Sample.emptyStore None RecentSearches.empty Sample.caller
          Sample.member (Sample.requestLimit "settings" 2))))) <= 2
  /\ (List.length (results (payload
       (aggregate Sample.emptyStore None RecentSearches.empty Sample.caller
          Sample.member (Sample.requestLimit "settings" 2))))
      <= categories_size (categories (payload
       (aggregate Sample.emptyStore None RecentSearches.empty Sample.caller
          Sample.member (Sample.requestLimit "settings" 2)))))%nat.
Proof.
  assert (Hlim : 0 <= limit_of (Sample.requestLimit "settings" 2))
    by (cbn; lia).
  split; [exact Hlim|].
  pose proof (results_capped_categories_whole Sample.emptyStore None
                RecentSearches.empty Sample.caller Sample.member
                (Sample.requestLimit "settings" 2)) as H.
  cbv zeta in H. destruct H as (_ & Hcap & Hsize).
  split; [exact (Hcap Hlim) | exact Hsize].
Defined.

Lemma mapi_decrements {A} (base : Z) (f : A -> nat -> SearchResult) (l : list A) :
  (forall x i, priorityScore (f x i) = base - Z.of_nat i) ->
  decrements_from base (JS.mapi f l).
Proof.
  intros Hf i r Hr. rewrite mapi_nth in Hr.
  destruct (nth_error l i); [|discriminate]. cbn in Hr.
  inversion Hr. apply Hf.
Qed.

Lemma nil_decrements (base : Z) : decrements_from base [].
Proof. intros [|i] r H; discriminate. Qed.

Lemma leads_decrement sb p q req : decrements_from 100 (leadsResults sb p q req).
Proof.
  unfold leadsResults, searchLeads.
  destruct (excluded _ _); cbn [fst]; [apply nil_decrements|].
  destruct (error _); [apply nil_decrements|].
  now apply mapi_decrements.
Qed.

Lemma users_decrement sb p q req : decrements_from 80 (usersResults sb p q req).
Proof.
  unfold usersResults, searchUsers.
  destruct (excluded _ _); cbn [fst]; [apply nil_decrements|].
  destruct (negb _); cbn [fst]; [apply nil_decrements|].
  destruct (error _); [apply nil_decrements|].
  now apply mapi_decrements.
Qed.

Lemma agents_decrement sb p q req : decrements_from 70 (agentsResults sb p q req).
Proof.
  unfold agentsResults, searchAgents.
  destruct (excluded _ _); cbn [fst]; [apply nil_decrements|].
  destruct (error _); [apply nil_decrements|].
  now apply mapi_decrements.
Qed.

Lemma calls_decrement sb p q req : decrements_from 60 (callsResults sb p q req).
Proof.
  unfold callsResults, searchCalls.
  destruct (excluded _ _); cbn [fst]; [apply nil_decrements|].
  destruct (error _); [apply nil_decrements|].
  now apply mapi_decrements.
Qed.

Lemma settings_decrement q req : decrements_from 50 (settingsResults q req).
Proof.
  unfold settingsResults, searchSettings.
  destruct (excluded _ _); [apply nil_decrements|].
  now apply mapi_decrements.
Qed.

Lemma navigation_decrement q : decrements_from 90 (navigationResults q).
Proof. unfold navigationResults, searchNavigation. now apply mapi_decrements. Qed.

(** C2.  For a query of at least two characters the six adapters' outputs,
    each scored base minus position, are concatenated in the order lead,
    staff account, agent, call, settings, navigation; the response is cut
    from the arrangement [sorted] of that sequence, which has the same
    entries, is descending in priority score, keeps entries of equal score in
    their order of concatenation, and is the only arrangement doing so. *)
Theorem merged_sorted_stable sb we recent user p req q :
  query req = Some q -> (2 <= String.length q)%nat ->
  let all := results_of sb p q req in
  let sorted := sorted_of sb p q req in
  let r := payload (aggregate sb we recent user p req) in
  all = (leadsResults sb p q req ++ usersResults sb p q req
         ++ agentsResults sb p q req ++ callsResults sb p q req
         ++ settingsResults q req ++ navigationResults q)%list
  /\ (decrements_from 100 (leadsResults sb p q req)
      /\ decrements_from 80 (usersResults sb p q req)
      /\ decrements_from 70 (agentsResults sb p q req)
      /\ decrements_from 60 (callsResults sb p q req)
      /\ decrements_from 50 (settingsResults q req)
      /\ decrements_from 90 (navigationResults q))
  /\ results r = JS.slice0 sorted (limit_of req)
  /\ categories r = build_categories sorted
  /\ Permutation all sorted
  /\ StronglySorted (desc priorityScore) sorted
  /\ (forall k, with_key priorityScore k sorted = with_key priorityScore k all)
  /\ (forall l,
        StronglySorted (desc priorityScore) l ->
        (forall k, with_key priorityScore k l = with_key priorityScore k all) ->
        l = sorted).
Proof.
  intros Hq Hlen all sorted r. subst all sorted r.
  rewrite (aggregate_search _ _ _ _ _ _ _ Hq Hlen). unfold payload, json.
  cbn [response body results categories].
  split; [reflexivity|].
  split.
  { repeat split;
      auto using leads_decrement, users_decrement, agents_decrement,
        calls_decrement, settings_decrement, navigation_decrement. }
  split; [reflexivity|]. split; [reflexivity|].
  unfold sorted_of.
  split; [apply sort_desc_perm|].
  split; [apply sort_desc_sorted|].
  split; [intro k; apply sort_desc_stable|].
  intros l Hs Hk. now apply sort_desc_unique.
Qed.

Lemma merged_sorted_stable_witness :
  query (Sample.request "john") = Some "john"
  /\ (2 <= String.length "john")%nat
  /\ StronglySorted (desc priorityScore)
       (sorted_of Sample.johnStore Sample.admin "john" (Sample.request "john")).
Proof.
  split; [reflexivity|]. split; [cbn; lia|].
  apply (merged_sorted_stable Sample.johnStore None RecentSearches.empty
           Sample.caller Sample.admin (Sample.request "john") "john");
    [reflexivity | cbn; lia].
Defined.

(** The eleventh lead and the first page both score 90; the lead, emitted
    by the earlier adapter, stays in front. *)
Example equal_scores_keep_adapter_order :
  map (fun r => (id r, type r, priorityScore r))
    (skipn 9 (sorted_of Sample.leadsStore Sample.member "leads"
                (Sample.requestLimit "leads" 20)))
  = [("j", "lead", 91); ("k", "lead", 90); ("leads", "navigation", 90)].
Proof. reflexivity. Qed.

(** C4.  A request whose query is missing, empty or one character long is
    answered with status 200, empty [results] and empty [categories],
    whatever its filters and limit; nothing is sent to the store (no adapter
    runs, no history row is written). *)
Theorem short_query_short_circuits sb we recent user p req :
  (query req = None
   \/ exists q, query req = Some q /\ (String.length q < 2)%nat) ->
  let o := aggregate sb we recent user p req in
  status (response o) = 200
  /\ body (response o) = BSearch emptyResponse
  /\ results (payload o) = []
  /\ categories (payload o) = []
  /\ store_calls o = []
  /\ recent_after o = recent.
Proof.
  intros H o. subst o. rewrite (aggregate_short _ _ _ _ _ _ H).
  repeat split.
Qed.

Lemma short_query_short_circuits_witness :
  (query (mkRequest (Some "j") (Some ["leads"; "users"]) (Some 5)) = None
   \/ exists q,
        query (mkRequest (Some "j") (Some ["leads"; "users"]) (Some 5)) = Some q
        /\ (String.length q < 2)%nat)
  /\ store_calls
       (aggregate Sample.johnStore None RecentSearches.empty Sample.caller
          Sample.admin (mkRequest (Some "j") (Some ["leads"; "users"]) (Some 5)))
     = [].
Proof.
  assert (H : query (mkRequest (Some "j") (Some ["leads"; "users"]) (Some 5)) = None
              \/ exists q,
                   query (mkRequest (Some "j") (Some ["leads"; "users"]) (Some 5))
                   = Some q /\ (String.length q < 2)%nat).
  { right. exists "j". split; [reflexivity | cbn; lia]. }
  split; [exact H|].
  apply (short_query_short_circuits Sample.johnStore None RecentSearches.empty
           Sample.caller Sample.admin
           (mkRequest (Some "j") (Some ["leads"; "users"]) (Some 5)) H).
Defined.

(** ** Result types *)

Lemma mapi_types {A} (tag : string) (f : A -> nat -> SearchResult) (l : list A) :
  (forall x i, type (f x i) = tag) ->
  Forall (fun r => type r = tag) (JS.mapi f l).
Proof. intro H. now apply mapi_Forall. Qed.

Lemma leads_type sb p q req :
  Forall (fun r => type r = "lead") (leadsResults sb p q req).
Proof.
  unfold leadsResults, searchLeads.
  destruct (excluded _ _); cbn [fst]; [constructor|].
  destruct (error _); [constructor | now apply mapi_types].
Qed.

Lemma agents_type sb p q req :
  Forall (fun r => type r = "agent") (agentsResults sb p q req).
Proof.
  unfold agentsResults, searchAgents.
  destruct (excluded _ _); cbn [fst]; [constructor|].
  destruct (error _); [constructor | now apply mapi_types].
Qed.

Lemma calls_type sb p q req :
  Forall (fun r => type r = "call") (callsResults sb p q req).
Proof.
  unfold callsResults, searchCalls.
  destruct (excluded _ _); cbn [fst]; [constructor|].
  destruct (error _); [constructor | now apply mapi_types].
Qed.

Lemma settings_type q req :
  Forall (fun r => type r = "setting") (settingsResults q req).
Proof.
  unfold settingsResults, searchSettings.
  destruct (excluded _ _); [constructor | now apply mapi_types].
Qed.

Lemma navigation_type q :
  Forall (fun r => type r = "navigation") (navigationResults q).
Proof. unfold navigationResults, searchNavigation. now apply mapi_types. Qed.

(** A result of type ['user'] can only come from the staff-account adapter. *)
Lemma user_results_from_users sb p q req r :
  In r (results_of sb p q req) -> type r = "user" ->
  In r (usersResults sb p q req).
Proof.
  unfold results_of. rewrite !in_app_iff.
  intros [H | [H | [H | [H | [H | H]]]]] Ht; [| exact H | | | |].
  - pose proof (leads_type sb p q req) as F. rewrite Forall_forall in F.
    apply F in H. congruence.
  - pose proof (agents_type sb p q req) as F. rewrite Forall_forall in F.
    apply F in H. congruence.
  - pose proof (calls_type sb p q req) as F. rewrite Forall_forall in F.
    apply F in H. congruence.
  - pose proof (settings_type q req) as F. rewrite Forall_forall in F.
    apply F in H. congruence.
  - pose proof (navigation_type q) as F. rewrite Forall_forall in F.
    apply F in H. congruence.
Qed.

Lemma not_admin (p : UserProfile) :
  role p <> "admin" -> isAdmin_of p = false.
Proof. intro H. unfold isAdmin_of. now apply String.eqb_neq. Qed.

Lemma users_empty_for_non_admin sb p q req :
  role p <> "admin" -> usersResults sb p q req = [].
Proof.
  intro H. unfold usersResults, searchUsers. rewrite (not_admin _ H).
  now destruct (excluded _ _).
Qed.

(** C6.  For a caller whose role is not ['admin'] the staff-account adapter
    returns the empty sequence without querying the store, the response is
    a success, and neither [results] nor [categories] holds a result of type
    ['user'].  For an ['admin'] caller whose filters admit ['users'], every
    staff account the store returns for the adapter's query appears in the
    ['user'] bucket of [categories]. *)
Theorem staff_accounts_only_for_admin sb we recent user p req :
  let o := aggregate sb we recent user p req in
  (role p <> "admin" ->
     (forall q,
        searchUsers sb (filters_of req) (limit_of req) (searchPattern_of q)
          (company_id p) (isAdmin_of p) = ([], []))
     /\ status (response o) = 200
     /\ (forall r, In r (results (payload o)) -> type r <> "user")
     /\ (forall r, In r (Palette.flatResults (categories (payload o))) ->
                   type r <> "user"))
  /\ (role p = "admin" ->
      forall q rows u,
        query req = Some q -> (2 <= String.length q)%nat ->
        excluded (filters_of req) "users" = false ->
        from_users sb (company_id p) (searchPattern_of q) (searchPattern_of q)
          (limit_of req) = mkPg (Some rows) None ->
        In u rows ->
        exists r, In r (bucket "user" (categories (payload o)))
                  /\ id r = user_id u /\ type r = "user"
                  /\ title r = JS.or_lit (user_name u) "Unknown User").
Proof.
  intro o. subst o. split.
  - intro Hrole. split.
    { intro q. unfold searchUsers. rewrite (not_admin _ Hrole).
      now destruct (excluded _ _). }
    destruct (query_cases req) as [Hshort | (q & Hq & Hlen)].
    + rewrite (aggregate_short _ _ _ _ _ _ Hshort). cbn. tauto.
    + rewrite (aggregate_search _ _ _ _ _ _ _ Hq Hlen). unfold payload, json.
      cbn [response body results categories status].
      assert (Hno : forall r, In r (sorted_of sb p q req) -> type r <> "user").
      { intros r Hr Ht. unfold sorted_of in Hr. apply sort_desc_In in Hr.
        apply (user_results_from_users _ _ _ _ _ Hr) in Ht.
        now rewrite (users_empty_for_non_admin _ _ _ _ Hrole) in Ht. }
      split; [reflexivity|]. split.
      * intros r Hr. apply Hno. eapply slice0_incl, Hr.
      * intros r Hr. apply Hno. now apply flat_build.
  - intros Hrole q rows u Hq Hlen Hex Hrows Hu.
    rewrite (aggregate_search _ _ _ _ _ _ _ Hq Hlen). unfold payload, json.
    cbn [response body categories].
    apply In_nth_error in Hu. destruct Hu as [i Hi].
    exists (userResult u i). repeat split.
    rewrite bucket_build. apply filter_In. split; [|reflexivity].
    unfold sorted_of. apply sort_desc_In. unfold results_of.
    rewrite !in_app_iff. right. left.
    unfold usersResults, searchUsers. rewrite Hex.
    unfold isAdmin_of. rewrite Hrole, String.eqb_refl.
    cbn [negb fst]. rewrite Hrows. unfold rows_or_empty. cbn [error data fst].
    apply nth_error_In with (n := i). now rewrite mapi_nth, Hi.
Qed.

Lemma staff_accounts_only_for_admin_witness :
  (role Sample.member <> "admin"
   /\ forall r,
        In r (Palette.flatResults (categories (payload
               (aggregate Sample.johnStore None RecentSearches.empty
                  Sample.caller Sample.member (Sample.request "john"))))) ->
        type r <> "user")
  /\ (role Sample.admin = "admin"
      /\ exists r,
           In r (bucket "user" (categories (payload
                  (aggregate Sample.johnStore None RecentSearches.empty
                     Sample.caller Sample.admin (Sample.request "john")))))
           /\ id r = "u-2" /\ type r = "user" /\ title r = "John Doe").
Proof.
  split.
  - assert (H : role Sample.member <> "admin") by discriminate.
    split; [exact H|].
    apply (proj1 (staff_accounts_only_for_admin Sample.johnStore None
                    RecentSearches.empty Sample.caller Sample.member
                    (Sample.request "john")) H).
  - split; [reflexivity|].
    apply (proj2 (staff_accounts_only_for_admin Sample.johnStore None
                    RecentSearches.empty Sample.caller Sample.admin
                    (Sample.request "john")) eq_refl "john" [Sample.johnDoe]
             Sample.johnDoe eq_refl);
      [cbn; lia | reflexivity | reflexivity | now left].
Defined.

(** ** The history write *)

(** C7.  Whether the recent-searches write fails or not, the handler sends
    the same response: for a query of at least two characters a success
    carrying the computed [results], [categories], [totalCount] and
    [intents].  The write is keyed by the caller and the trimmed query, is
    attempted once (the last request sent, none after it), and a failed
    write leaves the table as it was. *)
Theorem history_write_failure_ignored sb recent user p req (e : string) :
  let ok := aggregate sb None recent user p req in
  let failed := aggregate sb (Some e) recent user p req in
  response failed = response ok
  /\ status (response failed) = 200
  /\ store_calls failed = store_calls ok
  /\ recent_after failed = recent
  /\ (forall q, query req = Some q -> (2 <= String.length q)%nat ->
        payload failed
        = mkResponse (JS.slice0 (sorted_of sb p q req) (limit_of req))
            (build_categories (sorted_of sb p q req))
            (Some (Z.of_nat (List.length (sorted_of sb p q req))))
            (Some q) (Some (detectQueryIntent q))
        /\ filter is_history_write (store_calls failed)
           = [UpsertRecentSearch (auth_user_id user) (JS.trim q) (now sb)]
        /\ recent_after ok
           = RecentSearches.upsert recent (auth_user_id user) (JS.trim q)
               (now sb)).
Proof.
  intros ok failed. subst ok failed.
  destruct (query_cases req) as [Hshort | (q & Hq & Hlen)].
  - rewrite !(aggregate_short _ _ _ _ _ _ Hshort). cbn.
    do 4 (split; [reflexivity|]).
    intros q Hq Hlen. exfalso.
    destruct Hshort as [Hn | (q' & Hq' & Hlt)];
      [congruence | assert (q' = q) by congruence; subst; lia].
  - rewrite !(aggregate_search _ _ _ _ _ _ _ Hq Hlen). unfold payload, json.
    cbn [response body status store_calls recent_after recordSearch].
    do 4 (split; [reflexivity|]).
    intros q' Hq' _. assert (q' = q) by congruence. subst q'.
    split; [reflexivity|]. split; [|reflexivity].
    rewrite filter_app. cbn [filter is_history_write].
    replace (filter is_history_write (adapterCalls _ _ _ _ _ _ _)) with
      (@nil StoreCall); [reflexivity|].
    unfold adapterCalls, searchLeads, searchUsers, searchAgents, searchCalls.
    destruct (excluded (filters_of req) "leads"),
      (excluded (filters_of req) "users"),
      (excluded (filters_of req) "agents"),
      (excluded (filters_of req) "calls"),
      (negb (isAdmin_of p)); reflexivity.
Qed.

Lemma history_write_failure_ignored_witness :
  query (Sample.request "john") = Some "john"
  /\ (2 <= String.length "john")%nat
  /\ response (aggregate Sample.johnStore (Some "connection refused")
                 RecentSearches.empty Sample.caller Sample.admin
                 (Sample.request "john"))
     = response (aggregate Sample.johnStore None RecentSearches.empty
                   Sample.caller Sample.admin (Sample.request "john"))
  /\ filter is_history_write
       (store_calls (aggregate Sample.johnStore (Some "connection refused")
                       RecentSearches.empty Sample.caller Sample.admin
                       (Sample.request "john")))
     = [UpsertRecentSearch "u-1" "john" 1700000000000].
Proof.
  split; [reflexivity|]. split; [cbn; lia|].
  pose proof (history_write_failure_ignored Sample.johnStore
                RecentSearches.empty Sample.caller Sample.admin
                (Sample.request "john") "connection refused") as H.
  cbv zeta in H. destruct H as (Hresp & _ & _ & _ & Hq).
  split; [exact Hresp|].
  destruct (Hq "john" eq_refl) as (_ & Hw & _); [cbn; lia | exact Hw].
Defined.

(** ** The pattern sent to the store *)

Lemma adapterCalls_patterns sb f l i pat c a call x :
  In call (adapterCalls sb f l i pat c a) -> In x (ilike_patterns call) ->
  x = pat.
Proof.
  unfold adapterCalls, searchLeads, searchUsers, searchAgents, searchCalls,
    leadFilter.
  rewrite !in_app_iff.
  destruct (excluded f "leads"), (excluded f "users"), (excluded f "agents"),
    (excluded f "calls"), (negb a), (JS.arr_includes i "email"),
    (JS.arr_includes i "phone"); cbn [snd In ilike_patterns];
    intros H Hx;
    repeat match goal with
           | H : _ \/ _ |- _ => destruct H
           | H : False |- _ => contradiction
           | H : _ = call |- _ => subst call; cbn in Hx
           end;
    intuition congruence.
Qed.

(** C8, counterexample.  For the query [R&D] the agent adapter sends the
    pattern [%r&d%], the lower-cased raw query, and not [%r d%], which the
    sanitized query would give. *)
Lemma pattern_is_sanitized_counterexample :
  In (SelectAgents "acme" "%r&d%" 10)
     (store_calls (aggregate Sample.emptyStore None RecentSearches.empty
                     Sample.caller Sample.member (Sample.request "R&D")))
  /\ "%" ++ JS.toLowerCase (escapeSearchQuery "R&D") ++ "%" = "%r d%"
  /\ "%r&d%" <> "%" ++ JS.toLowerCase (escapeSearchQuery "R&D") ++ "%".
Proof.
  split; [cbn; tauto|]. split; [reflexivity | discriminate].
Qed.

(** C8, amended.  Every [ILIKE] pattern the handler sends to the store is
    the lower-cased raw query between two percent signs: the query is
    neither sanitized nor trimmed on this path. *)
Theorem pattern_is_lowercased_query sb we recent user p q f l call pat :
  In call (store_calls (aggregate sb we recent user p (mkRequest (Some q) f l))) ->
  In pat (ilike_patterns call) ->
  pat = "%" ++ JS.toLowerCase q ++ "%".
Proof.
  intros Hc Hp. unfold aggregate in Hc. cbn [query] in Hc.
  destruct (String.length q <? 2)%nat; cbn [store_calls] in Hc; [contradiction|].
  apply in_app_iff in Hc. destruct Hc as [Hc | [<- | []]].
  - exact (adapterCalls_patterns _ _ _ _ _ _ _ _ _ Hc Hp).
  - contradiction.
Qed.

Lemma pattern_is_lowercased_query_witness :
  In (SelectAgents "acme" "%r&d%" 10)
     (store_calls (aggregate Sample.emptyStore None RecentSearches.empty
                     Sample.caller Sample.member (mkRequest (Some "R&D") None None)))
  /\ In "%r&d%" (ilike_patterns (SelectAgents "acme" "%r&d%" 10))
  /\ "%r&d%" = "%" ++ JS.toLowerCase "R&D" ++ "%".
Proof.
  assert (H1 : In (SelectAgents "acme" "%r&d%" 10)
                 (store_calls (aggregate Sample.emptyStore None
                                 RecentSearches.empty Sample.caller
                                 Sample.member (mkRequest (Some "R&D") None None))))
    by (cbn; tauto).
  assert (H2 : In "%r&d%" (ilike_patterns (SelectAgents "acme" "%r&d%" 10)))
    by (cbn; tauto).
  split; [exact H1|]. split; [exact H2|].
  exact (pattern_is_lowercased_query Sample.emptyStore None RecentSearches.empty
           Sample.caller Sample.member "R&D" None None _ _ H1 H2).
Defined.

(** ** Limit and missing query *)

(** C9, counterexample.  With the limit [-1] the query [settings] is
    answered with three results, with the default limit with four: the
    negative limit was not replaced by [10].  And a request without a
    query field is answered with status 200, not with a client error. *)
Lemma malformed_input_counterexample :
  map id (results (payload
            (aggregate Sample.emptyStore None RecentSearches.empty
               Sample.caller Sample.member
               (Sample.requestLimit "settings" (-1)))))
  = ["settings"; "profile"; "notifications"]
  /\ map id (results (payload
               (aggregate Sample.emptyStore None RecentSearches.empty
                  Sample.caller Sample.member
                  (Sample.requestLimit "settings" 10))))
     = ["settings"; "profile"; "notifications"; "company"]
  /\ results (payload
                (aggregate Sample.emptyStore None RecentSearches.empty
                   Sample.caller Sample.member
                   (Sample.requestLimit "settings" (-1))))
     <> results (payload
                   (aggregate Sample.emptyStore None RecentSearches.empty
                      Sample.caller Sample.member
                      (Sample.requestLimit "settings" 10)))
  /\ status (response
               (aggregate Sample.emptyStore None RecentSearches.empty
                  Sample.caller Sample.member (mkRequest None None None)))
     = 200.
Proof.
  split; [reflexivity|]. split; [reflexivity|]. split; [|reflexivity].
  intro H. apply (f_equal (@List.length SearchResult)) in H.
  vm_compute in H. discriminate.
Qed.

Lemma adapterCalls_limit sb f l i pat c a call :
  In call (adapterCalls sb f l i pat c a) -> call_limit call = Some l.
Proof.
  unfold adapterCalls, searchLeads, searchUsers, searchAgents, searchCalls.
  rewrite !in_app_iff.
  destruct (excluded f "leads"), (excluded f "users"), (excluded f "agents"),
    (excluded f "calls"), (negb a); cbn [snd In];
    intros H;
    repeat match goal with
           | H : _ \/ _ |- _ => destruct H
           | H : False |- _ => contradiction
           | H : _ = call |- _ => subst call
           end;
    reflexivity.
Qed.

(** C9, amended.  An absent limit behaves as the limit 10.  A negative
    limit is not normalized: for a query of at least two characters it is
    handed as it is to the adapters' store queries, the response is a
    success, and [results] is the sorted sequence without its last [-limit]
    entries.  A request without a query field is answered like one with an
    empty query: status 200, empty [results] and [categories]. *)
Theorem limit_default_and_missing_query sb we recent user p :
  (forall qo f,
     aggregate sb we recent user p (mkRequest qo f None)
     = aggregate sb we recent user p (mkRequest qo f (Some 10)))
  /\ (forall q f l,
        (2 <= String.length q)%nat -> l < 0 ->
        let req := mkRequest (Some q) f (Some l) in
        let o := aggregate sb we recent user p req in
        status (response o) = 200
        /\ results (payload o)
           = firstn (List.length (sorted_of sb p q req) - Z.to_nat (- l))
               (sorted_of sb p q req)
        /\ totalCount (payload o)
           = Some (Z.of_nat (List.length (sorted_of sb p q req)))
        /\ (forall call, In call (store_calls o) ->
                         is_history_write call = false ->
                         call_limit call = Some l))
  /\ (forall f l,
        let o := aggregate sb we recent user p (mkRequest None f l) in
        status (response o) = 200
        /\ body (response o) = BSearch emptyResponse
        /\ o = aggregate sb we recent user p (mkRequest (Some "") f l)).
Proof.
  split; [reflexivity|]. split; [|intros; repeat split].
  intros q f l Hlen Hl req o. subst o.
  rewrite (aggregate_search _ _ _ _ _ req q eq_refl Hlen). unfold payload, json.
  cbn [response body status results totalCount store_calls].
  split; [reflexivity|]. split; [|split; [reflexivity|]].
  - apply slice0_negative. exact Hl.
  - intros call Hc Hw. apply in_app_iff in Hc. destruct Hc as [Hc | [<- | []]].
    + exact (adapterCalls_limit _ _ _ _ _ _ _ _ Hc).
    + discriminate.
Qed.

Lemma limit_default_and_missing_query_witness :
  (2 <= String.length "settings")%nat /\ -1 < 0
  /\ List.length
       (results (payload
          (aggregate Sample.emptyStore None RecentSearches.empty Sample.caller
             Sample.member (mkRequest (Some "settings") None (Some (-1))))))
     = 3%nat.
Proof.
  assert (H1 : (2 <= String.length "settings")%nat) by (cbn; lia).
  assert (H2 : -1 < 0) by lia.
  split; [exact H1|]. split; [exact H2|].
  pose proof (proj1 (proj2 (limit_default_and_missing_query Sample.emptyStore
                None RecentSearches.empty Sample.caller Sample.member))
               "settings" None (-1) H1 H2) as H.
  cbv zeta in H. destruct H as (_ & Hr & _).
  rewrite Hr. reflexivity.
Defined.

(** ** Rows of the palette *)

Lemma findIndex_from_found {A} (f : A -> bool) (l : list A) (i : Z) (x : A) :
  In x l -> f x = true ->
  i <= JS.findIndex_from f i l < i + Z.of_nat (List.length l).
Proof.
  revert i. induction l as [|y l IH]; intros i Hin Hx; [contradiction|].
  cbn [JS.findIndex_from List.length]. destruct (f y) eqn:Ey; [lia|].
  destruct Hin as [-> | Hin]; [congruence|].
  specialize (IH (i + 1) Hin Hx). lia.
Qed.

(** [findIndex] returns the first index whose element satisfies the
    predicate. *)
Lemma findIndex_from_first {A} (f : A -> bool) (l : list A) : forall (i : Z) x,
  In x l -> f x = true ->
  exists n y,
    JS.findIndex_from f i l = i + Z.of_nat n
    /\ nth_error l n = Some y /\ f y = true
    /\ forall m z, (m < n)%nat -> nth_error l m = Some z -> f z = false.
Proof.
  induction l as [|a l IH]; intros i x Hin Hx; [contradiction|].
  cbn [JS.findIndex_from]. destruct (f a) eqn:Ea.
  - exists 0%nat, a. split; [cbn; lia|]. split; [reflexivity|].
    split; [exact Ea|]. intros m z Hm. lia.
  - destruct Hin as [-> | Hin]; [congruence|].
    destruct (IH (i + 1) x Hin Hx) as (n & y & Hi & Hn & Hy & Hfirst).
    exists (S n), y. split; [rewrite Hi; lia|]. split; [exact Hn|].
    split; [exact Hy|]. intros m z Hm Hz. destruct m as [|m].
    + cbn in Hz. inversion Hz; subst. exact Ea.
    + cbn in Hz. apply (Hfirst m z); [lia | exact Hz].
Qed.

Lemma settings_integrations req :
  filters_of req = [] ->
  settingsResults "integrations" req = [Sample.integrationsSetting].
Proof. unfold settingsResults. intros ->. reflexivity. Qed.

Lemma navigation_integrations :
  navigationResults "integrations" = [Sample.integrationsPage].
Proof. reflexivity. Qed.

(** C10.  For the query [integrations] without type filters the settings
    catalogue and the navigation catalogue each emit one result whose id is
    [integrations], of type ['setting'] and ['navigation']; both are rendered
    (each in its bucket of [categories]), they are different results, and
    the index the palette computes for a row is the same valid index for
    both: the first index in the flattened list whose row has the id
    [integrations].  So one of the two rows stands at a later position
    than its index, and is not shown as selected when the selection is at
    its position. *)
Theorem integrations_rows_share_index sb we recent user p req :
  query req = Some "integrations" -> filters_of req = [] ->
  let o := aggregate sb we recent user p req in
  let flat := Palette.flatResults (categories (payload o)) in
  settingsResults "integrations" req = [Sample.integrationsSetting]
  /\ navigationResults "integrations" = [Sample.integrationsPage]
  /\ id Sample.integrationsSetting = "integrations"
  /\ id Sample.integrationsPage = "integrations"
  /\ type Sample.integrationsSetting = "setting"
  /\ type Sample.integrationsPage = "navigation"
  /\ Sample.integrationsSetting <> Sample.integrationsPage
  /\ In Sample.integrationsSetting (bucket "setting" (categories (payload o)))
  /\ In Sample.integrationsPage (bucket "navigation" (categories (payload o)))
  /\ Palette.globalIndex flat Sample.integrationsSetting
     = Palette.globalIndex flat Sample.integrationsPage
  /\ 0 <= Palette.globalIndex flat Sample.integrationsPage
     < Z.of_nat (List.length flat)
  /\ (forall selectedIndex,
        Palette.isSelected flat selectedIndex Sample.integrationsSetting
        = Palette.isSelected flat selectedIndex Sample.integrationsPage)
  /\ (exists n first,
        Palette.globalIndex flat Sample.integrationsPage = Z.of_nat n
        /\ nth_error flat n = Some first
        /\ id first = "integrations"
        /\ forall m r, (m < n)%nat -> nth_error flat m = Some r ->
                       id r <> "integrations")
  /\ (exists j row,
        (row = Sample.integrationsSetting \/ row = Sample.integrationsPage)
        /\ nth_error flat j = Some row
        /\ Palette.globalIndex flat row < Z.of_nat j
        /\ Palette.isSelected flat (Z.of_nat j) row = false).
Proof.
  intros Hq Hf o flat. subst flat o.
  assert (Hlen : (2 <= String.length "integrations")%nat) by (cbn; lia).
  rewrite (aggregate_search _ _ _ _ _ _ _ Hq Hlen). unfold payload, json.
  cbn [response body categories].
  assert (Hs : In Sample.integrationsSetting
                 (sorted_of sb p "integrations" req)).
  { unfold sorted_of. apply sort_desc_In. unfold results_of.
    rewrite (settings_integrations _ Hf), !in_app_iff. cbn. tauto. }
  assert (Hn : In Sample.integrationsPage (sorted_of sb p "integrations" req)).
  { unfold sorted_of. apply sort_desc_In. unfold results_of.
    rewrite navigation_integrations, !in_app_iff. cbn. tauto. }
  split; [exact (settings_integrations _ Hf)|].
  do 5 (split; [reflexivity|]).
  split; [discriminate|].
  split; [rewrite bucket_build; apply filter_In; now split|].
  split; [rewrite bucket_build; apply filter_In; now split|].
  split; [reflexivity|].
  split; [unfold Palette.globalIndex, JS.findIndex;
          apply (findIndex_from_found _ _ 0 Sample.integrationsPage);
          [now apply flat_build | reflexivity]|].
  split; [reflexivity|].
  set (flat := Palette.flatResults
                 (build_categories (sorted_of sb p "integrations" req))).
  assert (Hpage : In Sample.integrationsPage flat)
    by (now apply flat_build).
  assert (Hsetting : In Sample.integrationsSetting flat)
    by (now apply flat_build).
  destruct (findIndex_from_first
              (fun r => String.eqb (id r) "integrations") flat 0
              Sample.integrationsPage Hpage eq_refl)
    as (n & first & Hidx & Hnth & Hid & Hfirst).
  assert (Hg : forall row,
            row = Sample.integrationsSetting \/ row = Sample.integrationsPage ->
            Palette.globalIndex flat row = Z.of_nat n).
  { intros row [-> | ->]; unfold Palette.globalIndex, JS.findIndex;
      cbn [id Sample.integrationsSetting Sample.integrationsPage];
      rewrite Hidx; lia. }
  split.
  { exists n, first. split; [apply Hg; now right|]. split; [exact Hnth|].
    split; [now apply String.eqb_eq|].
    intros m r Hm Hr E. apply String.eqb_eq in E.
    rewrite (Hfirst m r Hm Hr) in E. discriminate. }
  apply In_nth_error in Hpage, Hsetting.
  destruct Hpage as [a Ha]. destruct Hsetting as [b Hb].
  assert (Hna : (n <= a)%nat).
  { destruct (Nat.le_gt_cases n a) as [H | H]; [exact H|].
    pose proof (Hfirst a _ H Ha) as E. discriminate E. }
  assert (Hnb : (n <= b)%nat).
  { destruct (Nat.le_gt_cases n b) as [H | H]; [exact H|].
    pose proof (Hfirst b _ H Hb) as E. discriminate E. }
  assert (Hab : a <> b).
  { intros ->. rewrite Ha in Hb. inversion Hb. }
  destruct (Nat.eq_dec n b) as [Heq | Hne].
  - exists a, Sample.integrationsPage. split; [now right|].
    split; [exact Ha|]. unfold Palette.isSelected.
    rewrite (Hg _ (or_intror eq_refl)).
    split; [lia | apply Z.eqb_neq; lia].
  - exists b, Sample.integrationsSetting. split; [now left|].
    split; [exact Hb|]. unfold Palette.isSelected.
    rewrite (Hg _ (or_introl eq_refl)).
    split; [lia | apply Z.eqb_neq; lia].
Qed.

Lemma integrations_rows_share_index_witness :
  query (Sample.request "integrations") = Some "integrations"
  /\ filters_of (Sample.request "integrations") = []
  /\ Palette.globalIndex
       (Palette.flatResults (categories (payload
          (aggregate Sample.emptyStore None RecentSearches.empty Sample.caller
             Sample.member (Sample.request "integrations")))))
       Sample.integrationsSetting
     = Palette.globalIndex
         (Palette.flatResults (categories (payload
            (aggregate Sample.emptyStore None RecentSearches.empty
               Sample.caller Sample.member (Sample.request "integrations")))))
         Sample.integrationsPage.
Proof.
  split; [reflexivity|]. split; [reflexivity|].
  apply (integrations_rows_share_index Sample.emptyStore None
           RecentSearches.empty Sample.caller Sample.member
           (Sample.request "integrations") eq_refl eq_refl).
Defined.

(** With no other match the flattened list is the page row followed by the
    settings row; both rows carry index 0, so the settings row, at position
    1, is not the selected one when the selection is at 1. *)
Example integrations_rows_rendered :
  let flat :=
    Palette.flatResults (categories (payload
      (aggregate Sample.emptyStore None RecentSearches.empty Sample.caller
         Sample.member (Sample.request "integrations")))) in
  flat = [Sample.integrationsPage; Sample.integrationsSetting]
  /\ Palette.globalIndex flat Sample.integrationsPage = 0
  /\ Palette.globalIndex flat Sample.integrationsSetting = 0
  /\ Palette.isSelected flat 1 Sample.integrationsSetting = false.
Proof. repeat split. Qed.

(** ** The recent-searches table *)

Section RecentSearchesFacts.
Import RecentSearches.

Lemma NoDup_map_filter {A B} (f : A -> B) (k : A -> bool) (l : list A) :
  NoDup (map f l) -> NoDup (map f (filter k l)).
Proof.
  induction l as [|x l IH]; cbn; [auto|].
  intro H. inversion H as [|? ? Hx Hl]; subst.
  destruct (k x); cbn; [|auto].
  constructor; [|auto].
  intro Hin. apply Hx. apply in_map_iff in Hin.
  destruct Hin as (y & Hy & Hin). apply filter_In in Hin.
  apply in_map_iff. exists y. tauto.
Qed.

Lemma NoDup_map_inj {A B} (f : A -> B) (l : list A) (a b : A) :
  NoDup (map f l) -> In a l -> In b l -> f a = f b -> a = b.
Proof.
  induction l as [|x l IH]; cbn; [tauto|].
  intro H. inversion H as [|? ? Hx Hl]; subst.
  intros [-> | Ha] [-> | Hb] E; auto.
  - exfalso. apply Hx. rewrite E. now apply in_map.
  - exfalso. apply Hx. rewrite <- E. now apply in_map.
Qed.

Lemma touch_id u q ts r : rs_id (touch u q ts r) = rs_id r.
Proof. unfold touch. now destruct (same_key u q r). Qed.

Lemma same_key_spec u q r :
  same_key u q r = true <-> rs_user_id r = u /\ rs_query r = q.
Proof.
  unfold same_key. now rewrite andb_true_iff, !String.eqb_eq.
Qed.

Lemma touch_key u q ts r :
  (rs_user_id (touch u q ts r), rs_query (touch u q ts r))
  = (rs_user_id r, rs_query r).
Proof.
  unfold touch. destruct (same_key u q r) eqn:E; [|reflexivity].
  apply same_key_spec in E. destruct E as [<- <-]. reflexivity.
Qed.

Lemma touch_user u q ts v r : of_user v (touch u q ts r) = of_user v r.
Proof.
  unfold of_user. pose proof (touch_key u q ts r) as H.
  now inversion H as [[H1 H2]]; rewrite H1.
Qed.

Lemma no_row_with_key u q rs :
  existsb (same_key u q) rs = false <-> ~ In (u, q) (keys rs).
Proof.
  unfold keys. split.
  - intros H Hin. apply in_map_iff in Hin. destruct Hin as (r & Hr & Hin).
    assert (existsb (same_key u q) rs = true); [|congruence].
    apply existsb_exists. exists r. split; [exact Hin|].
    apply same_key_spec. now inversion Hr.
  - intro H. destruct (existsb (same_key u q) rs) eqn:E; [|reflexivity].
    exfalso. apply H. apply existsb_exists in E. destruct E as (r & Hin & Hk).
    apply same_key_spec in Hk. destruct Hk as [<- <-].
    apply in_map_iff. now exists r.
Qed.

(** The constraints of the table survive every upsert. *)
Lemma wf_upsert t u q ts : wf t -> wf (upsert t u q ts).
Proof.
  intros [Hids Hfresh Huniq]. unfold upsert.
  destruct (existsb (same_key u q) (rows t)) eqn:E.
  - constructor; cbn [rows next_id].
    + rewrite map_map.
      rewrite (map_ext _ rs_id) by (intro; apply touch_id). exact Hids.
    + apply Forall_map. eapply Forall_impl; [|exact Hfresh].
      intros r Hr. now rewrite touch_id.
    + unfold keys. rewrite map_map.
      rewrite (map_ext _ (fun r => (rs_user_id r, rs_query r)))
        by (intro; apply touch_key).
      exact Huniq.
  - constructor; cbn [rows next_id]; unfold limit_recent_searches.
    + apply NoDup_map_filter. rewrite map_app. cbn.
      apply NoDup_app; [exact Hids | repeat constructor; cbn; tauto |].
      intros i Hi [<- | []]. apply in_map_iff in Hi.
      destruct Hi as (r & Hr & Hin). rewrite Forall_forall in Hfresh.
      specialize (Hfresh r Hin). lia.
    + apply Forall_forall. intros r Hr. apply filter_In in Hr.
      destruct Hr as [Hr _]. apply in_app_iff in Hr.
      destruct Hr as [Hr | [<- | []]]; [|cbn; lia].
      rewrite Forall_forall in Hfresh. specialize (Hfresh r Hr). lia.
    + apply NoDup_map_filter. rewrite map_app. cbn.
      apply NoDup_app; [exact Huniq | repeat constructor; cbn; tauto |].
      intros k Hk [<- | []]. now apply no_row_with_key in E.
Qed.
Lemma existing_row_touched t u q ts :
  existsb (same_key u q) (rows t) = true ->
  rows (upsert t u q ts) = map (touch u q ts) (rows t)
  /\ next_id (upsert t u q ts) = next_id t.
Proof. intro E. unfold upsert. now rewrite E. Qed.

Lemma new_row_inserted t u q ts :
  existsb (same_key u q) (rows t) = false ->
  rows (upsert t u q ts)
  = limit_recent_searches u (rows t ++ [mkRow (next_id t) u q ts]).
Proof. intro E. unfold upsert. now rewrite E. Qed.

(** The trigger leaves the rows of other users alone. *)
Lemma limit_other_user u v rs :
  v <> u -> filter (of_user v) (limit_recent_searches u rs) = filter (of_user v) rs.
Proof.
  intro Hv. unfold limit_recent_searches.
  generalize (newest_ids u rs) as keep. intro keep.
  induction rs as [|r rs IH]; [reflexivity|].
  cbn [filter]. destruct (of_user u r) eqn:Eu.
  - assert (of_user v r = false) as Ev.
    { unfold of_user in *. apply String.eqb_eq in Eu. apply String.eqb_neq.
      congruence. }
    destruct (negb (true && negb (existsb (Nat.eqb (rs_id r)) keep)));
      cbn [filter]; now rewrite Ev.
  - cbn [andb negb filter]. now rewrite IH.
Qed.

(** Of the rows of [u] the trigger keeps those whose id is selected. *)
Lemma limit_same_user u rs :
  filter (of_user u) (limit_recent_searches u rs)
  = filter (fun r => existsb (Nat.eqb (rs_id r)) (newest_ids u rs))
      (filter (of_user u) rs).
Proof.
  unfold limit_recent_searches.
  generalize (newest_ids u rs) as keep. intro keep.
  induction rs as [|r rs IH]; [reflexivity|].
  cbn [filter]. destruct (of_user u r) eqn:Eu; cbn [andb negb filter].
  - destruct (existsb (Nat.eqb (rs_id r)) keep); cbn [negb filter].
    + now rewrite Eu, IH.
    + exact IH.
  - now rewrite Eu.
Qed.

Lemma mem_id_spec (i : nat) (ids : list nat) :
  existsb (Nat.eqb i) ids = true <-> In i ids.
Proof.
  rewrite existsb_exists. split.
  - intros (j & Hj & E). apply Nat.eqb_eq in E. now subst.
  - intro H. exists i. split; [exact H | apply Nat.eqb_refl].
Qed.

Lemma sorted_firstn_skipn {A} (R : A -> A -> Prop) (n : nat) (l : list A) a b :
  StronglySorted R l -> In a (firstn n l) -> In b (skipn n l) -> R a b.
Proof.
  intro H. revert n. induction H as [|x l Hs IH Hx]; intros n Ha Hb.
  - destruct n; contradiction.
  - destruct n; [contradiction|]. cbn in Ha, Hb.
    destruct Ha as [<- | Ha].
    + rewrite Forall_forall in Hx. apply Hx.
      rewrite <- (firstn_skipn n l). apply in_or_app. now right.
    + eapply IH; eassumption.
Qed.

(** After the trigger the caller has at most ten rows. *)
Lemma limit_at_most_ten u rs :
  NoDup (map rs_id rs) ->
  (List.length (filter (of_user u) (limit_recent_searches u rs)) <= 10)%nat.
Proof.
  intro Hids. rewrite limit_same_user.
  set (kept := filter _ (filter (of_user u) rs)).
  assert (Hnd : NoDup (map rs_id kept)).
  { unfold kept. now do 2 apply NoDup_map_filter. }
  assert (Hincl : incl (map rs_id kept) (newest_ids u rs)).
  { intros i Hi. apply in_map_iff in Hi. destruct Hi as (r & <- & Hr).
    unfold kept in Hr. apply filter_In in Hr. now apply mem_id_spec. }
  pose proof (NoDup_incl_length Hnd Hincl) as Hlen.
  rewrite length_map in Hlen. unfold newest_ids in Hlen.
  rewrite length_map in Hlen.
  pose proof (firstn_le_length 10
                (sort_desc rs_created_at (filter (of_user u) rs))).
  lia.
Qed.

(** A row of the caller that the trigger deletes is at most as recent as
    every row of the caller that it keeps. *)
Lemma limit_keeps_newest u rs kept dropped :
  NoDup (map rs_id rs) ->
  In kept (filter (of_user u) (limit_recent_searches u rs)) ->
  In dropped (filter (of_user u) rs) ->
  ~ In dropped (filter (of_user u) (limit_recent_searches u rs)) ->
  rs_created_at dropped <= rs_created_at kept.
Proof.
  intros Hids Hk Hd Hnd. rewrite limit_same_user in Hk, Hnd.
  set (U := filter (of_user u) rs) in *.
  set (S := sort_desc rs_created_at U).
  assert (HU : NoDup (map rs_id U)) by now apply NoDup_map_filter.
  assert (Hin : forall r, In r U -> In (rs_id r) (newest_ids u rs) ->
                          In r (firstn 10 S)).
  { intros r Hr Hi. unfold newest_ids in Hi. fold U in Hi. fold S in Hi.
    apply in_map_iff in Hi. destruct Hi as (r' & E & Hr').
    assert (In r' U).
    { apply (sort_desc_In rs_created_at). fold S.
      eapply firstn_incl, Hr'. }
    now rewrite <- (NoDup_map_inj rs_id U r' r HU). }
  apply filter_In in Hk. destruct Hk as [HkU Hkm]. apply mem_id_spec in Hkm.
  assert (In kept (firstn 10 S)) as Hk1 by now apply Hin.
  assert (In dropped (skipn 10 S)) as Hd1.
  { assert (In dropped S) as HdS by now apply sort_desc_In.
    rewrite <- (firstn_skipn 10 S) in HdS. apply in_app_iff in HdS.
    destruct HdS as [HdS | HdS]; [|exact HdS].
    exfalso. apply Hnd. apply filter_In. split; [exact Hd|].
    apply mem_id_spec. unfold newest_ids. fold U. fold S. now apply in_map. }
  exact (sorted_firstn_skipn _ 10 S kept dropped
           (sort_desc_sorted rs_created_at U) Hk1 Hd1).
Qed.
Lemma StronglySorted_app_one {A} (R : A -> A -> Prop) (l : list A) (x : A) :
  StronglySorted R l -> Forall (fun a => R a x) l -> StronglySorted R (l ++ [x]).
Proof.
  induction 1 as [|a l Hs IH Ha]; intro Hx; cbn.
  - repeat constructor.
  - inversion Hx; subst. constructor; [now apply IH|].
    apply Forall_app. split; [exact Ha | now repeat constructor].
Qed.

Lemma StronglySorted_skipn {A} (R : A -> A -> Prop) (n : nat) (l : list A) :
  StronglySorted R l -> StronglySorted R (skipn n l).
Proof.
  revert l. induction n as [|n IH]; intros l H; [exact H|].
  destruct l as [|a l]; [constructor|]. cbn. apply IH. now inversion H.
Qed.

Lemma StronglySorted_app_l {A} (R : A -> A -> Prop) (l m : list A) :
  StronglySorted R (l ++ m) -> StronglySorted R l.
Proof.
  induction l as [|a l IH]; cbn; intro H; [constructor|].
  inversion H as [|? ? Hs Ha]; subst. constructor; [now apply IH|].
  apply Forall_app in Ha. tauto.
Qed.

Lemma StronglySorted_map {A B} (f : A -> B) (R : B -> B -> Prop) (l : list A) :
  StronglySorted R (map f l) -> StronglySorted (fun a b => R (f a) (f b)) l.
Proof.
  induction l as [|a l IH]; cbn; intro H; [constructor|].
  inversion H as [|? ? Hs Ha]; subst. constructor; [now apply IH|].
  rewrite Forall_map in Ha. exact Ha.
Qed.

Lemma NoDup_skipn {A} (n : nat) (l : list A) : NoDup l -> NoDup (skipn n l).
Proof.
  revert l. induction n as [|n IH]; intros l H; [exact H|].
  destruct l as [|a l]; [constructor|]. cbn. apply IH. now inversion H.
Qed.

Lemma latest_app {A} (n : nat) (a b : list A) :
  latest n (latest n a ++ b) = latest n (a ++ b).
Proof.
  unfold latest. rewrite !length_app, length_skipn.
  set (k := (List.length a - n)%nat).
  replace (List.length a + List.length b - n)%nat
    with ((List.length a - k + List.length b - n) + k)%nat by lia.
  rewrite <- skipn_skipn. f_equal.
  rewrite skipn_app. replace (k - List.length a)%nat with 0%nat by lia.
  reflexivity.
Qed.

Lemma latest_skipn_app {A} (n : nat) (a b : list A) :
  (latest n a ++ b)%list = skipn (List.length a - n) (a ++ b).
Proof.
  unfold latest. rewrite skipn_app.
  replace (List.length a - n - List.length a)%nat with 0%nat by lia.
  reflexivity.
Qed.

(** Of a list without repeated ids, the elements whose id occurs in a
    suffix are that suffix. *)
Lemma filter_suffix (a b : list Row) :
  NoDup (map rs_id (a ++ b)) ->
  filter (fun r => existsb (Nat.eqb (rs_id r)) (map rs_id (List.rev b))) (a ++ b)
  = b.
Proof.
  intro H. rewrite filter_app.
  assert (Hmem : forall r, existsb (Nat.eqb (rs_id r)) (map rs_id (List.rev b)) = true
                           <-> In (rs_id r) (map rs_id b)).
  { intro r. rewrite mem_id_spec, map_rev, <- in_rev. reflexivity. }
  rewrite map_app in H.
  replace (filter _ a) with (@nil Row).
  - cbn. apply forallb_filter_id. apply forallb_forall. intros r Hr.
    apply Hmem. now apply in_map.
  - symmetry. induction a as [|x a IH]; [reflexivity|].
    cbn in H |- *. inversion H as [|? ? Hx Hrest]; subst.
    destruct (existsb _ _) eqn:E.
    + exfalso. apply Hx. apply in_or_app. right. now apply Hmem.
    + now apply IH.
Qed.

(** Inserting a row newer than all of the caller's rows, themselves in
    ascending order of time, leaves the caller's ten latest rows. *)
Lemma insert_newest t u q ts :
  wf t -> existsb (same_key u q) (rows t) = false ->
  StronglySorted (fun a b => rs_created_at a < rs_created_at b) (rows_of u t) ->
  Forall (fun r => rs_created_at r < ts) (rows_of u t) ->
  rows_of u (upsert t u q ts)
  = latest 10 (rows_of u t ++ [mkRow (next_id t) u q ts]).
Proof.
  intros [Hids Hfresh _] E Hs Hts. unfold rows_of.
  rewrite (new_row_inserted _ _ _ _ E), limit_same_user.
  set (new := mkRow (next_id t) u q ts).
  assert (HR : filter (of_user u) (rows t ++ [new])
               = (filter (of_user u) (rows t) ++ [new])%list).
  { rewrite filter_app. cbn. unfold of_user at 2. cbn.
    now rewrite String.eqb_refl. }
  unfold newest_ids. rewrite HR.
  set (R := (filter (of_user u) (rows t) ++ [new])%list).
  assert (HsR : StronglySorted (fun a b => rs_created_at a < rs_created_at b) R).
  { apply StronglySorted_app_one; [exact Hs | exact Hts]. }
  rewrite (sort_desc_ascending rs_created_at R HsR), firstn_rev.
  fold (latest 10 R).
  assert (HndR : NoDup (map rs_id R)).
  { unfold R. rewrite <- HR. apply NoDup_map_filter.
    rewrite map_app. cbn.
    apply NoDup_app; [exact Hids | repeat constructor; cbn; tauto |].
    intros i Hi [<- | []]. apply in_map_iff in Hi.
    destruct Hi as (r & Hr & Hin). rewrite Forall_forall in Hfresh.
    specialize (Hfresh r Hin). lia. }
  pose proof (filter_suffix (firstn (List.length R - 10) R)
                (skipn (List.length R - 10) R)) as Hf.
  rewrite firstn_skipn in Hf. exact (Hf HndR).
Qed.
Lemma latest_map {A B} (f : A -> B) (n : nat) (l : list A) :
  map f (latest n l) = latest n (map f l).
Proof. unfold latest. now rewrite length_map, skipn_map. Qed.

Lemma latest_length {A} (n : nat) (l : list A) :
  (List.length (latest n l) <= n)%nat.
Proof. unfold latest. rewrite length_skipn. lia. Qed.

Lemma latest_short {A} (n : nat) (l : list A) :
  (List.length l <= n)%nat -> latest n l = l.
Proof.
  intro H. unfold latest.
  now replace (List.length l - n)%nat with 0%nat by lia.
Qed.

Lemma StronglySorted_app_mid {A} (R : A -> A -> Prop) (l m : list A) (x : A) :
  StronglySorted R (l ++ x :: m) -> Forall (fun a => R a x) l.
Proof.
  induction l as [|a l IH]; cbn; intro H; [constructor|].
  inversion H as [|? ? Hs Ha]; subst. constructor; [|now apply IH].
  rewrite Forall_forall in Ha. apply Ha. apply in_or_app. right. now left.
Qed.

(** A run of writes with fresh query texts and increasing timestamps
    leaves the caller's ten latest rows. *)
Lemma upsert_all_latest (writes : list (string * Z)) : forall t u,
  wf t ->
  (List.length (rows_of u t) <= 10)%nat ->
  StronglySorted Z.lt
    (map rs_created_at (rows_of u t) ++ map snd writes) ->
  NoDup (map rs_query (rows_of u t) ++ map fst writes) ->
  map written (rows_of u (upsert_all t u writes))
  = latest 10 (map written (rows_of u t) ++ writes).
Proof.
  induction writes as [|[q ts] rest IH]; intros t u Hwf Hten Hs Hnd.
  - cbn. rewrite app_nil_r. symmetry. apply latest_short.
    now rewrite length_map.
  - cbn [upsert_all fold_left fst snd map] in *.
    change (fold_left _ rest (upsert t u q ts))
      with (upsert_all (upsert t u q ts) u rest).
    set (R := rows_of u t) in *.
    set (new := mkRow (next_id t) u q ts).
    assert (E : existsb (same_key u q) (rows t) = false).
    { apply no_row_with_key. intro Hin. unfold keys in Hin.
      apply in_map_iff in Hin. destruct Hin as (r & Hr & Hin).
      inversion Hr as [[Hu Hq]].
      apply NoDup_remove_2 in Hnd. apply Hnd. apply in_or_app. left.
      apply in_map_iff. exists r. split; [exact Hq|].
      unfold R, rows_of. apply filter_In. split; [exact Hin|].
      unfold of_user. now apply String.eqb_eq. }
    assert (HsR : StronglySorted
                    (fun a b => rs_created_at a < rs_created_at b) R).
    { apply StronglySorted_map. eapply StronglySorted_app_l. exact Hs. }
    assert (Hts : Forall (fun r => rs_created_at r < ts) R).
    { apply StronglySorted_app_mid in Hs. rewrite Forall_map in Hs. exact Hs. }
    assert (Hrows : rows_of u (upsert t u q ts) = latest 10 (R ++ [new]))
      by now apply insert_newest.
    rewrite IH.
    + rewrite Hrows, latest_map, map_app. cbn [map written new rs_query rs_created_at].
      rewrite latest_app, <- app_assoc. reflexivity.
    + now apply wf_upsert.
    + rewrite Hrows. apply latest_length.
    + rewrite Hrows, latest_map, latest_skipn_app, map_app.
      cbn [map new rs_created_at]. rewrite <- app_assoc.
      apply StronglySorted_skipn. exact Hs.
    + rewrite Hrows, latest_map, latest_skipn_app, map_app.
      cbn [map new rs_query]. rewrite <- app_assoc.
      apply NoDup_skipn. exact Hnd.
Qed.
Lemma filter_snoc_same u rs n q ts :
  filter (of_user u) (rs ++ [mkRow n u q ts])
  = (filter (of_user u) rs ++ [mkRow n u q ts])%list.
Proof.
  rewrite filter_app. cbn [filter]. unfold of_user at 2. cbn [rs_user_id].
  now rewrite String.eqb_refl.
Qed.

Lemma filter_snoc_other u v rs n q ts :
  v <> u ->
  filter (of_user v) (rs ++ [mkRow n u q ts]) = filter (of_user v) rs.
Proof.
  intro H. rewrite filter_app. cbn [filter]. unfold of_user at 2.
  cbn [rs_user_id].
  assert (String.eqb u v = false) as -> by (apply String.eqb_neq; congruence).
  apply app_nil_r.
Qed.

Lemma filter_length_perm {A} (k : A -> bool) (l m : list A) :
  Permutation l m ->
  List.length (filter k l) = List.length (filter k m).
Proof.
  induction 1 as [| x l m _ IH | x y l | l m n _ IH1 _ IH2]; cbn.
  - reflexivity.
  - destruct (k x); cbn; now rewrite IH.
  - destruct (k x), (k y); reflexivity.
  - now rewrite IH1.
Qed.

(** Of a list without repeated ids, the elements whose id occurs in a
    prefix are that prefix. *)
Lemma filter_prefix (a b : list Row) :
  NoDup (map rs_id (a ++ b)) ->
  filter (fun r => existsb (Nat.eqb (rs_id r)) (map rs_id a)) (a ++ b) = a.
Proof.
  intro H. rewrite filter_app, map_app in *.
  replace (filter _ b) with (@nil Row).
  - rewrite app_nil_r. apply forallb_filter_id. apply forallb_forall.
    intros r Hr. apply mem_id_spec. now apply in_map.
  - symmetry. apply NoDup_app_remove_l in H as Hb.
    induction b as [|x b IH]; [reflexivity|].
    cbn [filter]. destruct (existsb _ _) eqn:E.
    + exfalso. apply mem_id_spec in E.
      apply (NoDup_remove_2 _ _ _ H). apply in_or_app. now left.
    + apply IH.
      * cbn [map] in H. now apply NoDup_remove_1 in H.
      * now inversion Hb.
Qed.

(** The trigger leaves the caller ten rows, or all if there are fewer. *)
Lemma limit_count u rs :
  NoDup (map rs_id rs) ->
  List.length (filter (of_user u) (limit_recent_searches u rs))
  = Nat.min 10 (List.length (filter (of_user u) rs)).
Proof.
  intro Hids. rewrite limit_same_user. unfold newest_ids.
  set (U := filter (of_user u) rs).
  set (S := sort_desc rs_created_at U).
  assert (HP : Permutation U S) by apply sort_desc_perm.
  rewrite (filter_length_perm _ U S HP).
  assert (HS : NoDup (map rs_id S)).
  { eapply Permutation_NoDup; [apply Permutation_map, HP|].
    now apply NoDup_map_filter. }
  rewrite <- (firstn_skipn 10 S) in HS.
  pose proof (filter_prefix (firstn 10 S) (skipn 10 S) HS) as Hf.
  rewrite firstn_skipn in Hf. rewrite Hf, length_firstn.
  now rewrite (Permutation_length HP).
Qed.

Lemma wf_empty : wf empty.
Proof. constructor; cbn; constructor. Qed.

Lemma row_with_key u q rs :
  In (u, q) (keys rs) -> existsb (same_key u q) rs = true.
Proof.
  intro H. destruct (existsb (same_key u q) rs) eqn:E; [reflexivity|].
  now apply no_row_with_key in E.
Qed.

Lemma keys_touch u q ts rs : keys (map (touch u q ts) rs) = keys rs.
Proof.
  unfold keys. rewrite map_map. apply map_ext. intro r. apply touch_key.
Qed.

Lemma ids_touch u q ts rs : map rs_id (map (touch u q ts) rs) = map rs_id rs.
Proof. rewrite map_map. apply map_ext. intro r. apply touch_id. Qed.
End RecentSearchesFacts.

(** C5.  The handler's history write is an upsert keyed by the caller and
    the trimmed query.  The table keeps one row per (caller, query text):
    its constraints survive every upsert; an upsert of a text the caller
    already has adds no row, it sets that row's timestamp and changes no
    other row.  An upsert of a new text inserts a row and runs the trigger,
    after which the caller has the smaller of ten and one more row than
    before, every deleted row of the caller is at most as recent as every
    kept one, and the rows of other callers are as before.  Eleven writes of
    one caller with distinct texts and increasing timestamps, starting
    without rows of that caller, leave exactly the ten latest: the first,
    least recently touched, is gone. *)
Theorem recent_searches_retention :
  (forall sb recent user p req q,
     query req = Some q -> (2 <= String.length q)%nat ->
     recent_after (aggregate sb None recent user p req)
     = RecentSearches.upsert recent (auth_user_id user) (JS.trim q) (now sb))
  /\ (forall t u q ts,
        RecentSearches.wf t -> RecentSearches.wf (RecentSearches.upsert t u q ts))
  /\ (forall t u q ts,
        RecentSearches.wf t ->
        In (u, q) (RecentSearches.keys (RecentSearches.rows t)) ->
        let t' := RecentSearches.upsert t u q ts in
        RecentSearches.keys (RecentSearches.rows t')
        = RecentSearches.keys (RecentSearches.rows t)
        /\ map RecentSearches.rs_id (RecentSearches.rows t')
           = map RecentSearches.rs_id (RecentSearches.rows t)
        /\ (forall r, In r (RecentSearches.rows t') ->
                      RecentSearches.rs_user_id r = u ->
                      RecentSearches.rs_query r = q ->
                      RecentSearches.rs_created_at r = ts)
        /\ (forall r, In r (RecentSearches.rows t) ->
                      RecentSearches.same_key u q r = false ->
                      In r (RecentSearches.rows t')))
  /\ (forall t u q ts,
        RecentSearches.wf t ->
        ~ In (u, q) (RecentSearches.keys (RecentSearches.rows t)) ->
        let t' := RecentSearches.upsert t u q ts in
        let new := RecentSearches.mkRow (RecentSearches.next_id t) u q ts in
        (List.length (RecentSearches.rows_of u t') <= 10)%nat
        /\ List.length (RecentSearches.rows_of u t')
           = Nat.min 10 (S (List.length (RecentSearches.rows_of u t)))
        /\ (forall kept dropped,
              In kept (RecentSearches.rows_of u t') ->
              In dropped (RecentSearches.rows_of u t ++ [new]) ->
              ~ In dropped (RecentSearches.rows_of u t') ->
              RecentSearches.rs_created_at dropped
              <= RecentSearches.rs_created_at kept)
        /\ (forall v, v <> u ->
                      RecentSearches.rows_of v t' = RecentSearches.rows_of v t))
  /\ (forall t u first later,
        RecentSearches.wf t ->
        RecentSearches.rows_of u t = [] ->
        NoDup (map fst (first :: later)) ->
        StronglySorted Z.lt (map snd (first :: later)) ->
        List.length later = 10%nat ->
        let t' := RecentSearches.upsert_all t u (first :: later) in
        map RecentSearches.written (RecentSearches.rows_of u t') = later
        /\ List.length (RecentSearches.rows_of u t') = 10%nat
        /\ ~ In (fst first)
                (map RecentSearches.rs_query (RecentSearches.rows_of u t'))
        /\ Forall (fun w => snd first < snd w) later).
Proof.
  split; [|split; [|split; [|split]]].
  - intros sb recent user p req q Hq Hlen.
    now rewrite (aggregate_search _ _ _ _ _ _ _ Hq Hlen).
  - intros. now apply wf_upsert.
  - intros t u q ts Hwf Hin t'. subst t'.
    destruct (existing_row_touched t u q ts (row_with_key _ _ _ Hin)) as [-> _].
    split; [apply keys_touch|]. split; [apply ids_touch|]. split.
    + intros r Hr Hu Hqr. apply in_map_iff in Hr. destruct Hr as (r0 & <- & _).
      unfold RecentSearches.touch in *.
      destruct (RecentSearches.same_key u q r0) eqn:E; [reflexivity|].
      assert (RecentSearches.same_key u q r0 = true); [|congruence].
      now apply same_key_spec.
    + intros r Hr E. apply in_map_iff. exists r. split; [|exact Hr].
      unfold RecentSearches.touch. now rewrite E.
  - intros t u q ts Hwf Hnin t' new. subst t' new.
    apply no_row_with_key in Hnin.
    assert (Hids : NoDup (map RecentSearches.rs_id
                            (RecentSearches.rows t
                             ++ [RecentSearches.mkRow (RecentSearches.next_id t) u q ts]))).
    { destruct Hwf as [Hids Hfresh _]. rewrite map_app. cbn.
      apply NoDup_app; [exact Hids | repeat constructor; cbn; tauto |].
      intros i Hi [<- | []]. apply in_map_iff in Hi.
      destruct Hi as (r & Hr & Hi). rewrite Forall_forall in Hfresh.
      specialize (Hfresh r Hi). lia. }
    unfold RecentSearches.rows_of.
    rewrite (new_row_inserted _ _ _ _ Hnin).
    split; [now apply limit_at_most_ten|]. split; [|split].
    + rewrite (limit_count _ _ Hids), filter_snoc_same, length_app. cbn.
      now rewrite Nat.add_1_r.
    + intros kept dropped Hk Hd Hgone.
      apply (limit_keeps_newest u _ kept dropped Hids Hk); [|exact Hgone].
      now rewrite filter_snoc_same.
    + intros v Hv. rewrite (limit_other_user _ _ _ Hv).
      now apply filter_snoc_other.
  - intros t u first later Hwf Hnone Hnd Hs Hlen t'. subst t'.
    pose proof (upsert_all_latest (first :: later) t u Hwf) as H.
    rewrite Hnone in H. cbn [map app List.length] in H.
    specialize (H ltac:(lia) Hs Hnd).
    assert (Hl : RecentSearches.latest 10 (first :: later) = later).
    { unfold RecentSearches.latest. cbn [List.length]. rewrite Hlen. reflexivity. }
    rewrite Hl in H. split; [exact H|]. split; [|split].
    + rewrite <- (length_map RecentSearches.written), H. exact Hlen.
    + assert (Hq : map RecentSearches.rs_query
                     (RecentSearches.rows_of u
                        (RecentSearches.upsert_all t u (first :: later)))
                   = map fst later).
      { rewrite <- H at 2. now rewrite map_map. }
      rewrite Hq. cbn in Hnd. now inversion Hnd.
    + cbn in Hs. inversion Hs as [|? ? _ Hall]; subst.
      now rewrite Forall_map in Hall.
Qed.

Lemma recent_searches_retention_witness :
  RecentSearches.wf RecentSearches.empty
  /\ RecentSearches.rows_of "u-1" RecentSearches.empty = []
  /\ NoDup (map fst Sample.elevenWrites)
  /\ StronglySorted Z.lt (map snd Sample.elevenWrites)
  /\ map RecentSearches.written
       (RecentSearches.rows_of "u-1"
          (RecentSearches.upsert_all RecentSearches.empty "u-1"
             Sample.elevenWrites))
     = tl Sample.elevenWrites.
Proof.
  assert (Hwf : RecentSearches.wf RecentSearches.empty) by apply wf_empty.
  assert (Hnd : NoDup (map fst Sample.elevenWrites)).
  { cbn. repeat (constructor; [cbn; intuition discriminate|]). constructor. }
  assert (Hs : StronglySorted Z.lt (map snd Sample.elevenWrites)).
  { cbn. repeat (constructor; [|repeat (constructor; [lia|]); constructor]).
    constructor. }
  split; [exact Hwf|]. split; [reflexivity|]. split; [exact Hnd|].
  split; [exact Hs|].
  pose proof recent_searches_retention as (_ & _ & _ & _ & H).
  exact (proj1 (H RecentSearches.empty "u-1" ("alpha", 1000)
                  (tl Sample.elevenWrites) Hwf eq_refl Hnd Hs eq_refl)).
Defined.

(** ** The client controller *)

(** C3, the failing run.  [search('ab')] and [search('abc')] are called
    before either [getSession()] resolves.  The second call aborts the
    first call's controller before any request is sent; yet both requests
    are then sent with the signal of the second controller, which nothing
    aborts, and when the response to [ab] arrives after the response to
    [abc] it replaces the displayed results and categories. *)
Theorem stale_response_overwrites (dataA dataB : Client.SearchData) :
  let trace := Sample.reordered dataA dataB in
  let h := Client.run Client.init trace in
  Client.aborted (Client.run Client.init (firstn 2 trace)) = [0%nat]
  /\ Client.sent (Client.run Client.init (firstn 2 trace)) = []
  /\ Client.sent h = [(1%nat, "abc", 1%nat); (0%nat, "ab", 1%nat)]
  /\ Client.aborted h = [0%nat]
  /\ Client.results (Client.run Client.init (firstn 6 trace))
     = Client.data_results dataB
  /\ Client.results h = Client.data_results dataA
  /\ Client.categories h = Client.data_categories dataA
  /\ Client.error h = None.
Proof. repeat split. Qed.

Section ClientFacts.
Import Client.

Lemma phase_of_drop_other c c' cs :
  c <> c' -> phase_of c (drop_call c' cs) = phase_of c cs.
Proof.
  intro H. unfold drop_call.
  induction cs as [|[k ph] cs IH]; [reflexivity|].
  cbn [filter fst phase_of]. destruct (Nat.eqb k c') eqn:E; cbn [negb].
  - apply Nat.eqb_eq in E. subst k.
    assert (Nat.eqb c' c = false) as -> by (apply Nat.eqb_neq; congruence).
    exact IH.
  - cbn [phase_of]. now rewrite IH.
Qed.

Lemma phase_of_drop_same c cs : phase_of c (drop_call c cs) = None.
Proof.
  unfold drop_call. induction cs as [|[k ph] cs IH]; [reflexivity|].
  cbn [filter fst]. destruct (Nat.eqb k c) eqn:E; cbn [negb]; [exact IH|].
  cbn [phase_of]. now rewrite E.
Qed.

Lemma phase_of_set_other c c' ph cs :
  c <> c' -> phase_of c (set_phase c' ph cs) = phase_of c cs.
Proof.
  intro H. unfold set_phase. cbn [phase_of].
  assert (Nat.eqb c' c = false) as -> by (apply Nat.eqb_neq; congruence).
  now apply phase_of_drop_other.
Qed.

Lemma phase_of_set_same c ph cs : phase_of c (set_phase c ph cs) = Some ph.
Proof. unfold set_phase. cbn [phase_of]. now rewrite Nat.eqb_refl. Qed.

Lemma phase_of_drop c c' cs ph :
  phase_of c (drop_call c' cs) = Some ph -> phase_of c cs = Some ph /\ c <> c'.
Proof.
  intro H. destruct (Nat.eq_dec c c') as [->|Hne].
  - now rewrite phase_of_drop_same in H.
  - now rewrite phase_of_drop_other in H.
Qed.
Lemma consistent_init : consistent init.
Proof. constructor; cbn; [intros c s [H|H] | intros c ph H]; discriminate. Qed.

(** [consistent] looks at the calls, the aborted controllers, the current
    controller and the invocation count only. *)
Lemma consistent_same h h' :
  calls h' = calls h -> aborted h' = aborted h ->
  abortControllerRef h' = abortControllerRef h ->
  invocations h' = invocations h ->
  consistent h -> consistent h'.
Proof.
  intros Hc Ha Hr Hi [Hs Hn]. constructor; rewrite ?Hc, ?Ha, ?Hr, ?Hi; auto.
Qed.

Lemma consistent_drop h h' c :
  calls h' = drop_call c (calls h) -> aborted h' = aborted h ->
  abortControllerRef h' = abortControllerRef h ->
  invocations h' = invocations h ->
  consistent h -> consistent h'.
Proof.
  intros Hc Ha Hr Hi [Hs Hn]. constructor; rewrite ?Hc, ?Ha, ?Hr, ?Hi.
  - intros c' s [H|H]; apply phase_of_drop in H; destruct H as [H _];
      apply (Hs c' s); auto.
  - intros c' ph H. apply phase_of_drop in H. destruct H as [H _]. eauto.
Qed.

Lemma consistent_finish h c : consistent h -> consistent (finish c h).
Proof. now apply consistent_drop with (c := c). Qed.

Lemma consistent_fail h c m : consistent h -> consistent (fail c m h).
Proof. now apply consistent_drop with (c := c). Qed.

Lemma consistent_step h e : consistent h -> consistent (step h e).
Proof.
  intro Hc. pose proof Hc as [Hs Hn].
  destruct e as [q f | c session | c r | c r]; cbn [step].
  - unfold search. destruct (String.length q <? minQueryLength)%nat.
    + now apply (consistent_same h).
    + constructor; cbn [calls aborted abortControllerRef invocations phase_of].
      * intros c s H.
        destruct (Nat.eqb (invocations h) c); [destruct H; discriminate|].
        left. destruct (Hs c s H) as [Ha | Hr].
        -- destruct (abortControllerRef h); [now right | exact Ha].
        -- rewrite Hr. now left.
      * intros c ph H. destruct (Nat.eqb (invocations h) c) eqn:E.
        -- apply Nat.eqb_eq in E. lia.
        -- apply Hn in H. lia.
  - unfold sessionResolved.
    destruct (phase_of c (calls h)) as [[q f | s | s]|] eqn:Eph; try exact Hc.
    destruct (negb session).
    + now apply consistent_drop with (h := h) (c := c).
    + destruct (abortControllerRef h) as [signal|] eqn:Er;
        [|now apply consistent_fail].
      constructor; cbn [calls aborted abortControllerRef invocations].
      * intros c' s H. destruct (Nat.eq_dec c' c) as [->|Hne].
        -- rewrite phase_of_set_same in H. right.
           destruct H as [H|H]; inversion H; subst; reflexivity.
        -- rewrite phase_of_set_other in H by exact Hne. exact (Hs _ _ H).
      * intros c' ph H. destruct (Nat.eq_dec c' c) as [->|Hne]; [eauto|].
        rewrite phase_of_set_other in H by exact Hne. eauto.
  - unfold fetchSettled.
    destruct (phase_of c (calls h)) as [[q f | s | s]|] eqn:Eph; try exact Hc.
    destruct (is_aborted h s); [now apply consistent_finish|].
    destruct r as [m | [|]]; try now apply consistent_fail.
    constructor; cbn [calls aborted abortControllerRef invocations].
    + intros c' s' H. destruct (Nat.eq_dec c' c) as [->|Hne].
      * rewrite phase_of_set_same in H.
        assert (s' = s) by (destruct H as [H|H]; inversion H; reflexivity).
        subst s'. apply (Hs c s). now left.
      * rewrite phase_of_set_other in H by exact Hne. exact (Hs _ _ H).
    + intros c' ph H. destruct (Nat.eq_dec c' c) as [->|Hne]; [eauto|].
      rewrite phase_of_set_other in H by exact Hne. eauto.
  - unfold jsonSettled.
    destruct (phase_of c (calls h)) as [[q f | s | s]|] eqn:Eph; try exact Hc.
    destruct (is_aborted h s); [now apply consistent_finish|].
    destruct r as [d | m]; [|now apply consistent_fail].
    now apply consistent_drop with (h := h) (c := c).
Qed.

Lemma consistent_run trace : forall h, consistent h -> consistent (run h trace).
Proof.
  induction trace as [|e trace IH]; intros h H; [exact H|].
  cbn. apply IH. now apply consistent_step.
Qed.
Lemma is_aborted_spec h s : is_aborted h s = true <-> In s (aborted h).
Proof.
  unfold is_aborted. rewrite existsb_exists. split.
  - intros (x & Hx & E). apply Nat.eqb_eq in E. now subst.
  - intro H. exists s. split; [exact H | apply Nat.eqb_refl].
Qed.

(** A new search supersedes every request that is in flight. *)
Lemma search_supersedes h a q f :
  consistent h -> in_flight a h -> (2 <= String.length q)%nat ->
  superseded a (search q f h).
Proof.
  intros [Hs Hn] (s & Hph) Hlen. unfold search.
  assert ((String.length q <? minQueryLength)%nat = false) as ->
    by (apply Nat.ltb_ge; exact Hlen).
  assert (Ha : (a < invocations h)%nat) by (destruct Hph as [H|H]; eauto).
  split; cbn [invocations calls aborted phase_of]; [lia|].
  assert (Nat.eqb (invocations h) a = false) as -> by (apply Nat.eqb_neq; lia).
  assert (Hin : In s (match abortControllerRef h with
                      | Some ctl => ctl :: aborted h
                      | None => aborted h
                      end)).
  { destruct (Hs a s Hph) as [H | H].
    - destruct (abortControllerRef h); [now right | exact H].
    - rewrite H. now left. }
  destruct Hph as [-> | ->]; exact Hin.
Qed.

Lemma superseded_drop h h' a c :
  calls h' = drop_call c (calls h) -> aborted h' = aborted h ->
  invocations h' = invocations h ->
  superseded a h -> superseded a h'.
Proof.
  intros Hc Ha Hi [Hlt Hph]. split; rewrite ?Hc, ?Ha, ?Hi; [exact Hlt|].
  destruct (Nat.eq_dec a c) as [->|Hne].
  - now rewrite phase_of_drop_same.
  - now rewrite phase_of_drop_other.
Qed.

Lemma superseded_set h h' a c ph :
  a <> c ->
  calls h' = set_phase c ph (calls h) -> aborted h' = aborted h ->
  invocations h' = invocations h ->
  superseded a h -> superseded a h'.
Proof.
  intros Hne Hc Ha Hi [Hlt Hph]. split; rewrite ?Hc, ?Ha, ?Hi; [exact Hlt|].
  now rewrite phase_of_set_other.
Qed.

(** Once superseded, an invocation stays so. *)
Lemma superseded_step h a e : superseded a h -> superseded a (step h e).
Proof.
  intro Hsup. pose proof Hsup as [Hlt Hph].
  destruct e as [q f | c session | c r | c r]; cbn [step].
  - unfold search. destruct (String.length q <? minQueryLength)%nat.
    + exact Hsup.
    + split; cbn [invocations calls aborted phase_of]; [lia|].
      assert (Nat.eqb (invocations h) a = false) as ->
        by (apply Nat.eqb_neq; lia).
      destruct (phase_of a (calls h)) as [[? ? | s | s]|]; auto;
        destruct (abortControllerRef h); auto; now right.
  - unfold sessionResolved.
    destruct (phase_of c (calls h)) as [[q f | s | s]|] eqn:Eph; try exact Hsup.
    assert (Hne : a <> c) by (intros ->; now rewrite Eph in Hph).
    destruct (negb session); [now apply superseded_drop with (h := h) (c := c)|].
    destruct (abortControllerRef h) as [signal|];
      [now apply superseded_set with (h := h) (c := c) (ph := AwaitFetch signal)
      | now apply superseded_drop with (h := h) (c := c)].
  - unfold fetchSettled.
    destruct (phase_of c (calls h)) as [[q f | s | s]|] eqn:Eph; try exact Hsup.
    destruct (is_aborted h s) eqn:Eab;
      [now apply superseded_drop with (h := h) (c := c)|].
    assert (Hne : a <> c).
    { intros ->. rewrite Eph in Hph. apply is_aborted_spec in Hph. congruence. }
    destruct r as [m | [|]];
      [now apply superseded_drop with (h := h) (c := c)
      | now apply superseded_set with (h := h) (c := c) (ph := AwaitJson s)
      | now apply superseded_drop with (h := h) (c := c)].
  - unfold jsonSettled.
    destruct (phase_of c (calls h)) as [[q f | s | s]|] eqn:Eph; try exact Hsup.
    destruct (is_aborted h s) eqn:Eab;
      [now apply superseded_drop with (h := h) (c := c)|].
    destruct r as [d | m]; now apply superseded_drop with (h := h) (c := c).
Qed.

Lemma superseded_run trace : forall h a,
  superseded a h -> superseded a (run h trace).
Proof.
  induction trace as [|e trace IH]; intros h a H; [exact H|].
  cbn. apply IH. now apply superseded_step.
Qed.

(** Whatever happens to a superseded invocation changes nothing that is
    displayed. *)
Lemma superseded_inert h a e :
  superseded a h -> event_of a e -> display (step h e) = display h.
Proof.
  intros [_ Hph] He.
  destruct e as [q f | c session | c r | c r]; cbn in He; [contradiction| | |];
    subst c; cbn [step].
  - unfold sessionResolved.
    now destruct (phase_of a (calls h)) as [[q f | s | s]|].
  - unfold fetchSettled.
    destruct (phase_of a (calls h)) as [[q f | s | s]|]; try reflexivity.
    apply is_aborted_spec in Hph. now rewrite Hph.
  - unfold jsonSettled.
    destruct (phase_of a (calls h)) as [[q f | s | s]|]; try reflexivity.
    apply is_aborted_spec in Hph. now rewrite Hph.
Qed.

(** What the controller does guarantee: if a search is issued while the
    request of an earlier invocation is in flight (already handed to
    [fetch]), then the earlier invocation's signal is aborted by the time
    the new search has been called, and nothing that later happens to the
    earlier invocation changes the displayed results, categories or error. *)
Lemma sent_request_superseded before a q f after e :
  let h := run init before in
  in_flight a h -> (2 <= String.length q)%nat -> event_of a e ->
  superseded a (search q f h)
  /\ display (step (run (search q f h) after) e)
     = display (run (search q f h) after).
Proof.
  intros h Hfl Hlen He.
  assert (Hs : superseded a (search q f h)).
  { apply search_supersedes; [|exact Hfl | exact Hlen].
    apply consistent_run, consistent_init. }
  split; [exact Hs|].
  apply superseded_inert with (a := a); [|exact He].
  now apply superseded_run.
Qed.
End ClientFacts.

(* ================================================================== *)
(** * Further properties *)

(** ** The regular-expression matcher *)

Lemma append_empty_r (s : string) : (s ++ "")%string = s.
Proof. induction s as [|c s IH]; cbn; [reflexivity | now rewrite IH]. Qed.

Lemma append_assoc (s t u : string) :
  ((s ++ t) ++ u)%string = (s ++ (t ++ u))%string.
Proof. induction s as [|c s IH]; cbn; [reflexivity | now rewrite IH]. Qed.

Lemma denotes_void (s : string) : ~ denotes Void s.
Proof. intro H. inversion H. Qed.

Lemma nullable_denotes (r : re) : nullable r = true -> denotes r "".
Proof.
  induction r as [| | p | a IHa b IHb | a IHa b IHb | a IHa]; cbn; intro H;
    try discriminate.
  - constructor.
  - apply andb_true_iff in H. destruct H as [Ha Hb].
    change (denotes (Cat a b) ("" ++ "")). constructor; auto.
  - apply orb_true_iff in H. destruct H as [H|H];
      [apply denotes_alt_l | apply denotes_alt_r]; auto.
  - constructor.
Qed.

Lemma cat_denotes (a b : re) (s : string) :
  denotes (cat a b) s -> denotes (Cat a b) s.
Proof.
  intro H.
  destruct a; try (cbn in H; now apply denotes_void in H);
    destruct b; cbn in H;
    try (now apply denotes_void in H); try exact H;
    try (change s with ("" ++ s)%string; constructor; [constructor | exact H]);
    try (rewrite <- (append_empty_r s); constructor; [exact H | constructor]).
Qed.

Lemma alt_denotes (a b : re) (s : string) :
  denotes (alt a b) s -> denotes (Alt a b) s.
Proof.
  intro H.
  destruct a; cbn in H; try (now apply denotes_alt_r);
    destruct b; cbn in H; try exact H; now apply denotes_alt_l.
Qed.

Lemma deriv_denotes (c : ascii) (r : re) : forall s,
  denotes (deriv c r) s -> denotes r (String c s).
Proof.
  induction r as [| | p | a IHa b IHb | a IHa b IHb | a IHa]; cbn; intros s H.
  - now apply denotes_void in H.
  - now apply denotes_void in H.
  - destruct (p c) eqn:E; [|now apply denotes_void in H].
    inversion H; subst. now constructor.
  - assert (Hl : forall t, denotes (cat (deriv c a) b) t ->
                           denotes (Cat a b) (String c t)).
    { intros t Ht. apply cat_denotes in Ht. inversion Ht; subst.
      change (String c (s0 ++ t0)) with (String c s0 ++ t0)%string.
      constructor; auto. }
    destruct (nullable a) eqn:En; [|now apply Hl].
    apply alt_denotes in H. inversion H; subst; [now apply Hl|].
    change (String c s) with ("" ++ String c s)%string.
    constructor; [now apply nullable_denotes | auto].
  - apply alt_denotes in H.
    inversion H; subst; [apply denotes_alt_l | apply denotes_alt_r]; auto.
  - apply cat_denotes in H. inversion H; subst.
    change (String c (s0 ++ t)) with (String c s0 ++ t)%string.
    constructor; auto.
Qed.

(** What the matcher accepts is denoted by the expression. *)
Lemma matches_denotes (s : string) : forall r,
  matches r s = true -> denotes r s.
Proof.
  induction s as [|c s IH]; cbn; intros r H.
  - now apply nullable_denotes.
  - now apply deriv_denotes, IH.
Qed.

Lemma all_chars_app (p : ascii -> bool) (s t : string) :
  all_chars p (s ++ t) = all_chars p s && all_chars p t.
Proof.
  induction s as [|c s IH]; cbn; [reflexivity|].
  now rewrite IH, andb_assoc.
Qed.

Lemma has_char_app (c : ascii) (s t : string) :
  has_char c (s ++ t) = has_char c s || has_char c t.
Proof.
  induction s as [|d s IH]; cbn; [reflexivity|].
  now rewrite IH, orb_assoc.
Qed.

Lemma denotes_within (p : ascii -> bool) (r : re) (s : string) :
  denotes r s -> within p r -> all_chars p s = true.
Proof.
  induction 1 as [| q c Hq | a b s t _ IHa _ IHb | a b s _ IH | a b s _ IH
                 | a | a s t _ IHa _ IHs]; cbn; intro W.
  - reflexivity.
  - now rewrite (W c Hq).
  - destruct W. now rewrite all_chars_app, IHa, IHb.
  - destruct W. auto.
  - destruct W. auto.
  - reflexivity.
  - rewrite all_chars_app, IHa, IHs; auto.
Qed.

Lemma all_chars_lacks (p : ascii -> bool) (c : ascii) (s : string) :
  all_chars p s = true -> p c = false -> has_char c s = false.
Proof.
  induction s as [|d s IH]; cbn; [reflexivity|].
  intros H Hc. apply andb_true_iff in H. destruct H as [Hd Hs].
  rewrite (IH Hs Hc), orb_false_r.
  destruct (Ascii.eqb d c) eqn:E; [|reflexivity].
  apply Ascii.eqb_eq in E. congruence.
Qed.

(** ** Strings *)

Lemma rev_append_spec (s acc : string) :
  JS.rev_append s acc = (JS.rev s ++ acc)%string.
Proof.
  unfold JS.rev. revert acc. induction s as [|c s IH]; intro acc; cbn.
  - reflexivity.
  - rewrite IH, (IH (String c "")), append_assoc. reflexivity.
Qed.

Lemma rev_cons (c : ascii) (s : string) :
  JS.rev (String c s) = (JS.rev s ++ String c "")%string.
Proof. unfold JS.rev at 1. cbn. apply rev_append_spec. Qed.

Lemma rev_app (s t : string) :
  JS.rev (s ++ t) = (JS.rev t ++ JS.rev s)%string.
Proof.
  induction s as [|c s IH]; cbn [append].
  - now rewrite append_empty_r.
  - now rewrite !rev_cons, IH, append_assoc.
Qed.

Lemma rev_involutive (s : string) : JS.rev (JS.rev s) = s.
Proof.
  induction s as [|c s IH]; [reflexivity|].
  now rewrite rev_cons, rev_app, IH.
Qed.

Lemma has_char_rev (c : ascii) (s : string) :
  has_char c (JS.rev s) = has_char c s.
Proof.
  induction s as [|d s IH]; [reflexivity|].
  rewrite rev_cons, has_char_app, IH. cbn.
  now rewrite orb_false_r, orb_comm.
Qed.

Lemma all_chars_rev (p : ascii -> bool) (s : string) :
  all_chars p (JS.rev s) = all_chars p s.
Proof.
  induction s as [|d s IH]; [reflexivity|].
  rewrite rev_cons, all_chars_app, IH. cbn.
  now rewrite andb_true_r, andb_comm.
Qed.

Lemma has_char_trimStart (c : ascii) (s : string) :
  has_char c (JS.trimStart s) = true -> has_char c s = true.
Proof.
  induction s as [|d s IH]; cbn; [auto|].
  destruct (JS.is_space d); [|auto].
  intro H. rewrite (IH H). apply orb_true_r.
Qed.

Lemma has_char_trim (c : ascii) (s : string) :
  has_char c (JS.trim s) = true -> has_char c s = true.
Proof.
  unfold JS.trim, JS.trimEnd. rewrite has_char_rev. intro H.
  apply has_char_trimStart in H. rewrite has_char_rev in H.
  now apply has_char_trimStart.
Qed.

Lemma all_chars_trimStart (p : ascii -> bool) (s : string) :
  all_chars p s = true -> all_chars p (JS.trimStart s) = true.
Proof.
  induction s as [|d s IH]; cbn; [auto|].
  intro H. destruct (JS.is_space d); [|exact H].
  apply andb_true_iff in H. now apply IH.
Qed.

Lemma all_chars_trim (p : ascii -> bool) (s : string) :
  all_chars p s = true -> all_chars p (JS.trim s) = true.
Proof.
  intro H. unfold JS.trim, JS.trimEnd. rewrite all_chars_rev.
  apply all_chars_trimStart. rewrite all_chars_rev.
  now apply all_chars_trimStart.
Qed.

Lemma has_char_remove_class (cls : ascii -> bool) (c : ascii) (s : string) :
  cls c = false ->
  has_char c (JS.remove_class cls s) = has_char c s.
Proof.
  intro Hc. induction s as [|d s IH]; [reflexivity|].
  cbn. destruct (cls d) eqn:Ed; cbn; rewrite IH; [|reflexivity].
  destruct (Ascii.eqb d c) eqn:E; [|reflexivity].
  apply Ascii.eqb_eq in E. congruence.
Qed.

(** ** The intent classifier *)

Lemma email_has_at (s : string) :
  matches emailRegex s = true -> has_char "@" s = true.
Proof.
  intro H. apply matches_denotes in H. unfold emailRegex in H.
  inversion H as [| | a b s1 t1 _ H2 | | | |]; subst.
  inversion H2 as [| | a b s2 t2 Hat _ | | | |]; subst.
  inversion Hat; subst. rewrite !has_char_app. cbn.
  match goal with H : Ascii.eqb "@" ?c = true |- _ =>
    apply Ascii.eqb_eq in H; subst end.
  apply orb_true_r.
Qed.

Lemma phone_lacks_at (s : string) :
  matches phoneRegex s = true -> has_char "@" s = false.
Proof.
  intro H. apply matches_denotes in H.
  apply (all_chars_lacks (fun c => phone_char c || Ascii.eqb "+" c)).
  - apply (denotes_within _ _ _ H). cbn.
    repeat split; intros c Hc; rewrite Hc; auto using orb_true_r.
  - reflexivity.
Qed.

Lemma email_excludes_phone (q : string) :
  matches emailRegex (JS.trim q) = true ->
  matches phoneRegex (JS.remove_class JS.is_space q) = false.
Proof.
  intro He. apply email_has_at, has_char_trim in He.
  destruct (matches phoneRegex (JS.remove_class JS.is_space q)) eqn:Ep;
    [|reflexivity].
  apply phone_lacks_at in Ep.
  rewrite has_char_remove_class in Ep by reflexivity. congruence.
Qed.

Lemma intent_email (q : string) :
  In "email" (detectQueryIntent q) <-> matches emailRegex (JS.trim q) = true.
Proof.
  unfold detectQueryIntent.
  destruct (matches emailRegex (JS.trim q)),
    (matches phoneRegex (JS.remove_class JS.is_space q)),
    (matches uuidRegex (JS.trim q)), (matches urlRegex (JS.trim q));
    cbn; intuition discriminate.
Qed.

Lemma intent_phone (q : string) :
  In "phone" (detectQueryIntent q)
  <-> matches phoneRegex (JS.remove_class JS.is_space q) = true.
Proof.
  unfold detectQueryIntent.
  destruct (matches emailRegex (JS.trim q)),
    (matches phoneRegex (JS.remove_class JS.is_space q)),
    (matches uuidRegex (JS.trim q)), (matches urlRegex (JS.trim q));
    cbn; intuition discriminate.
Qed.

(** X1.  The intents of a query are never empty, hold no intent twice and
    only the five known ones; [text] occurs only alone, as the fallback;
    and no query is classified both as an email and as a phone number. *)
Theorem intents_shape (q : string) :
  detectQueryIntent q <> []
  /\ NoDup (detectQueryIntent q)
  /\ incl (detectQueryIntent q) ["email"; "phone"; "id"; "url"; "text"]
  /\ (In "text" (detectQueryIntent q) -> detectQueryIntent q = ["text"])
  /\ ~ (In "email" (detectQueryIntent q) /\ In "phone" (detectQueryIntent q)).
Proof.
  split; [|split; [|split; [|split]]].
  5: { intros [He Hp]. apply intent_email in He. apply intent_phone in Hp.
       apply email_excludes_phone in He. congruence. }
  all: unfold detectQueryIntent;
    destruct (matches emailRegex (JS.trim q)),
      (matches phoneRegex (JS.remove_class JS.is_space q)),
      (matches uuidRegex (JS.trim q)), (matches urlRegex (JS.trim q)); cbn.
  all: try discriminate.
  all: try (repeat constructor; cbn; intuition discriminate).
  all: try (intros i Hi; cbn in *; intuition).
  all: try (intuition discriminate).
Qed.

Lemma arr_includes_In (arr : list string) (x : string) :
  JS.arr_includes arr x = true <-> In x arr.
Proof.
  unfold JS.arr_includes. rewrite existsb_exists. split.
  - intros (y & Hy & E). apply String.eqb_eq in E. now subst.
  - intro H. exists x. split; [exact H | apply String.eqb_refl].
Qed.

Lemma arr_includes_not_In (arr : list string) (x : string) :
  JS.arr_includes arr x = false <-> ~ In x arr.
Proof.
  rewrite <- arr_includes_In. now destruct (JS.arr_includes arr x).
Qed.

(** X2.  When the lead adapter runs, exactly one select on the leads table
    is sent, for the caller's tenant and with the request's limit, and its
    filter follows the intent: the email column alone for a query
    classified as an email, the mobile column alone for one classified as
    a phone number, and name, email or mobile otherwise, each with the
    handler's search pattern.  When the type filter excludes leads, no
    select on the leads table is sent. *)
Theorem lead_filter_follows_intent sb we recent user p req q :
  query req = Some q -> (2 <= String.length q)%nat ->
  let pat := searchPattern_of q in
  let f := leadFilter (detectQueryIntent q) pat in
  let sent :=
    filter is_leads_select (store_calls (aggregate sb we recent user p req)) in
  (excluded (filters_of req) "leads" = false ->
   sent = [SelectLeads (company_id p) f (limit_of req)])
  /\ (excluded (filters_of req) "leads" = true -> sent = [])
  /\ (In "email" (detectQueryIntent q) -> f = IlikeEmail pat)
  /\ (In "phone" (detectQueryIntent q) -> f = IlikeMobile pat)
  /\ (~ In "email" (detectQueryIntent q) ->
      ~ In "phone" (detectQueryIntent q) ->
      f = OrNameEmailMobile pat pat pat).
Proof.
  intros Hq Hlen pat f sent. subst pat f sent.
  rewrite (aggregate_search _ _ _ _ _ _ _ Hq Hlen). cbn [store_calls].
  assert (Hsent : forall b,
    excluded (filters_of req) "leads" = b ->
    filter is_leads_select
      (adapterCalls sb (filters_of req) (limit_of req) (detectQueryIntent q)
         (searchPattern_of q) (company_id p) (isAdmin_of p)
       ++ [UpsertRecentSearch (auth_user_id user) (JS.trim q) (now sb)])%list
    = if b then []
      else [SelectLeads (company_id p)
              (leadFilter (detectQueryIntent q) (searchPattern_of q))
              (limit_of req)]).
  { intros b Hb. unfold adapterCalls, searchLeads, searchUsers, searchAgents,
      searchCalls. rewrite Hb.
    destruct b, (excluded (filters_of req) "users"),
      (excluded (filters_of req) "agents"),
      (excluded (filters_of req) "calls"), (negb (isAdmin_of p));
      reflexivity. }
  split; [intro Hex; exact (Hsent false Hex)|].
  split; [intro Hex; exact (Hsent true Hex)|].
  unfold leadFilter. split; [|split].
  - intro He. apply arr_includes_In in He. now rewrite He.
  - intro Hp.
    assert (Hne : ~ In "email" (detectQueryIntent q)).
    { intro He. apply intent_email in He. apply intent_phone in Hp.
      apply email_excludes_phone in He. congruence. }
    apply arr_includes_not_In in Hne. apply arr_includes_In in Hp.
    now rewrite Hne, Hp.
  - intros He Hp. apply arr_includes_not_In in He, Hp. now rewrite He, Hp.
Qed.

Lemma lead_filter_follows_intent_witness :
  query (Sample.request "a@b.co") = Some "a@b.co"
  /\ (2 <= String.length "a@b.co")%nat
  /\ excluded (filters_of (Sample.request "a@b.co")) "leads" = false
  /\ filter is_leads_select
       (store_calls (aggregate Sample.emptyStore None RecentSearches.empty
                       Sample.caller Sample.member (Sample.request "a@b.co")))
     = [SelectLeads "acme" (IlikeEmail "%a@b.co%") 10].
Proof.
  assert (Hlen : (2 <= String.length "a@b.co")%nat) by (cbn; lia).
  split; [reflexivity|]. split; [exact Hlen|]. split; [reflexivity|].
  exact (proj1 (lead_filter_follows_intent Sample.emptyStore None
                  RecentSearches.empty Sample.caller Sample.member
                  (Sample.request "a@b.co") "a@b.co" eq_refl Hlen) eq_refl).
Defined.

(** ** Type filters and tenant scope *)

(** Where a merged result comes from, by its type. *)
Lemma results_by_type sb p q req r :
  In r (results_of sb p q req) ->
  (type r = "lead" /\ In r (leadsResults sb p q req))
  \/ (type r = "user" /\ In r (usersResults sb p q req))
  \/ (type r = "agent" /\ In r (agentsResults sb p q req))
  \/ (type r = "call" /\ In r (callsResults sb p q req))
  \/ (type r = "setting" /\ In r (settingsResults q req))
  \/ (type r = "navigation" /\ In r (navigationResults q)).
Proof.
  unfold results_of. rewrite !in_app_iff.
  intros [H | [H | [H | [H | [H | H]]]]].
  - left. split; [|exact H].
    pose proof (leads_type sb p q req) as F. rewrite Forall_forall in F. auto.
  - right; left. split; [|exact H].
    unfold usersResults, searchUsers in H.
    destruct (excluded _ _); [contradiction|].
    destruct (negb _); [contradiction|].
    destruct (error _); [contradiction|]. cbn [fst] in H.
    pose proof (mapi_types "user" userResult
                  (rows_or_empty (from_users sb (company_id p)
                     (searchPattern_of q) (searchPattern_of q) (limit_of req)))
                  (fun _ _ => eq_refl)) as F.
    rewrite Forall_forall in F. auto.
  - do 2 right; left. split; [|exact H].
    pose proof (agents_type sb p q req) as F. rewrite Forall_forall in F. auto.
  - do 3 right; left. split; [|exact H].
    pose proof (calls_type sb p q req) as F. rewrite Forall_forall in F. auto.
  - do 4 right; left. split; [|exact H].
    pose proof (settings_type q req) as F. rewrite Forall_forall in F. auto.
  - do 5 right. split; [|exact H].
    pose proof (navigation_type q) as F. rewrite Forall_forall in F. auto.
Qed.




Lemma adapterCalls_company sb f l i pat c a call :
  In call (adapterCalls sb f l i pat c a) -> call_company call = Some c.
Proof.
  unfold adapterCalls, searchLeads, searchUsers, searchAgents, searchCalls.
  rewrite !in_app_iff.
  destruct (excluded f "leads"), (excluded f "users"), (excluded f "agents"),
    (excluded f "calls"), (negb a); cbn [snd In];
    intros H;
    repeat match goal with
           | H : _ \/ _ |- _ => destruct H
           | H : False |- _ => contradiction
           | H : _ = call |- _ => subst call
           end;
    reflexivity.
Qed.

(** The requests that [aggregate] sends. *)
Lemma aggregate_calls_scoped sb we recent user p req call :
  In call (store_calls (aggregate sb we recent user p req)) ->
  (call_company call = Some (company_id p)
   \/ exists q ts, call = UpsertRecentSearch (auth_user_id user) q ts)
  /\ (forall c n e l, call = SelectUsers c n e l -> role p = "admin").
Proof.
  intro Hc.
  destruct (query_cases req) as [Hshort | (q & Hq & Hlen)].
  { rewrite (aggregate_short _ _ _ _ _ _ Hshort) in Hc. contradiction. }
  rewrite (aggregate_search _ _ _ _ _ _ _ Hq Hlen) in *.
  cbn [store_calls] in *. split.
  - apply in_app_iff in Hc. destruct Hc as [Hc | [<- | []]].
    + left. exact (adapterCalls_company _ _ _ _ _ _ _ _ Hc).
    + right. now exists (JS.trim q), (now sb).
  - intros c n e l ->.
    apply in_app_iff in Hc. destruct Hc as [Hc | [Hc | []]]; [|discriminate].
    unfold adapterCalls, searchLeads, searchUsers, searchAgents, searchCalls in Hc.
    unfold isAdmin_of in Hc.
    destruct (String.eqb (role p) "admin") eqn:E;
      [now apply String.eqb_eq in E|].
    exfalso.
    destruct (excluded (filters_of req) "leads"),
      (excluded (filters_of req) "users"),
      (excluded (filters_of req) "agents"),
      (excluded (filters_of req) "calls"); cbn in Hc;
      intuition discriminate.
Qed.

Lemma aggregate_calls_count sb we recent user p req :
  (List.length (filter is_search_select
                  (map Sent (store_calls (aggregate sb we recent user p req))))
   <= 4)%nat
  /\ (List.length (filter is_write
                     (map Sent (store_calls (aggregate sb we recent user p req))))
      <= 1)%nat.
Proof.
  destruct (query_cases req) as [Hshort | (q & Hq & Hlen)].
  { rewrite (aggregate_short _ _ _ _ _ _ Hshort). cbn. lia. }
  rewrite (aggregate_search _ _ _ _ _ _ _ Hq Hlen). cbn [store_calls].
  unfold adapterCalls, searchLeads, searchUsers, searchAgents, searchCalls.
  destruct (excluded (filters_of req) "leads"),
    (excluded (filters_of req) "users"),
    (excluded (filters_of req) "agents"),
    (excluded (filters_of req) "calls"),
    (negb (isAdmin_of p)); cbn; lia.
Qed.

(** X4.  Every request the handler sends to the store is the profile select
    keyed by the id of the authenticated caller, a search select scoped to
    the company of that caller's profile (for an ['admin'] caller as for
    any other), or the history write for the authenticated caller.  At
    most four search selects and one write are sent, and a search select
    on the users table only for an ['admin']. *)
Theorem store_requests_tenant_scoped auth sb we recent req r :
  In r (store_requests auth sb we recent req) ->
  exists user,
    getUser auth
      (remove_first "Bearer " (JS.template (authorization req))) = Some user
    /\ match r with
       | SelectProfile id => id = auth_user_id user
       | Sent call =>
           exists p,
             maybeSingle auth (auth_user_id user) = Some p
             /\ (call_company call = Some (company_id p)
                 \/ exists q ts,
                      call = UpsertRecentSearch (auth_user_id user) q ts)
             /\ (forall c n e l,
                   call = SelectUsers c n e l -> role p = "admin")
       end
    /\ (List.length (filter is_search_select
                       (store_requests auth sb we recent req)) <= 4)%nat
    /\ (List.length (filter is_write
                       (store_requests auth sb we recent req)) <= 1)%nat.
Proof.
  unfold store_requests, serve.
  destruct (String.eqb (http_method req) "OPTIONS"); [contradiction|].
  destruct (negb (JS.truthy (authorization req))); [contradiction|].
  cbv zeta.
  destruct (getUser auth _) as [user|] eqn:Hu; [|contradiction].
  intro Hr. exists user. split; [reflexivity|].
  destruct (maybeSingle auth (auth_user_id user)) as [p|] eqn:Hp.
  - destruct (http_json req) as [b|message].
    + destruct (aggregate_calls_count sb we recent user p b) as [Hsel Hwr].
      split; [|cbn [filter is_search_select is_write]; split; assumption].
      destruct Hr as [<- | Hr]; [reflexivity|].
      apply in_map_iff in Hr. destruct Hr as (call & <- & Hc).
      exists p. split; [reflexivity|].
      exact (aggregate_calls_scoped _ _ _ _ _ _ _ Hc).
    + cbn [store_calls map] in *. split; [|cbn; lia].
      destruct Hr as [<- | []]. reflexivity.
  - cbn [store_calls map] in *. split; [|cbn; lia].
    destruct Hr as [<- | []]. reflexivity.
Qed.

Lemma store_requests_tenant_scoped_witness :
  let req :=
    mkHttpRequest "POST" (Some "Bearer t") (Parsed (Sample.request "john")) in
  let auth := mkAuth (fun _ => Some Sample.caller) (fun _ => Some Sample.admin) in
  store_requests auth Sample.johnStore None RecentSearches.empty req
  = [SelectProfile "u-1";
     Sent (SelectLeads "acme" (OrNameEmailMobile "%john%" "%john%" "%john%") 10);
     Sent (SelectUsers "acme" "%john%" "%john%" 10);
     Sent (SelectAgents "acme" "%john%" 10);
     Sent (SelectCalls "acme" "%john%" 10);
     Sent (UpsertRecentSearch "u-1" "john" 1700000000000)]
  /\ exists p,
       maybeSingle auth "u-1" = Some p
       /\ call_company (SelectUsers "acme" "%john%" "%john%" 10)
          = Some (company_id p)
       /\ role p = "admin".
Proof.
  cbv zeta. split; [reflexivity|].
  assert (H : In (Sent (SelectUsers "acme" "%john%" "%john%" 10))
                (store_requests
                   (mkAuth (fun _ => Some Sample.caller)
                      (fun _ => Some Sample.admin))
                   Sample.johnStore None RecentSearches.empty
                   (mkHttpRequest "POST" (Some "Bearer t")
                      (Parsed (Sample.request "john")))))
    by (cbn; tauto).
  destruct (store_requests_tenant_scoped _ _ _ _ _ _ H)
    as (user & Hu & (p & Hp & Hscope & Hadmin) & _).
  cbn in Hu. inversion Hu; subst user.
  exists p. split; [exact Hp|].
  split; [|exact (Hadmin _ _ _ _ eq_refl)].
  destruct Hscope as [Hc | (q & ts & Hw)]; [exact Hc | discriminate Hw].
Defined.

(** ** Failing adapters *)

Lemma mapi_nil {A B} (f : A -> nat -> B) : JS.mapi f [] = [].
Proof. reflexivity. Qed.

(** X5.  A store query that fails costs only its own adapter's results:
    the handler's whole outcome is the one it would have with that table
    returning no rows, for each of the four tables; and when all four
    queries fail the response is still a success, computed from the
    settings and navigation matches alone. *)
Theorem failed_query_counts_as_no_rows sb we recent user p req
    (e : string) (dl : option (list LeadRow)) (du : option (list UserRow))
    (da : option (list AgentRow)) (dc : option (list CallRow)) :
  let run s := aggregate s we recent user p req in
  run (mkSupabase (fun _ _ _ => mkPg dl (Some e)) (from_users sb)
         (from_agents sb) (from_calls sb) (now sb))
  = run (mkSupabase (fun _ _ _ => Sample.none) (from_users sb) (from_agents sb)
           (from_calls sb) (now sb))
  /\ run (mkSupabase (from_leads sb) (fun _ _ _ _ => mkPg du (Some e))
            (from_agents sb) (from_calls sb) (now sb))
     = run (mkSupabase (from_leads sb) (fun _ _ _ _ => Sample.none)
              (from_agents sb) (from_calls sb) (now sb))
  /\ run (mkSupabase (from_leads sb) (from_users sb)
            (fun _ _ _ => mkPg da (Some e)) (from_calls sb) (now sb))
     = run (mkSupabase (from_leads sb) (from_users sb)
              (fun _ _ _ => Sample.none) (from_calls sb) (now sb))
  /\ run (mkSupabase (from_leads sb) (from_users sb) (from_agents sb)
            (fun _ _ _ => mkPg dc (Some e)) (now sb))
     = run (mkSupabase (from_leads sb) (from_users sb) (from_agents sb)
              (fun _ _ _ => Sample.none) (now sb))
  /\ (forall q, query req = Some q -> (2 <= String.length q)%nat ->
        let static :=
          sort_desc priorityScore
            (settingsResults q req ++ navigationResults q) in
        response (run (mkSupabase (fun _ _ _ => mkPg dl (Some e))
                         (fun _ _ _ _ => mkPg du (Some e))
                         (fun _ _ _ => mkPg da (Some e))
                         (fun _ _ _ => mkPg dc (Some e)) (now sb)))
        = json 200
            (BSearch (mkResponse (JS.slice0 static (limit_of req))
                        (build_categories static)
                        (Some (Z.of_nat (List.length static))) (Some q)
                        (Some (detectQueryIntent q))))).
Proof.
  cbv zeta.
  assert (Hagg : forall s1 s2,
             now s1 = now s2 ->
             (forall q, results_of s1 p q req = results_of s2 p q req) ->
             aggregate s1 we recent user p req
             = aggregate s2 we recent user p req).
  { intros s1 s2 Hnow Hres. unfold aggregate.
    destruct (query req) as [q|]; [|reflexivity].
    destruct (String.length q <? 2)%nat; [reflexivity|].
    unfold sorted_of. rewrite (Hres q), Hnow. f_equal.
    unfold adapterCalls, searchLeads, searchUsers, searchAgents, searchCalls.
    destruct (excluded (filters_of req) "leads"),
      (excluded (filters_of req) "users"),
      (excluded (filters_of req) "agents"),
      (excluded (filters_of req) "calls"),
      (negb (isAdmin_of p)); reflexivity. }
  split; [|split; [|split; [|split]]].
  1-4: apply Hagg; [reflexivity|]; intro q;
    unfold results_of, leadsResults, usersResults, agentsResults, callsResults,
      searchLeads, searchUsers, searchAgents, searchCalls, Sample.none;
    cbn [from_leads from_users from_agents from_calls error rows_or_empty data];
    destruct (excluded (filters_of req) "leads"),
      (excluded (filters_of req) "users"),
      (excluded (filters_of req) "agents"),
      (excluded (filters_of req) "calls"),
      (negb (isAdmin_of p)); reflexivity.
  intros q Hq Hlen.
  rewrite (aggregate_search _ _ _ _ _ _ _ Hq Hlen). cbn [response].
  assert (Hall : results_of
                   (mkSupabase (fun _ _ _ => mkPg dl (Some e))
                      (fun _ _ _ _ => mkPg du (Some e))
                      (fun _ _ _ => mkPg da (Some e))
                      (fun _ _ _ => mkPg dc (Some e)) (now sb)) p q req
                 = (settingsResults q req ++ navigationResults q)%list).
  { unfold results_of, leadsResults, usersResults, agentsResults,
      callsResults, searchLeads, searchUsers, searchAgents, searchCalls.
    cbn [from_leads from_users from_agents from_calls error].
    destruct (excluded (filters_of req) "leads"),
      (excluded (filters_of req) "users"),
      (excluded (filters_of req) "agents"),
      (excluded (filters_of req) "calls"),
      (negb (isAdmin_of p)); reflexivity. }
  unfold sorted_of. now rewrite Hall.
Qed.

Lemma failed_query_counts_as_no_rows_witness :
  query (Sample.request "settings") = Some "settings"
  /\ (2 <= String.length "settings")%nat
  /\ status (response
       (aggregate (mkSupabase (fun _ _ _ => mkPg None (Some "timeout"))
                     (fun _ _ _ _ => mkPg None (Some "timeout"))
                     (fun _ _ _ => mkPg None (Some "timeout"))
                     (fun _ _ _ => mkPg None (Some "timeout"))
                     (now Sample.johnStore))
          None RecentSearches.empty Sample.caller Sample.admin
          (Sample.request "settings"))) = 200.
Proof.
  assert (Hlen : (2 <= String.length "settings")%nat) by (cbn; lia).
  split; [reflexivity|]. split; [exact Hlen|].
  pose proof (failed_query_counts_as_no_rows Sample.johnStore None
                RecentSearches.empty Sample.caller Sample.admin
                (Sample.request "settings") "timeout" None None None None)
    as H.
  cbv zeta in H. destruct H as (_ & _ & _ & _ & H).
  now rewrite (H "settings" eq_refl Hlen).
Defined.

(** ** Ranking bands *)

Lemma mapi_from_length {A B} (f : A -> nat -> B) (l : list A) (k : nat) :
  List.length (JS.mapi_from f k l) = List.length l.
Proof.
  revert k. induction l as [|x l IH]; intro k; cbn; [reflexivity|].
  now rewrite IH.
Qed.

Lemma filter_length_le {A} (k : A -> bool) (l : list A) :
  (List.length (filter k l) <= List.length l)%nat.
Proof.
  induction l as [|x l IH]; cbn; [lia|]. destruct (k x); cbn; lia.
Qed.

Lemma decrements_upper (base : Z) (rs : list SearchResult) (r : SearchResult) :
  decrements_from base rs -> In r rs -> priorityScore r <= base.
Proof.
  intros Hd Hr. apply In_nth_error in Hr. destruct Hr as [i Hi].
  rewrite (Hd i r Hi). lia.
Qed.

Lemma decrements_lower (base : Z) (rs : list SearchResult) (r : SearchResult) :
  decrements_from base rs -> In r rs ->
  base - Z.of_nat (List.length rs) < priorityScore r.
Proof.
  intros Hd Hr. apply In_nth_error in Hr. destruct Hr as [i Hi].
  rewrite (Hd i r Hi).
  assert (i < List.length rs)%nat by (apply nth_error_Some; congruence).
  lia.
Qed.

Lemma navigation_at_most_seven q : (List.length (navigationResults q) <= 7)%nat.
Proof.
  unfold navigationResults, searchNavigation, JS.mapi.
  rewrite mapi_from_length.
  eapply Nat.le_trans; [apply filter_length_le | cbn; lia].
Qed.

Lemma settings_at_most_five q req :
  (List.length (settingsResults q req) <= 5)%nat.
Proof.
  unfold settingsResults, searchSettings.
  destruct (excluded _ _); [cbn; lia|]. unfold JS.mapi.
  rewrite mapi_from_length.
  eapply Nat.le_trans; [apply filter_length_le | cbn; lia].
Qed.

Lemma sorted_nth {A} (R : A -> A -> Prop) (l : list A) : forall i j a b,
  StronglySorted R l -> (i < j)%nat ->
  nth_error l i = Some a -> nth_error l j = Some b -> R a b.
Proof.
  induction l as [|x l IH]; intros i j a b Hs Hij Ha Hb.
  - destruct i; discriminate.
  - inversion Hs as [|? ? Hs' Hall]; subst.
    destruct j as [|j]; [lia|]. cbn in Hb. destruct i as [|i]; cbn in Ha.
    + inversion Ha; subst. rewrite Forall_forall in Hall.
      apply Hall. eapply nth_error_In, Hb.
    + apply (IH i j); auto. lia.
Qed.

(** X6.  A navigation match always scores between 84 and 90 and a settings
    match between 46 and 50, while a staff-account result scores at most
    80, an agent result at most 70 and a call result at most 60: in the
    sorted sequence every navigation match stands before every
    staff-account, agent, call and settings result. *)
Theorem navigation_outranks_lower_bands sb p q req r r' i j :
  nth_error (sorted_of sb p q req) i = Some r ->
  nth_error (sorted_of sb p q req) j = Some r' ->
  type r = "navigation" ->
  In (type r') ["user"; "agent"; "call"; "setting"] ->
  84 <= priorityScore r <= 90
  /\ (type r' = "user" -> priorityScore r' <= 80)
  /\ (type r' = "agent" -> priorityScore r' <= 70)
  /\ (type r' = "call" -> priorityScore r' <= 60)
  /\ (type r' = "setting" -> 46 <= priorityScore r' <= 50)
  /\ (i < j)%nat.
Proof.
  intros Hi Hj Ht Ht'.
  assert (Hr : In r (results_of sb p q req)).
  { apply (sort_desc_In priorityScore). eapply nth_error_In, Hi. }
  assert (Hr' : In r' (results_of sb p q req)).
  { apply (sort_desc_In priorityScore). eapply nth_error_In, Hj. }
  assert (Hnav : 84 <= priorityScore r <= 90).
  { destruct (results_by_type _ _ _ _ _ Hr)
      as [[H _] | [[H _] | [[H _] | [[H _] | [[H _] | [_ H]]]]]];
      try congruence.
    pose proof (decrements_upper _ _ _ (navigation_decrement q) H).
    pose proof (decrements_lower _ _ _ (navigation_decrement q) H).
    pose proof (navigation_at_most_seven q). lia. }
  assert (Hlow : priorityScore r' <= 80
                 /\ (type r' = "user" -> priorityScore r' <= 80)
                 /\ (type r' = "agent" -> priorityScore r' <= 70)
                 /\ (type r' = "call" -> priorityScore r' <= 60)
                 /\ (type r' = "setting" -> 46 <= priorityScore r' <= 50)).
  { destruct (results_by_type _ _ _ _ _ Hr')
      as [[H _] | [[H Hin] | [[H Hin] | [[H Hin] | [[H Hin] | [H _]]]]]].
    - rewrite H in Ht'. cbn in Ht'. intuition discriminate.
    - pose proof (decrements_upper _ _ _ (users_decrement sb p q req) Hin).
      rewrite H. split; [lia|].
      split; [intros _; lia|]. repeat split; intro; discriminate.
    - pose proof (decrements_upper _ _ _ (agents_decrement sb p q req) Hin).
      rewrite H. split; [lia|]. split; [intro; discriminate|].
      split; [intros _; lia|]. split; intro; discriminate.
    - pose proof (decrements_upper _ _ _ (calls_decrement sb p q req) Hin).
      rewrite H. split; [lia|]. split; [intro; discriminate|].
      split; [intro; discriminate|].
      split; [intros _; lia | intro; discriminate].
    - pose proof (decrements_upper _ _ _ (settings_decrement q req) Hin).
      pose proof (decrements_lower _ _ _ (settings_decrement q req) Hin).
      pose proof (settings_at_most_five q req).
      rewrite H. split; [lia|]. do 3 (split; [intro; discriminate|]).
      intros _. lia.
    - rewrite H in Ht'. cbn in Ht'. intuition discriminate. }
  destruct Hlow as (Hany & Hlow).
  split; [exact Hnav|]. do 4 (split; [tauto|]).
  destruct (Nat.lt_trichotomy i j) as [Hlt | [Heq | Hgt]]; [exact Hlt | |].
  - subst j. rewrite Hi in Hj. inversion Hj; subst. lia.
  - pose proof (sorted_nth _ _ j i r' r
                  (sort_desc_sorted priorityScore (results_of sb p q req))
                  Hgt Hj Hi) as Hd.
    unfold desc in Hd. lia.
Qed.

Lemma navigation_outranks_lower_bands_witness :
  nth_error (sorted_of Sample.emptyStore Sample.member "settings"
               (Sample.request "settings")) 0
  = Some (itemResult "navigation" 90
            (mkItem "settings" "Settings" "Preferences" "/settings"
               ["config"; "preferences"; "account"]) 0)
  /\ nth_error (sorted_of Sample.emptyStore Sample.member "settings"
                  (Sample.request "settings")) 3
     = Some (itemResult "setting" 50
               (mkItem "company" "Company Settings" "Organization preferences"
                  "/settings" []) 2)
  /\ (0 < 3)%nat.
Proof.
  assert (H0 : nth_error (sorted_of Sample.emptyStore Sample.member "settings"
                            (Sample.request "settings")) 0
               = Some (itemResult "navigation" 90
                         (mkItem "settings" "Settings" "Preferences" "/settings"
                            ["config"; "preferences"; "account"]) 0))
    by reflexivity.
  assert (H3 : nth_error (sorted_of Sample.emptyStore Sample.member "settings"
                            (Sample.request "settings")) 3
               = Some (itemResult "setting" 50
                         (mkItem "company" "Company Settings"
                            "Organization preferences" "/settings" []) 2))
    by reflexivity.
  split; [exact H0|]. split; [exact H3|].
  apply (navigation_outranks_lower_bands Sample.emptyStore Sample.member
           "settings" (Sample.request "settings") _ _ 0 3 H0 H3 eq_refl).
  cbn. tauto.
Defined.

(** ** Shape of the category map *)

Lemma push_keys (r : SearchResult) cats (k : string) :
  In k (map fst (push_category r cats)) <-> k = type r \/ In k (map fst cats).
Proof.
  induction cats as [|[k' b] rest IH]; cbn.
  - intuition.
  - destruct (String.eqb k' (type r)) eqn:E; cbn.
    + apply String.eqb_eq in E. subst k'. intuition.
    + rewrite IH. intuition.
Qed.

Lemma push_keeps_shape (r : SearchResult) cats :
  NoDup (map fst cats) -> Forall (fun kb => snd kb <> []) cats ->
  NoDup (map fst (push_category r cats))
  /\ Forall (fun kb => snd kb <> []) (push_category r cats).
Proof.
  induction cats as [|[k b] rest IH]; cbn; intros Hnd Hne.
  - split; repeat constructor; [tauto | discriminate].
  - inversion Hnd as [|? ? Hk Hrest]; subst.
    inversion Hne as [|? ? Hb Hne']; subst.
    destruct (String.eqb k (type r)) eqn:E; cbn.
    + split; [exact Hnd|]. constructor; [|exact Hne'].
      cbn. destruct b; discriminate.
    + destruct (IH Hrest Hne') as [IH1 IH2]. split.
      * constructor; [|exact IH1]. rewrite push_keys.
        apply String.eqb_neq in E. intuition.
      * now constructor.
Qed.

Lemma build_shape (rs : list SearchResult) :
  NoDup (map fst (build_categories rs))
  /\ Forall (fun kb => snd kb <> []) (build_categories rs).
Proof.
  unfold build_categories.
  enough (H : forall cats,
             NoDup (map fst cats) -> Forall (fun kb => snd kb <> []) cats ->
             NoDup (map fst (fold_left (fun c r => push_category r c) rs cats))
             /\ Forall (fun kb => snd kb <> [])
                  (fold_left (fun c r => push_category r c) rs cats)).
  { apply H; constructor. }
  induction rs as [|r rs IH]; intros cats Hnd Hne; cbn [fold_left]; [tauto|].
  destruct (push_keeps_shape r cats Hnd Hne). now apply IH.
Qed.

Lemma bucket_of_entry (k : string) (b : list SearchResult) cats :
  NoDup (map fst cats) -> In (k, b) cats -> bucket k cats = b.
Proof.
  induction cats as [|[k' b'] rest IH]; cbn; [tauto|].
  intros Hnd [H | H]; inversion Hnd as [|? ? Hk Hrest]; subst.
  - inversion H; subst. now rewrite String.eqb_refl.
  - destruct (String.eqb k' k) eqn:E; [|now apply IH].
    apply String.eqb_eq in E. subst k'. exfalso. apply Hk.
    apply in_map_iff. now exists (k, b).
Qed.

Lemma StronglySorted_filter {A} (R : A -> A -> Prop) (k : A -> bool) (l : list A) :
  StronglySorted R l -> StronglySorted R (filter k l).
Proof.
  induction 1 as [|x l Hs IH Hx]; cbn; [constructor|].
  destruct (k x); [|exact IH]. constructor; [exact IH|].
  apply Forall_forall. intros y Hy. apply filter_In in Hy.
  rewrite Forall_forall in Hx. now apply Hx.
Qed.

Lemma flat_push_perm (r : SearchResult) cats :
  Permutation (Palette.flatResults (push_category r cats))
              (r :: Palette.flatResults cats).
Proof.
  unfold Palette.flatResults.
  induction cats as [|[k b] rest IH]; cbn; [reflexivity|].
  destruct (String.eqb k (type r)); cbn.
  - rewrite <- app_assoc. cbn.
    symmetry. apply Permutation_middle.
  - rewrite IH. symmetry. apply Permutation_middle.
Qed.

Lemma flat_build_perm (rs : list SearchResult) :
  Permutation (Palette.flatResults (build_categories rs)) rs.
Proof.
  unfold build_categories.
  enough (H : forall cats,
             Permutation
               (Palette.flatResults
                  (fold_left (fun c r => push_category r c) rs cats))
               (Palette.flatResults cats ++ rs)) by apply H.
  induction rs as [|r rs IH]; intro cats; cbn [fold_left].
  - now rewrite app_nil_r.
  - rewrite IH, flat_push_perm. apply Permutation_middle.
Qed.

(** X7.  In every response the keys of [categories] are distinct and no
    bucket is empty; a bucket holds results of its own type only, in
    descending order of score; and for a query of at least two characters
    the buckets together are a rearrangement of the whole sorted sequence,
    so the palette's flattened list has [totalCount] rows. *)
Theorem categories_well_formed sb we recent user p req :
  let o := aggregate sb we recent user p req in
  let cats := categories (payload o) in
  NoDup (map fst cats)
  /\ (forall k b, In (k, b) cats ->
        b <> [] /\ bucket k cats = b
        /\ Forall (fun r => type r = k) b
        /\ StronglySorted (desc priorityScore) b)
  /\ (forall q, query req = Some q -> (2 <= String.length q)%nat ->
        Permutation (Palette.flatResults cats) (sorted_of sb p q req)
        /\ totalCount (payload o)
           = Some (Z.of_nat (List.length (Palette.flatResults cats)))).
Proof.
  intros o cats. subst o cats.
  destruct (query_cases req) as [Hshort | (q & Hq & Hlen)].
  { rewrite (aggregate_short _ _ _ _ _ _ Hshort). cbn.
    split; [constructor|]. split; [tauto|].
    intros q Hq Hlen. exfalso.
    destruct Hshort as [Hn | (q' & Hq' & Hlt)];
      [congruence | assert (q' = q) by congruence; subst; lia]. }
  rewrite (aggregate_search _ _ _ _ _ _ _ Hq Hlen). unfold payload, json.
  cbn [response body categories totalCount].
  destruct (build_shape (sorted_of sb p q req)) as [Hnd Hne].
  split; [exact Hnd|]. split.
  - intros k b Hin.
    pose proof (bucket_of_entry k b _ Hnd Hin) as Hb.
    split; [|split; [exact Hb|]].
    + rewrite Forall_forall in Hne. exact (Hne (k, b) Hin).
    + rewrite <- Hb, bucket_build. split.
      * apply Forall_forall. intros r Hr. apply filter_In in Hr.
        now apply String.eqb_eq.
      * apply StronglySorted_filter. apply sort_desc_sorted.
  - intros q' Hq' _. assert (q' = q) by congruence. subst q'.
    split; [apply flat_build_perm|].
    now rewrite (Permutation_length (flat_build_perm _)).
Qed.

Lemma categories_well_formed_witness :
  query (Sample.request "john") = Some "john"
  /\ (2 <= String.length "john")%nat
  /\ Permutation
       (Palette.flatResults
          (categories (payload (aggregate Sample.johnStore None
                                  RecentSearches.empty Sample.caller
                                  Sample.admin (Sample.request "john")))))
       (sorted_of Sample.johnStore Sample.admin "john" (Sample.request "john")).
Proof.
  assert (Hlen : (2 <= String.length "john")%nat) by (cbn; lia).
  split; [reflexivity|]. split; [exact Hlen|].
  pose proof (categories_well_formed Sample.johnStore None RecentSearches.empty
                Sample.caller Sample.admin (Sample.request "john")) as H.
  cbv zeta in H. destruct H as (_ & _ & H).
  exact (proj1 (H "john" eq_refl Hlen)).
Defined.

(** ** The handler before aggregation *)

(** X8.  The handler answers with status 200, 401, 404 or 500 only; an
    answer other than 200 carries an error body and means that nothing was
    searched and no history row written.  A preflight request is answered
    200 without a body whatever its headers; without an [Authorization]
    header the answer is 401, with a token the identity provider rejects
    401, without a profile row 404, and with an unreadable body 500. *)
Theorem handler_errors_touch_nothing auth sb we recent req :
  let o := serve auth sb we recent req in
  In (status (response o)) [200; 401; 404; 500]
  /\ (status (response o) <> 200 ->
      store_calls o = [] /\ recent_after o = recent
      /\ exists msg details, body (response o) = BError msg details)
  /\ (http_method req = "OPTIONS" ->
      o = mkOutcome (json 200 BNull) [] recent)
  /\ (http_method req <> "OPTIONS" ->
      (JS.truthy (authorization req) = false -> status (response o) = 401)
      /\ (forall header,
            authorization req = Some header -> header <> "" ->
            (getUser auth (remove_first "Bearer " header) = None ->
             status (response o) = 401)
            /\ (forall user,
                  getUser auth (remove_first "Bearer " header) = Some user ->
                  (maybeSingle auth (auth_user_id user) = None ->
                   status (response o) = 404)
                  /\ (forall userProfile message,
                        maybeSingle auth (auth_user_id user)
                        = Some userProfile ->
                        http_json req = Thrown message ->
                        response o
                        = json 500 (BError "Internal server error"
                                      (Some message)))))).
Proof.
  intro o. subst o. unfold serve.
  destruct (String.eqb (http_method req) "OPTIONS") eqn:Em.
  { apply String.eqb_eq in Em. cbn.
    split; [tauto|]. split; [congruence|]. split; [reflexivity|]. congruence. }
  apply String.eqb_neq in Em.
  assert (Hagg : forall u pr b,
             status (response (aggregate sb we recent u pr b)) = 200).
  { intros u pr b.
    destruct (query_cases b) as [Hshort | (q & Hq & Hlen)].
    - now rewrite (aggregate_short _ _ _ _ _ _ Hshort).
    - now rewrite (aggregate_search _ _ _ _ _ _ _ Hq Hlen). }
  destruct (JS.truthy (authorization req)) eqn:Ea; cbn [negb].
  2: { cbn. split; [tauto|]. split; [eauto|]. split; [congruence|].
       intros _. split; [reflexivity|].
       intros header Hh Hne. rewrite Hh in Ea. cbn in Ea.
       apply negb_false_iff, String.eqb_eq in Ea. congruence. }
  destruct (authorization req) as [header|] eqn:Eh; [|discriminate].
  cbn [JS.template].
  destruct (getUser auth (remove_first "Bearer " header)) as [user|] eqn:Eu.
  2: { cbn. split; [tauto|]. split; [eauto|]. split; [congruence|].
       intros _. split; [discriminate|].
       intros header' Hh' Hne. inversion Hh'; subst header'.
       split; [reflexivity|]. intros user Hu. congruence. }
  destruct (maybeSingle auth (auth_user_id user)) as [userProfile|] eqn:Ep.
  2: { cbn. split; [tauto|]. split; [eauto|]. split; [congruence|].
       intros _. split; [discriminate|].
       intros header' Hh' Hne. inversion Hh'; subst header'.
       split; [congruence|]. intros user' Hu'.
       assert (user' = user) by congruence. subst user'.
       split; [reflexivity|]. intros; congruence. }
  destruct (http_json req) as [b | message] eqn:Ej.
  - rewrite Hagg. split; [cbn; tauto|]. split; [congruence|].
    split; [congruence|].
    intros _. split; [discriminate|].
    intros header' Hh' Hne. inversion Hh'; subst header'.
    split; [congruence|]. intros user' Hu'.
    assert (user' = user) by congruence. subst user'.
    split; [congruence|]. intros; congruence.
  - cbn. split; [tauto|]. split; [eauto|]. split; [congruence|].
    intros _. split; [discriminate|].
    intros header' Hh' Hne. inversion Hh'; subst header'.
    split; [congruence|]. intros user' Hu'.
    assert (user' = user) by congruence. subst user'.
    split; [congruence|]. intros pr m Hpr Hm.
    assert (m = message) by congruence. now subst m.
Qed.

Lemma handler_errors_touch_nothing_witness :
  http_method (mkHttpRequest "POST" None (Thrown "no body")) <> "OPTIONS"
  /\ JS.truthy (authorization (mkHttpRequest "POST" None (Thrown "no body")))
     = false
  /\ status (response
       (serve (mkAuth (fun _ => None) (fun _ => None)) Sample.johnStore None
          RecentSearches.empty (mkHttpRequest "POST" None (Thrown "no body"))))
     = 401.
Proof.
  assert (Hm : http_method (mkHttpRequest "POST" None (Thrown "no body"))
               <> "OPTIONS") by discriminate.
  split; [exact Hm|]. split; [reflexivity|].
  pose proof (handler_errors_touch_nothing
                (mkAuth (fun _ => None) (fun _ => None)) Sample.johnStore None
                RecentSearches.empty
                (mkHttpRequest "POST" None (Thrown "no body"))) as H.
  cbv zeta in H. destruct H as (_ & _ & _ & H).
  exact (proj1 (H Hm) eq_refl).
Defined.

(** ** The sanitizer *)

Lemma trimStart_idempotent (s : string) :
  JS.trimStart (JS.trimStart s) = JS.trimStart s.
Proof.
  induction s as [|c s IH]; [reflexivity|].
  cbn. destruct (JS.is_space c) eqn:E; [exact IH|].
  cbn. now rewrite E.
Qed.

Lemma trimStart_length (s : string) :
  (String.length (JS.trimStart s) <= String.length s)%nat.
Proof.
  induction s as [|c s IH]; cbn; [lia|].
  destruct (JS.is_space c); cbn; lia.
Qed.

Lemma trimStart_fixed (c : ascii) (s : string) :
  JS.trimStart (String c s) = String c s -> JS.is_space c = false.
Proof.
  cbn. destruct (JS.is_space c); [|reflexivity].
  intro H. pose proof (trimStart_length s) as L. rewrite H in L. cbn in L. lia.
Qed.

Lemma trimStart_snoc (u : string) (c : ascii) :
  JS.is_space c = false ->
  JS.trimStart (u ++ String c "") = (JS.trimStart u ++ String c "")%string.
Proof.
  intro Hc. induction u as [|d u IH]; cbn; [now rewrite Hc|].
  destruct (JS.is_space d); [exact IH | reflexivity].
Qed.

Lemma append_length (s t : string) :
  String.length (s ++ t) = (String.length s + String.length t)%nat.
Proof. induction s as [|c s IH]; cbn; [reflexivity | now rewrite IH]. Qed.

Lemma rev_length (s : string) : String.length (JS.rev s) = String.length s.
Proof.
  induction s as [|c s IH]; [reflexivity|].
  rewrite rev_cons, append_length, IH. cbn. lia.
Qed.

Lemma trimEnd_idempotent (s : string) :
  JS.trimEnd (JS.trimEnd s) = JS.trimEnd s.
Proof.
  unfold JS.trimEnd. now rewrite rev_involutive, trimStart_idempotent.
Qed.

Lemma trimEnd_keeps_start (t : string) :
  JS.trimStart t = t -> JS.trimStart (JS.trimEnd t) = JS.trimEnd t.
Proof.
  destruct t as [|c t]; [reflexivity|]. intro H.
  apply trimStart_fixed in H. unfold JS.trimEnd.
  rewrite rev_cons, (trimStart_snoc _ _ H), rev_app. cbn.
  now rewrite H.
Qed.

Lemma trim_idempotent (s : string) : JS.trim (JS.trim s) = JS.trim s.
Proof.
  unfold JS.trim.
  rewrite (trimEnd_keeps_start _ (trimStart_idempotent s)).
  apply trimEnd_idempotent.
Qed.

Lemma trim_length (s : string) :
  (String.length (JS.trim s) <= String.length s)%nat.
Proof.
  unfold JS.trim, JS.trimEnd. rewrite rev_length.
  pose proof (trimStart_length (JS.rev (JS.trimStart s))) as H.
  rewrite rev_length in H. pose proof (trimStart_length s). lia.
Qed.

Lemma replace_class_length cls by_ (s : string) :
  String.length (JS.replace_class cls by_ s) = String.length s.
Proof. induction s as [|c s IH]; cbn; [reflexivity | now rewrite IH]. Qed.

Lemma replace_class_safe (s : string) :
  all_chars (fun c => negb (unsafe_char c))
    (JS.replace_class unsafe_char " "%char s) = true.
Proof.
  induction s as [|c s IH]; [reflexivity|].
  cbn [JS.replace_class all_chars]. rewrite IH, andb_true_r.
  destruct (unsafe_char c) eqn:E; [reflexivity | now rewrite E].
Qed.

Lemma replace_class_fixed cls by_ (s : string) :
  all_chars (fun c => negb (cls c)) s = true ->
  JS.replace_class cls by_ s = s.
Proof.
  induction s as [|c s IH]; [reflexivity|].
  cbn. intro H. apply andb_true_iff in H. destruct H as [Hc Hs].
  apply negb_true_iff in Hc. now rewrite Hc, IH.
Qed.

Lemma sanitized_query_is_clean_aux (q : string) :
  all_chars (fun c => negb (unsafe_char c)) (escapeSearchQuery q) = true
  /\ JS.trim (escapeSearchQuery q) = escapeSearchQuery q.
Proof.
  unfold escapeSearchQuery. split; [|apply trim_idempotent].
  apply all_chars_trim, replace_class_safe.
Qed.

(** X9.  The sanitized query holds none of the characters of the unsafe
    class, has no white space at either end, and is no longer than the
    query; sanitizing it again changes nothing. *)
Theorem sanitized_query_is_clean (q : string) :
  let e := escapeSearchQuery q in
  all_chars (fun c => negb (unsafe_char c)) e = true
  /\ JS.trim e = e
  /\ (forall c rest, e = String c rest -> JS.is_space c = false)
  /\ (forall c rest, JS.rev e = String c rest -> JS.is_space c = false)
  /\ (String.length e <= String.length q)%nat
  /\ escapeSearchQuery e = e.
Proof.
  intro e. subst e. unfold escapeSearchQuery.
  set (r := JS.replace_class unsafe_char " "%char q).
  assert (Hsafe : all_chars (fun c => negb (unsafe_char c)) (JS.trim r) = true).
  { apply all_chars_trim, replace_class_safe. }
  split; [exact Hsafe|]. split; [apply trim_idempotent|].
  split; [|split; [|split]].
  - intros c rest H. apply (trimStart_fixed c rest).
    rewrite <- H. unfold JS.trim.
    apply trimEnd_keeps_start, trimStart_idempotent.
  - intros c rest H. apply (trimStart_fixed c rest).
    rewrite <- H. unfold JS.trim, JS.trimEnd.
    now rewrite rev_involutive, trimStart_idempotent.
  - pose proof (trim_length r). unfold r in *.
    now rewrite replace_class_length in *.
  - rewrite (replace_class_fixed _ _ _ Hsafe). apply trim_idempotent.
Qed.

Lemma remove_class_app cls (s t : string) :
  JS.remove_class cls (s ++ t)
  = (JS.remove_class cls s ++ JS.remove_class cls t)%string.
Proof.
  induction s as [|c s IH]; cbn; [reflexivity|].
  destruct (cls c); cbn; now rewrite IH.
Qed.

Lemma remove_class_rev cls (s : string) :
  JS.remove_class cls (JS.rev s) = JS.rev (JS.remove_class cls s).
Proof.
  induction s as [|c s IH]; [reflexivity|].
  rewrite rev_cons, remove_class_app, IH. cbn [JS.remove_class].
  destruct (cls c); [now rewrite append_empty_r | now rewrite rev_cons].
Qed.

Lemma remove_space_trimStart (s : string) :
  JS.remove_class JS.is_space (JS.trimStart s) = JS.remove_class JS.is_space s.
Proof.
  induction s as [|c s IH]; [reflexivity|].
  cbn. destruct (JS.is_space c) eqn:E; [exact IH|]. cbn. now rewrite E.
Qed.

Lemma remove_space_trim (s : string) :
  JS.remove_class JS.is_space (JS.trim s) = JS.remove_class JS.is_space s.
Proof.
  unfold JS.trim, JS.trimEnd.
  now rewrite remove_class_rev, remove_space_trimStart, remove_class_rev,
    rev_involutive, remove_space_trimStart.
Qed.

(** X10.  Two queries that differ only in surrounding white space are
    classified alike, and a search for either touches the same history
    row: the classifier and the history key see the trimmed query. *)
Theorem surrounding_space_ignored_by_classifier (q1 q2 : string) :
  JS.trim q1 = JS.trim q2 ->
  detectQueryIntent q1 = detectQueryIntent q2
  /\ detectQueryIntent (JS.trim q1) = detectQueryIntent q1
  /\ (forall sb we recent user p f l,
        (2 <= String.length q1)%nat -> (2 <= String.length q2)%nat ->
        recent_after (aggregate sb we recent user p (mkRequest (Some q1) f l))
        = recent_after (aggregate sb we recent user p (mkRequest (Some q2) f l))).
Proof.
  intro H.
  assert (Hi : forall q, detectQueryIntent (JS.trim q) = detectQueryIntent q).
  { intro q. unfold detectQueryIntent.
    now rewrite trim_idempotent, remove_space_trim. }
  split; [now rewrite <- (Hi q1), <- (Hi q2), H|]. split; [apply Hi|].
  intros sb we recent user p f l H1 H2.
  rewrite (aggregate_search _ _ _ _ _ (mkRequest (Some q1) f l) q1 eq_refl H1).
  rewrite (aggregate_search _ _ _ _ _ (mkRequest (Some q2) f l) q2 eq_refl H2).
  cbn [recent_after]. now rewrite H.
Qed.

Lemma surrounding_space_ignored_by_classifier_witness :
  JS.trim " a@b.co " = JS.trim "a@b.co"
  /\ detectQueryIntent " a@b.co " = detectQueryIntent "a@b.co"
  /\ searchPattern_of " a@b.co " <> searchPattern_of "a@b.co".
Proof.
  assert (H : JS.trim " a@b.co " = JS.trim "a@b.co") by reflexivity.
  split; [exact H|].
  split; [exact (proj1 (surrounding_space_ignored_by_classifier _ _ H))|].
  discriminate.
Defined.

(** ** The prefix-match expression *)

Lemma join_empty_cons (x : string) (l : list string) :
  JS.join "" (x :: l) = (x ++ JS.join "" l)%string.
Proof. destruct l; cbn [JS.join]; [now rewrite append_empty_r | reflexivity]. Qed.

Lemma split_ws_nonempty (s : string) : forall cur prev,
  JS.split_ws_from cur prev s <> [].
Proof.
  induction s as [|c s IH]; intros cur prev; cbn; [discriminate|].
  destruct (JS.is_space c); [destruct prev|]; auto; discriminate.
Qed.

(** The pieces, put together, are the text without its white space. *)
Lemma split_ws_join (s : string) : forall cur prev,
  JS.join "" (JS.split_ws_from cur prev s)
  = (JS.rev cur ++ JS.remove_class JS.is_space s)%string.
Proof.
  induction s as [|c s IH]; intros cur prev; cbn [JS.split_ws_from JS.remove_class].
  - cbn. now rewrite append_empty_r.
  - destruct (JS.is_space c).
    + destruct prev; [apply IH|]. now rewrite join_empty_cons, IH.
    + rewrite IH, rev_cons, append_assoc. reflexivity.
Qed.

Lemma split_ws_chars (p : ascii -> bool) (s : string) : forall cur prev,
  all_chars p cur = true ->
  all_chars (fun c => JS.is_space c || p c) s = true ->
  Forall (fun w => all_chars p w = true) (JS.split_ws_from cur prev s).
Proof.
  induction s as [|c s IH]; intros cur prev Hcur Hs; cbn [JS.split_ws_from].
  - constructor; [now rewrite all_chars_rev | constructor].
  - cbn in Hs. apply andb_true_iff in Hs. destruct Hs as [Hc Hs].
    destruct (JS.is_space c) eqn:E.
    + destruct prev; [now apply IH|].
      constructor; [now rewrite all_chars_rev | now apply IH].
    + apply IH; [|exact Hs]. cbn in Hc |- *. now rewrite Hc.
Qed.

Lemma join_filter_nonempty (l : list string) :
  JS.join "" (filter (fun w => (0 <? String.length w)%nat) l) = JS.join "" l.
Proof.
  induction l as [|w l IH]; [reflexivity|].
  destruct w as [|c w]; cbn [filter].
  - change (0 <? String.length "")%nat with false. cbv iota.
    now rewrite join_empty_cons, IH.
  - change (0 <? String.length (String c w))%nat with true. cbv iota.
    now rewrite !join_empty_cons, IH.
Qed.

Lemma remove_class_empty cls (s : string) :
  JS.remove_class cls s = "" <-> all_chars cls s = true.
Proof.
  induction s as [|c s IH]; cbn; [tauto|].
  destruct (cls c); cbn; [exact IH|]. split; discriminate.
Qed.

Lemma replace_unsafe_spaces (q : string) :
  all_chars JS.is_space (JS.replace_class unsafe_char " "%char q)
  = all_chars (fun c => unsafe_char c || JS.is_space c) q.
Proof.
  induction q as [|c q IH]; [reflexivity|].
  cbn [JS.replace_class all_chars]. rewrite IH.
  now destruct (unsafe_char c).
Qed.

Lemma join_terms_empty (sep : string) (ws : list string) :
  JS.join sep (map (fun w => w ++ ":*") ws) = "" <-> ws = [].
Proof.
  split; [|now intros ->].
  destruct ws as [|w ws]; [reflexivity|]. cbn [map JS.join].
  destruct (map (fun w => w ++ ":*") ws); destruct w; discriminate.
Qed.

(** X11.  The prefix-match expression is built from the words of the
    sanitized query: each word is non-empty and free of white space and of
    unsafe characters, the words put together are the sanitized query
    without its white space, and each becomes a term ending in [:*],
    joined by [ & ].  The expression is empty exactly when the query
    consists of unsafe characters and white space only. *)
Theorem fuzzy_pattern_terms (q : string) :
  let words :=
    filter (fun w => (0 <? String.length w)%nat)
           (JS.split_ws (escapeSearchQuery q)) in
  createFuzzyPattern q = JS.join " & " (map (fun w => w ++ ":*") words)
  /\ Forall (fun w => w <> ""
                      /\ all_chars (fun c => negb (JS.is_space c)
                                             && negb (unsafe_char c)) w = true)
            words
  /\ JS.join "" words = JS.remove_class JS.is_space (escapeSearchQuery q)
  /\ (createFuzzyPattern q = ""
      <-> all_chars (fun c => unsafe_char c || JS.is_space c) q = true).
Proof.
  intro words.
  assert (Hjoin : JS.join "" words
                  = JS.remove_class JS.is_space (escapeSearchQuery q)).
  { unfold words, JS.split_ws. now rewrite join_filter_nonempty, split_ws_join. }
  split; [reflexivity|]. split; [|split; [exact Hjoin|]].
  - apply Forall_forall. intros w Hw. unfold words in Hw.
    apply filter_In in Hw. destruct Hw as [Hw Hlen]. split.
    + intros ->. discriminate.
    + pose proof (split_ws_chars
                    (fun c => negb (JS.is_space c) && negb (unsafe_char c))
                    (escapeSearchQuery q) "" false eq_refl) as H.
      rewrite Forall_forall in H. apply H; [|exact Hw].
      destruct (sanitized_query_is_clean_aux q) as [Hsafe _].
      clear - Hsafe. induction (escapeSearchQuery q) as [|c s IH];
        [reflexivity|].
      cbn in *. apply andb_true_iff in Hsafe. destruct Hsafe as [Hc Hs].
      rewrite (IH Hs), Hc. now destruct (JS.is_space c).
  - change (createFuzzyPattern q)
      with (JS.join " & " (map (fun w => w ++ ":*") words)).
    rewrite join_terms_empty.
    rewrite <- replace_unsafe_spaces, <- remove_class_empty.
    rewrite <- remove_space_trim. fold (escapeSearchQuery q).
    rewrite <- Hjoin. split; [now intros ->|].
    intro H. destruct words as [|w ws] eqn:E; [reflexivity|].
    rewrite join_empty_cons in H.
    assert (Hw : In w words) by (rewrite E; now left).
    unfold words in Hw. apply filter_In in Hw. destruct Hw as [_ Hlen].
    destruct w; [discriminate | discriminate].
Qed.

(** ** The history table under arbitrary writes *)

Section HistoryFacts.
Import RecentSearches.

Lemma filter_user_touch u v q ts rs :
  filter (of_user u) (map (touch v q ts) rs)
  = map (touch v q ts) (filter (of_user u) rs).
Proof.
  induction rs as [|r rs IH]; [reflexivity|].
  cbn [map filter]. rewrite touch_user.
  destruct (of_user u r); cbn [map]; now rewrite IH.
Qed.

Lemma ids_snoc_fresh t u q ts :
  wf t -> NoDup (map rs_id (rows t ++ [mkRow (next_id t) u q ts])).
Proof.
  intros [Hids Hfresh _]. rewrite map_app. cbn.
  apply NoDup_app; [exact Hids | repeat constructor; cbn; tauto |].
  intros i Hi [<- | []]. apply in_map_iff in Hi.
  destruct Hi as (r & Hr & Hi). rewrite Forall_forall in Hfresh.
  specialize (Hfresh r Hi). lia.
Qed.

Lemma upsert_keeps_bound t v q ts u :
  wf t -> (List.length (rows_of u t) <= 10)%nat ->
  (List.length (rows_of u (upsert t v q ts)) <= 10)%nat.
Proof.
  intros Hwf Hten. unfold rows_of, upsert.
  destruct (existsb (same_key v q) (rows t)) eqn:E; cbn [rows].
  - now rewrite filter_user_touch, length_map.
  - destruct (String.eqb u v) eqn:Euv.
    + apply String.eqb_eq in Euv. subst v.
      apply limit_at_most_ten. now apply ids_snoc_fresh.
    + apply String.eqb_neq in Euv.
      now rewrite (limit_other_user _ _ _ Euv), (filter_snoc_other _ _ _ _ _ _ Euv).
Qed.

Lemma write_all_keeps_bound writes : forall t,
  wf t -> (forall u, (List.length (rows_of u t) <= 10)%nat) ->
  wf (write_all t writes)
  /\ forall u, (List.length (rows_of u (write_all t writes)) <= 10)%nat.
Proof.
  induction writes as [|[[v q] ts] writes IH]; intros t Hwf Hten; [now split|].
  cbn [write_all fold_left fst snd].
  apply IH; [now apply wf_upsert|].
  intro u. now apply upsert_keeps_bound.
Qed.
End HistoryFacts.

(** X12.  Whatever is written to the history, by whichever callers, in
    whatever order and with whatever timestamps (equal or decreasing ones
    included), the table keeps its constraints and no caller ever has more
    than ten rows; a single upsert by anyone preserves the bound for
    everyone. *)
Theorem history_never_exceeds_ten (writes : list (string * string * Z)) :
  RecentSearches.wf (write_all RecentSearches.empty writes)
  /\ (forall u,
        (List.length
           (RecentSearches.rows_of u (write_all RecentSearches.empty writes))
         <= 10)%nat)
  /\ (forall t v q ts u,
        RecentSearches.wf t ->
        (List.length (RecentSearches.rows_of u t) <= 10)%nat ->
        (List.length
           (RecentSearches.rows_of u (RecentSearches.upsert t v q ts))
         <= 10)%nat).
Proof.
  destruct (write_all_keeps_bound writes RecentSearches.empty wf_empty)
    as [Hwf Hten]; [intro u; cbn; lia|].
  split; [exact Hwf|]. split; [exact Hten|].
  intros t v q ts u. apply upsert_keeps_bound.
Qed.

Lemma history_never_exceeds_ten_witness :
  RecentSearches.wf RecentSearches.empty
  /\ (List.length (RecentSearches.rows_of "u-1" RecentSearches.empty) <= 10)%nat
  /\ (List.length
        (RecentSearches.rows_of "u-1"
           (RecentSearches.upsert RecentSearches.empty "u-2" "john" 5))
      <= 10)%nat.
Proof.
  assert (Hwf : RecentSearches.wf RecentSearches.empty) by apply wf_empty.
  assert (H0 : (List.length (RecentSearches.rows_of "u-1" RecentSearches.empty)
                <= 10)%nat) by (cbn; lia).
  split; [exact Hwf|]. split; [exact H0|].
  exact (proj2 (proj2 (history_never_exceeds_ten []))
           RecentSearches.empty "u-2" "john" 5 "u-1" Hwf H0).
Defined.

Section RecentListFacts.
Import RecentSearches.

(** The one element above all others comes first in the sort. *)
Lemma sort_desc_head {A} (key : A -> Z) (x : A) (l : list A) :
  In x l -> (forall y, In y l -> y = x \/ key y < key x) ->
  exists rest, sort_desc key l = x :: rest.
Proof.
  intros Hx Hmax.
  pose proof (sort_desc_sorted key l) as Hs.
  pose proof (proj2 (sort_desc_In key x l) Hx) as Hin.
  destruct (sort_desc key l) as [|h rest] eqn:E; [contradiction|].
  assert (Hh : In h l) by (apply (sort_desc_In key); rewrite E; now left).
  destruct (Hmax h Hh) as [-> | Hlt]; [now exists rest|].
  exfalso. destruct Hin as [-> | Hin]; [lia|].
  inversion Hs as [|? ? _ Hall]; subst. rewrite Forall_forall in Hall.
  specialize (Hall x Hin). unfold desc in Hall. lia.
Qed.

Lemma same_key_unique rs r1 r2 :
  NoDup (keys rs) -> In r1 rs -> In r2 rs ->
  rs_user_id r1 = rs_user_id r2 -> rs_query r1 = rs_query r2 -> r1 = r2.
Proof.
  intros Hnd H1 H2 Hu Hq.
  apply (NoDup_map_inj (fun r => (rs_user_id r, rs_query r)) rs); auto.
  now rewrite Hu, Hq.
Qed.

(** After an upsert newer than all the caller's rows, the touched row is
    among the caller's rows and newer than every other one. *)
Lemma upsert_newest t u q ts :
  wf t ->
  Forall (fun r => rs_created_at r < ts) (rows_of u t) ->
  exists x,
    In x (rows_of u (upsert t u q ts))
    /\ rs_query x = q /\ rs_created_at x = ts
    /\ forall y, In y (rows_of u (upsert t u q ts)) ->
                 y = x \/ rs_created_at y < rs_created_at x.
Proof.
  intros Hwf Hts. rewrite Forall_forall in Hts. unfold rows_of, upsert.
  destruct (existsb (same_key u q) (rows t)) eqn:E; cbn [rows].
  - apply existsb_exists in E. destruct E as (r0 & Hr0 & Hk).
    pose proof Hk as Hk'. apply same_key_spec in Hk'. destruct Hk' as [Hu0 Hq0].
    exists (mkRow (rs_id r0) u q ts).
    rewrite filter_user_touch. split; [|split; [reflexivity|split; [reflexivity|]]].
    + apply in_map_iff. exists r0. split.
      * unfold touch. now rewrite Hk.
      * apply filter_In. split; [exact Hr0|]. unfold of_user.
        now apply String.eqb_eq.
    + intros y Hy. apply in_map_iff in Hy. destruct Hy as (r & <- & Hr).
      unfold touch. destruct (same_key u q r) eqn:Er.
      * left. apply same_key_spec in Er. destruct Er as [Hu Hq].
        apply filter_In in Hr. destruct Hr as [Hr _].
        assert (r = r0); [|now subst].
        apply (same_key_unique (rows t)); try assumption;
          [apply Hwf | congruence | congruence].
      * right. cbn. now apply Hts.
  - assert (Hmax : forall y,
               In y (filter (of_user u)
                       (rows t ++ [mkRow (next_id t) u q ts])) ->
               y = mkRow (next_id t) u q ts
               \/ rs_created_at y < rs_created_at (mkRow (next_id t) u q ts)).
    { intros y Hy. rewrite filter_snoc_same in Hy. apply in_app_iff in Hy.
      destruct Hy as [Hy | [<- | []]]; [right; cbn; now apply Hts | now left]. }
    assert (Hnew : In (mkRow (next_id t) u q ts)
                     (filter (of_user u)
                        (rows t ++ [mkRow (next_id t) u q ts]))).
    { rewrite filter_snoc_same. apply in_or_app. right. now left. }
    exists (mkRow (next_id t) u q ts). rewrite limit_same_user.
    split; [|split; [reflexivity|split; [reflexivity|]]].
    + apply filter_In. split; [exact Hnew|]. apply mem_id_spec.
      unfold newest_ids.
      destruct (sort_desc_head rs_created_at _ _ Hnew Hmax) as (rest & ->).
      cbn. now left.
    + intros y Hy. apply filter_In in Hy. destruct Hy as [Hy _]. now apply Hmax.
Qed.
(** A caller's rows carry distinct query texts. *)
Lemma user_queries_distinct u rs :
  NoDup (keys rs) -> NoDup (map rs_query (filter (of_user u) rs)).
Proof.
  induction rs as [|r rs IH]; cbn; intro Huniq; [constructor|].
  inversion Huniq as [|? ? Hr Hrest]; subst.
  destruct (of_user u r) eqn:Eu; [|auto].
  cbn [map]. constructor; [|auto].
  intro Hin. apply Hr. apply in_map_iff in Hin.
  destruct Hin as (y & Hy & Hyin). apply filter_In in Hyin.
  destruct Hyin as [Hyin Hyu]. apply in_map_iff. exists y.
  split; [|exact Hyin].
  unfold of_user in *. apply String.eqb_eq in Eu, Hyu. congruence.
Qed.
End RecentListFacts.

(** X13.  After a search whose history write succeeds at a time later than
    all the caller's history rows, the list of recent searches that the
    client fetches starts with the trimmed query; the list never has more
    than five entries and names no query twice. *)
Theorem latest_search_listed_first sb recent user p req q :
  RecentSearches.wf recent ->
  query req = Some q -> (2 <= String.length q)%nat ->
  Forall (fun r => RecentSearches.rs_created_at r < now sb)
         (RecentSearches.rows_of (auth_user_id user) recent) ->
  let after := recent_after (aggregate sb None recent user p req) in
  hd_error (fetchRecentSearches after (auth_user_id user)) = Some (JS.trim q)
  /\ (List.length (fetchRecentSearches after (auth_user_id user)) <= 5)%nat
  /\ NoDup (fetchRecentSearches after (auth_user_id user)).
Proof.
  intros Hwf Hq Hlen Hts after. subst after.
  rewrite (aggregate_search _ _ _ _ _ _ _ Hq Hlen).
  cbn [recent_after recordSearch].
  set (u := auth_user_id user). set (t' := RecentSearches.upsert recent u _ _).
  assert (Hwf' : RecentSearches.wf t') by now apply wf_upsert.
  destruct (upsert_newest recent u (JS.trim q) (now sb) Hwf Hts)
    as (x & Hx & Hxq & _ & Hmax).
  fold t' in Hx, Hmax. unfold fetchRecentSearches.
  split; [|split].
  - destruct (sort_desc_head RecentSearches.rs_created_at x _ Hx Hmax)
      as (rest & ->).
    cbn. now rewrite Hxq.
  - rewrite length_map. apply firstn_le_length.
  - assert (Hnd : NoDup (map RecentSearches.rs_query
                           (sort_desc RecentSearches.rs_created_at
                              (RecentSearches.rows_of u t')))).
    { eapply Permutation_NoDup;
        [apply Permutation_map, sort_desc_perm|].
      apply user_queries_distinct, Hwf'. }
    rewrite <- (firstn_skipn 5 (sort_desc RecentSearches.rs_created_at
                                  (RecentSearches.rows_of u t'))),
      map_app in Hnd.
    now apply NoDup_app_remove_r in Hnd.
Qed.

Lemma latest_search_listed_first_witness :
  RecentSearches.wf RecentSearches.empty
  /\ query (Sample.request " john ") = Some " john "
  /\ (2 <= String.length " john ")%nat
  /\ hd_error
       (fetchRecentSearches
          (recent_after (aggregate Sample.johnStore None RecentSearches.empty
                           Sample.caller Sample.admin (Sample.request " john ")))
          (auth_user_id Sample.caller))
     = Some "john".
Proof.
  assert (Hwf : RecentSearches.wf RecentSearches.empty) by apply wf_empty.
  assert (Hlen : (2 <= String.length " john ")%nat) by (cbn; lia).
  split; [exact Hwf|]. split; [reflexivity|]. split; [exact Hlen|].
  exact (proj1 (latest_search_listed_first Sample.johnStore RecentSearches.empty
                  Sample.caller Sample.admin (Sample.request " john ") " john "
                  Hwf eq_refl Hlen (Forall_nil _))).
Defined.

(** ** Keyboard selection *)

Lemma times_arrowDown (total : Z) (n : nat) : forall prev,
  0 <= prev < Z.max total 1 ->
  Selection.times n (Selection.arrowDown total) prev
  = (prev + Z.of_nat n) mod (Z.max total 1).
Proof.
  induction n as [|n IH]; intros prev Hp.
  - cbn [Selection.times]. rewrite Z.add_0_r. symmetry.
    now apply Z.mod_small.
  - cbn [Selection.times]. unfold Selection.arrowDown at 2.
    rewrite Z.rem_mod_nonneg by lia. rewrite IH.
    + rewrite Zplus_mod_idemp_l. f_equal. lia.
    + apply Z.mod_pos_bound. lia.
Qed.

(** X14.  With the selection inside the list (or at 0 for an empty list),
    ArrowDown and ArrowUp keep it inside, wrapping at either end; each
    undoes the other, and as many ArrowDown presses as the list has rows
    lead back to the start.  From any selection that is not negative a
    single press leads into the list. *)
Theorem arrow_keys_wrap (totalResults prev : Z) :
  0 <= prev < Z.max totalResults 1 ->
  let m := Z.max totalResults 1 in
  let down := Selection.arrowDown totalResults prev in
  let up := Selection.arrowUp totalResults prev in
  0 <= down < m /\ 0 <= up < m
  /\ down = (if prev =? m - 1 then 0 else prev + 1)
  /\ up = (if prev =? 0 then m - 1 else prev - 1)
  /\ Selection.arrowUp totalResults down = prev
  /\ Selection.arrowDown totalResults up = prev
  /\ Selection.times (Z.to_nat m) (Selection.arrowDown totalResults) prev = prev
  /\ (forall stale, 0 <= stale ->
        0 <= Selection.arrowDown totalResults stale < m
        /\ 0 <= Selection.arrowUp totalResults stale < m).
Proof.
  intros Hp m down up. subst down up.
  assert (Hm : 1 <= m) by (unfold m; lia).
  assert (Hd : Selection.arrowDown totalResults prev
               = (if prev =? m - 1 then 0 else prev + 1)).
  { unfold Selection.arrowDown. fold m. rewrite Z.rem_mod_nonneg by lia.
    destruct (prev =? m - 1) eqn:E.
    - apply Z.eqb_eq in E. replace (prev + 1) with m by lia.
      apply Z_mod_same_full.
    - apply Z.eqb_neq in E. apply Z.mod_small. lia. }
  assert (Hu : Selection.arrowUp totalResults prev
               = (if prev =? 0 then m - 1 else prev - 1)).
  { unfold Selection.arrowUp. fold m. rewrite Z.rem_mod_nonneg by lia.
    destruct (prev =? 0) eqn:E.
    - apply Z.eqb_eq in E. subst prev.
      replace (0 - 1 + m) with (m - 1) by lia. apply Z.mod_small. lia.
    - apply Z.eqb_neq in E.
      replace (prev - 1 + m) with (prev - 1 + 1 * m) by lia.
      rewrite Z_mod_plus_full. apply Z.mod_small. lia. }
  rewrite Hd, Hu.
  assert (Hrange : forall x, 0 <= x ->
             0 <= Selection.arrowDown totalResults x < m
             /\ 0 <= Selection.arrowUp totalResults x < m).
  { intros x Hx. unfold Selection.arrowDown, Selection.arrowUp. fold m.
    rewrite !Z.rem_mod_nonneg by lia.
    split; apply Z.mod_pos_bound; lia. }
  split; [destruct (prev =? m - 1) eqn:E; [lia | apply Z.eqb_neq in E; lia]|].
  split; [destruct (prev =? 0) eqn:E; [lia | apply Z.eqb_neq in E; lia]|].
  split; [reflexivity|]. split; [reflexivity|].
  split; [|split; [|split; [|exact Hrange]]].
  - unfold Selection.arrowUp. fold m.
    destruct (prev =? m - 1) eqn:E.
    + apply Z.eqb_eq in E. rewrite Z.rem_mod_nonneg by lia.
      replace (0 - 1 + m) with prev by lia. apply Z.mod_small. lia.
    + apply Z.eqb_neq in E. rewrite Z.rem_mod_nonneg by lia.
      replace (prev + 1 - 1 + m) with (prev + 1 * m) by lia.
      rewrite Z_mod_plus_full. apply Z.mod_small. lia.
  - unfold Selection.arrowDown. fold m.
    destruct (prev =? 0) eqn:E.
    + apply Z.eqb_eq in E. rewrite Z.rem_mod_nonneg by lia.
      replace (m - 1 + 1) with m by lia. rewrite Z_mod_same_full. lia.
    + apply Z.eqb_neq in E. rewrite Z.rem_mod_nonneg by lia.
      replace (prev - 1 + 1) with prev by lia. apply Z.mod_small. lia.
  - rewrite times_arrowDown by exact Hp. fold m. rewrite Z2Nat.id by lia.
    replace (prev + m) with (prev + 1 * m) by lia.
    rewrite Z_mod_plus_full. apply Z.mod_small. lia.
Qed.

Lemma arrow_keys_wrap_witness :
  0 <= 2 < Z.max 3 1
  /\ Selection.arrowDown 3 2 = 0
  /\ Selection.arrowUp 3 (Selection.arrowDown 3 2) = 2.
Proof.
  assert (H : 0 <= 2 < Z.max 3 1) by (cbn; lia).
  split; [exact H|].
  pose proof (arrow_keys_wrap 3 2 H) as W. cbv zeta in W.
  destruct W as (_ & _ & Hd & _ & Hud & _).
  split; [exact Hd | exact Hud].
Defined.

Lemma findIndex_from_position (l : list SearchResult) : forall i k r,
  NoDup (map id l) -> nth_error l i = Some r ->
  JS.findIndex_from (fun x => String.eqb (id x) (id r)) k l = k + Z.of_nat i.
Proof.
  induction l as [|x l IH]; intros i k r Hnd Hi; [destruct i; discriminate|].
  inversion Hnd as [|? ? Hx Hl]; subst. destruct i as [|i]; cbn in Hi.
  - inversion Hi; subst. cbn. rewrite String.eqb_refl. lia.
  - cbn [JS.findIndex_from].
    destruct (String.eqb (id x) (id r)) eqn:E.
    + exfalso. apply Hx. apply String.eqb_eq in E. rewrite E.
      apply in_map. eapply nth_error_In, Hi.
    + rewrite (IH i (k + 1) r Hl Hi). lia.
Qed.

(** X15.  When the rows of the flattened list have distinct ids, the index
    the palette computes for the row at position [i] is [i]: a row is shown
    as selected exactly when the selection is at its position, and Enter
    activates the row that is shown as selected. *)
Theorem distinct_ids_index_is_position (flat : list SearchResult)
    (i : nat) (r : SearchResult) :
  NoDup (map id flat) -> nth_error flat i = Some r ->
  Palette.globalIndex flat r = Z.of_nat i
  /\ (forall selectedIndex,
        Palette.isSelected flat selectedIndex r = true
        <-> selectedIndex = Z.of_nat i)
  /\ (forall selectedIndex,
        Palette.isSelected flat selectedIndex r = true ->
        Selection.selected flat selectedIndex = Some r).
Proof.
  intros Hnd Hi.
  assert (Hg : Palette.globalIndex flat r = Z.of_nat i).
  { unfold Palette.globalIndex, JS.findIndex.
    now rewrite (findIndex_from_position flat i 0 r Hnd Hi). }
  split; [exact Hg|]. unfold Palette.isSelected. rewrite Hg. split.
  - intro sel. rewrite Z.eqb_eq. split; congruence.
  - intros sel H. apply Z.eqb_eq in H. subst sel. unfold Selection.selected.
    destruct (Z.of_nat i <? 0) eqn:E; [apply Z.ltb_lt in E; lia|].
    now rewrite Nat2Z.id.
Qed.

Lemma distinct_ids_index_is_position_witness :
  let flat :=
    Palette.flatResults (categories (payload
      (aggregate Sample.johnStore None RecentSearches.empty Sample.caller
         Sample.admin (Sample.request "john")))) in
  NoDup (map id flat)
  /\ nth_error flat 1 = Some (userResult Sample.johnDoe 0)
  /\ Palette.globalIndex flat (userResult Sample.johnDoe 0) = 1.
Proof.
  cbv zeta.
  assert (Hnd : NoDup (map id (Palette.flatResults (categories (payload
                  (aggregate Sample.johnStore None RecentSearches.empty
                     Sample.caller Sample.admin (Sample.request "john"))))))).
  { vm_compute. repeat (constructor; [cbn; intuition discriminate|]).
    constructor. }
  assert (Hi : nth_error (Palette.flatResults (categories (payload
                  (aggregate Sample.johnStore None RecentSearches.empty
                     Sample.caller Sample.admin (Sample.request "john"))))) 1
               = Some (userResult Sample.johnDoe 0)) by reflexivity.
  split; [exact Hnd|]. split; [exact Hi|].
  exact (proj1 (distinct_ids_index_is_position _ 1 _ Hnd Hi)).
Defined.

(** ** Debouncing and clearing *)

Section DebounceFacts.
Import Debounce.

Lemma handleQueryChange_hook (q : string) (c : Controller) :
  Client.calls (hook (handleQueryChange q c)) = Client.calls (hook c)
  /\ Client.invocations (hook (handleQueryChange q c))
     = Client.invocations (hook c)
  /\ Client.sent (hook (handleQueryChange q c)) = Client.sent (hook c)
  /\ Client.aborted (hook (handleQueryChange q c)) = Client.aborted (hook c)
  /\ Client.abortControllerRef (hook (handleQueryChange q c))
     = Client.abortControllerRef (hook c)
  /\ Client.controllers (hook (handleQueryChange q c))
     = Client.controllers (hook c).
Proof.
  unfold handleQueryChange, debouncedSearch. cbn [hook query debounceTimer].
  destruct (String.length q <? Client.minQueryLength)%nat; cbn; tauto.
Qed.

Lemma typing_starts_nothing (qs : list string) : forall c,
  Client.calls (hook (run c (map QueryChange qs))) = Client.calls (hook c)
  /\ Client.invocations (hook (run c (map QueryChange qs)))
     = Client.invocations (hook c)
  /\ Client.sent (hook (run c (map QueryChange qs))) = Client.sent (hook c)
  /\ Client.controllers (hook (run c (map QueryChange qs)))
     = Client.controllers (hook c).
Proof.
  induction qs as [|q qs IH]; intro c; [cbn; tauto|].
  cbn [map run fold_left step]. fold (run (handleQueryChange q c)
                                         (map QueryChange qs)).
  destruct (IH (handleQueryChange q c)) as (H1 & H2 & H3 & H4).
  destruct (handleQueryChange_hook q c) as (G1 & G2 & G3 & _ & _ & G6).
  rewrite H1, H2, H3, H4. auto.
Qed.

(** X16.  Keystrokes that follow one another before the timeout elapses
    start no search and send nothing, whatever was typed; when the timeout
    then elapses, a last text of two characters or more is searched once,
    with no filters, and the texts typed before it are not searched.  A
    last text shorter than that empties the display at once, cancels the
    pending timeout and searches nothing. *)
Theorem only_last_keystroke_is_searched (c : Debounce.Controller)
    (qs : list string) (q : string) :
  let typed := Debounce.run c (map Debounce.QueryChange (qs ++ [q])) in
  let fired := Debounce.step typed Debounce.TimerFires in
  Debounce.query typed = q
  /\ Client.calls (Debounce.hook typed) = Client.calls (Debounce.hook c)
  /\ Client.invocations (Debounce.hook typed)
     = Client.invocations (Debounce.hook c)
  /\ Client.sent (Debounce.hook typed) = Client.sent (Debounce.hook c)
  /\ ((String.length q < Client.minQueryLength)%nat ->
        Client.results (Debounce.hook typed) = []
        /\ Client.categories (Debounce.hook typed) = []
        /\ Client.isLoading (Debounce.hook typed) = false
        /\ fired = typed)
  /\ ((Client.minQueryLength <= String.length q)%nat ->
        Client.isLoading (Debounce.hook typed) = true
        /\ Debounce.hook fired
           = Client.search q [] (Debounce.hook typed)
        /\ Client.calls (Debounce.hook fired)
           = (Client.invocations (Debounce.hook c), Client.AwaitSession q [])
             :: Client.calls (Debounce.hook c)
        /\ Client.invocations (Debounce.hook fired)
           = S (Client.invocations (Debounce.hook c))
        /\ Client.sent (Debounce.hook fired) = Client.sent (Debounce.hook c)
        /\ Debounce.step fired Debounce.TimerFires = fired).
Proof.
  cbv zeta. unfold run. rewrite map_app, fold_left_app.
  fold (run c (map QueryChange qs)).
  destruct (typing_starts_nothing qs c) as (H1 & H2 & H3 & _).
  set (c0 := run c (map QueryChange qs)) in *.
  cbn [map fold_left step].
  destruct (handleQueryChange_hook q c0) as (G1 & G2 & G3 & _).
  split; [|split; [congruence|split; [congruence|split; [congruence|]]]].
  - unfold handleQueryChange, debouncedSearch. cbn [hook query debounceTimer].
    now destruct (String.length q <? Client.minQueryLength)%nat.
  - split; intro Hq.
    + apply Nat.ltb_lt in Hq.
      unfold handleQueryChange, debouncedSearch, timerFires.
      cbn [hook query debounceTimer]. rewrite Hq. cbn. auto.
    + assert (Hq' : (String.length q <? Client.minQueryLength)%nat = false)
        by (apply Nat.ltb_ge; exact Hq).
      unfold handleQueryChange, debouncedSearch, timerFires.
      cbn [hook query debounceTimer]. rewrite Hq'.
      cbn [hook query debounceTimer]. unfold Client.search. rewrite Hq'.
      cbn [show Client.isLoading Client.calls Client.invocations Client.sent
           Client.results Client.categories Client.abortControllerRef
           Client.aborted Client.controllers Client.error
           timerFires debounceTimer].
      rewrite H1, H2, H3. auto 10.
Qed.

Lemma clear_aborts_all (c : Controller) :
  Client.consistent (hook c) -> all_aborted (hook (clearSearch c)).
Proof.
  intros [Hs _]. unfold clearSearch, all_aborted.
  cbn [hook Client.abortControllerRef Client.aborted Client.calls].
  split.
  - intros ctl H. rewrite H. now left.
  - intros k s H. destruct (Hs k s H) as [Hin|Hr].
    + destruct (Client.abortControllerRef (hook c)); [right|]; exact Hin.
    + rewrite Hr. now left.
Qed.

Lemma all_aborted_drop (h h' : Client.Hook) (k : nat) :
  Client.calls h' = Client.drop_call k (Client.calls h) ->
  Client.aborted h' = Client.aborted h ->
  Client.abortControllerRef h' = Client.abortControllerRef h ->
  all_aborted h -> all_aborted h'.
Proof.
  intros Hc Ha Hr [H1 H2]. unfold all_aborted. rewrite Hc, Ha, Hr.
  split; [exact H1|].
  intros k' s [H|H]; apply phase_of_drop in H; destruct H as [H _];
    apply (H2 k' s); auto.
Qed.

Lemma cleared_step (c : Controller) (e : Event) :
  passive e -> cleared c -> cleared (step c e).
Proof.
  intros He (Hr & Hc & Hq & Ht & Ha).
  destruct e as [q| | |e]; try contradiction.
  - (* clearSearch *)
    unfold cleared, step, clearSearch. cbn [hook query debounceTimer
      Client.results Client.categories].
    do 4 (split; [reflexivity|]).
    destruct Ha as [H1 H2]. unfold all_aborted.
    cbn [Client.abortControllerRef Client.aborted Client.calls]. split.
    + intros ctl H. rewrite H. now left.
    + intros k s H. specialize (H2 k s H).
      destruct (Client.abortControllerRef (hook c)); [right|]; exact H2.
  - destruct e as [q f|k s|k r|k r]; try contradiction;
      unfold cleared, step; cbn [hook query debounceTimer Client.step];
      (split; [|split; [|split; [exact Hq|split; [exact Ht|]]]]).
    + unfold Client.sessionResolved.
      destruct (Client.phase_of k (Client.calls (hook c))) as [[q f|sg|sg]|];
        try exact Hr.
      destruct (negb s); [exact Hr|].
      destruct (Client.abortControllerRef (hook c)); [exact Hr|reflexivity].
    + unfold Client.sessionResolved.
      destruct (Client.phase_of k (Client.calls (hook c))) as [[q f|sg|sg]|];
        try exact Hc.
      destruct (negb s); [exact Hc|].
      destruct (Client.abortControllerRef (hook c)); [exact Hc|reflexivity].
    + unfold Client.sessionResolved.
      destruct (Client.phase_of k (Client.calls (hook c)))
        as [[q f|sg|sg]|] eqn:Hp; try exact Ha.
      destruct (negb s).
      * eapply all_aborted_drop; [| | |exact Ha]; reflexivity.
      * destruct (Client.abortControllerRef (hook c)) as [ctl|] eqn:Hctl.
        -- destruct Ha as [H1 H2]. unfold all_aborted.
           cbn [Client.abortControllerRef Client.aborted Client.calls].
           split; [intros ctl0 E; inversion E; subst; now apply H1|].
           intros k' sg H. destruct (Nat.eq_dec k' k) as [->|Hne].
           ++ rewrite phase_of_set_same in H.
              destruct H as [H|H]; [|discriminate]. inversion H; subst.
              now apply H1.
           ++ rewrite phase_of_set_other in H by exact Hne. now apply (H2 k').
        -- eapply all_aborted_drop; [| | |exact Ha]; reflexivity.
    + unfold Client.fetchSettled.
      destruct (Client.phase_of k (Client.calls (hook c)))
        as [[q f|sg|sg]|] eqn:Hp; try exact Hr.
      assert (Hab : Client.is_aborted (hook c) sg = true).
      { apply is_aborted_spec. apply (proj2 Ha k sg). now left. }
      rewrite Hab. exact Hr.
    + unfold Client.fetchSettled.
      destruct (Client.phase_of k (Client.calls (hook c)))
        as [[q f|sg|sg]|] eqn:Hp; try exact Hc.
      assert (Hab : Client.is_aborted (hook c) sg = true).
      { apply is_aborted_spec. apply (proj2 Ha k sg). now left. }
      rewrite Hab. exact Hc.
    + unfold Client.fetchSettled.
      destruct (Client.phase_of k (Client.calls (hook c)))
        as [[q f|sg|sg]|] eqn:Hp; try exact Ha.
      assert (Hab : Client.is_aborted (hook c) sg = true).
      { apply is_aborted_spec. apply (proj2 Ha k sg). now left. }
      rewrite Hab. eapply all_aborted_drop; [| | |exact Ha]; reflexivity.
    + unfold Client.jsonSettled.
      destruct (Client.phase_of k (Client.calls (hook c)))
        as [[q f|sg|sg]|] eqn:Hp; try exact Hr.
      assert (Hab : Client.is_aborted (hook c) sg = true).
      { apply is_aborted_spec. apply (proj2 Ha k sg). now right. }
      rewrite Hab. exact Hr.
    + unfold Client.jsonSettled.
      destruct (Client.phase_of k (Client.calls (hook c)))
        as [[q f|sg|sg]|] eqn:Hp; try exact Hc.
      assert (Hab : Client.is_aborted (hook c) sg = true).
      { apply is_aborted_spec. apply (proj2 Ha k sg). now right. }
      rewrite Hab. exact Hc.
    + unfold Client.jsonSettled.
      destruct (Client.phase_of k (Client.calls (hook c)))
        as [[q f|sg|sg]|] eqn:Hp; try exact Ha.
      assert (Hab : Client.is_aborted (hook c) sg = true).
      { apply is_aborted_spec. apply (proj2 Ha k sg). now right. }
      rewrite Hab. eapply all_aborted_drop; [| | |exact Ha]; reflexivity.
Qed.

Lemma cleared_run (trace : list Event) : forall c,
  Forall passive trace -> cleared c -> cleared (run c trace).
Proof.
  induction trace as [|e trace IH]; intros c Hp Hc; [exact Hc|].
  inversion Hp; subst. cbn [run fold_left]. apply IH; [assumption|].
  now apply cleared_step.
Qed.

Lemma debounce_consistent_step (c : Controller) (e : Event) :
  Client.consistent (hook c) -> Client.consistent (hook (step c e)).
Proof.
  intro H. destruct e as [q| | |e].
  - destruct (handleQueryChange_hook q c) as (G1 & G2 & _ & G4 & G5 & _).
    now apply (consistent_same (hook c)).
  - unfold step, timerFires. destruct (debounceTimer c) as [[q f]|]; [|exact H].
    cbn [hook]. exact (consistent_step _ (Client.Search q _) H).
  - unfold step, clearSearch. cbn [hook]. destruct H as [Hs Hn].
    constructor; cbn [Client.calls Client.aborted Client.abortControllerRef
                      Client.invocations]; [|exact Hn].
    intros k s Hk. destruct (Hs k s Hk) as [Hin|Hr]; [left|right; exact Hr].
    destruct (Client.abortControllerRef (hook c)); [right|]; exact Hin.
  - cbn [step hook]. now apply consistent_step.
Qed.

Lemma debounce_consistent_run (trace : list Event) : forall c,
  Client.consistent (hook c) -> Client.consistent (hook (run c trace)).
Proof.
  induction trace as [|e trace IH]; intros c H; [exact H|].
  cbn [run fold_left]. apply IH. now apply debounce_consistent_step.
Qed.

End DebounceFacts.

(** X17.  After [clearSearch], whatever the hook did before, the results
    and the categories stay empty for as long as no new search is started:
    every request still under way carries an aborted signal, so that its
    response, when it arrives, is dropped (an aborted [fetch], and the
    reading of its body, reject with an [AbortError]). *)
Theorem nothing_displayed_after_clear (before after : list Debounce.Event) :
  Forall Debounce.passive after ->
  let c := Debounce.run (Debounce.clearSearch
                           (Debounce.run Debounce.init before)) after in
  Client.results (Debounce.hook c) = []
  /\ Client.categories (Debounce.hook c) = []
  /\ Debounce.query c = ""
  /\ Debounce.debounceTimer c = None
  /\ (forall k signal,
        Client.phase_of k (Client.calls (Debounce.hook c))
          = Some (Client.AwaitFetch signal)
        \/ Client.phase_of k (Client.calls (Debounce.hook c))
          = Some (Client.AwaitJson signal) ->
        Client.is_aborted (Debounce.hook c) signal = true).
Proof.
  intros Hp c.
  assert (H : Debounce.cleared c).
  { apply cleared_run; [exact Hp|].
    unfold Debounce.cleared. do 4 (split; [reflexivity|]).
    apply clear_aborts_all, debounce_consistent_run. exact consistent_init. }
  destruct H as (Hr & Hc & Hq & Ht & _ & Ha).
  do 4 (split; [assumption|]).
  intros k s Hk. apply is_aborted_spec. now apply (Ha k s).
Qed.

Lemma nothing_displayed_after_clear_witness :
  let d := Client.mkData [userResult Sample.johnDoe 0] [] in
  let before :=
    [Debounce.QueryChange "john"; Debounce.TimerFires;
     Debounce.HookEvent (Client.SessionResolved 0 true);
     Debounce.HookEvent (Client.FetchSettled 0 (Client.HttpResponse true))] in
  let after := [Debounce.HookEvent (Client.JsonSettled 0 (inl d))] in
  Forall Debounce.passive after
  /\ Client.results (Debounce.hook
       (Debounce.run (Debounce.run Debounce.init before) after))
     = [userResult Sample.johnDoe 0]
  /\ Client.results (Debounce.hook
       (Debounce.run (Debounce.clearSearch
                        (Debounce.run Debounce.init before)) after)) = [].
Proof.
  cbv zeta.
  assert (Hp : Forall Debounce.passive
                 [Debounce.HookEvent
                    (Client.JsonSettled 0
                       (inl (Client.mkData [userResult Sample.johnDoe 0] [])))])
    by (constructor; [exact I|constructor]).
  split; [exact Hp|]. split; [reflexivity|].
  exact (proj1 (nothing_displayed_after_clear _ _ Hp)).
Defined.

(** X18.  Shortening the text below two characters empties the display but
    aborts nothing: a request that is already under way keeps its live
    signal, and its response is displayed when it arrives, the text being
    the short one. *)
Theorem short_text_keeps_request_alive (c : Debounce.Controller)
    (k signal : nat) (s : string) (d : Client.SearchData) :
  Client.phase_of k (Client.calls (Debounce.hook c))
    = Some (Client.AwaitJson signal) ->
  Client.is_aborted (Debounce.hook c) signal = false ->
  (String.length s < Client.minQueryLength)%nat ->
  let shortened := Debounce.step c (Debounce.QueryChange s) in
  let arrived :=
    Debounce.step shortened
      (Debounce.HookEvent (Client.JsonSettled k (inl d))) in
  Client.results (Debounce.hook shortened) = []
  /\ Client.categories (Debounce.hook shortened) = []
  /\ Client.aborted (Debounce.hook shortened)
     = Client.aborted (Debounce.hook c)
  /\ Debounce.query arrived = s
  /\ Client.results (Debounce.hook arrived) = Client.data_results d
  /\ Client.categories (Debounce.hook arrived) = Client.data_categories d.
Proof.
  intros Hk Ha Hs. apply Nat.ltb_lt in Hs. cbv zeta.
  unfold Debounce.step, Debounce.handleQueryChange, Debounce.debouncedSearch.
  cbn [Debounce.hook Debounce.query Debounce.debounceTimer]. rewrite Hs.
  cbn [Debounce.hook Debounce.query Debounce.debounceTimer Debounce.show
       Client.results Client.categories Client.aborted].
  do 4 (split; [reflexivity|]).
  unfold Client.step, Client.jsonSettled, Client.is_aborted.
  unfold Debounce.show. cbn [Client.calls Client.aborted]. rewrite Hk.
  unfold Client.is_aborted in Ha. rewrite Ha. cbn. auto.
Qed.

Lemma short_text_keeps_request_alive_witness :
  let d := Client.mkData [userResult Sample.johnDoe 0] [] in
  let c :=
    Debounce.run Debounce.init
      [Debounce.QueryChange "john"; Debounce.TimerFires;
       Debounce.HookEvent (Client.SessionResolved 0 true);
       Debounce.HookEvent (Client.FetchSettled 0 (Client.HttpResponse true))] in
  Client.phase_of 0 (Client.calls (Debounce.hook c))
    = Some (Client.AwaitJson 0)
  /\ Client.is_aborted (Debounce.hook c) 0 = false
  /\ (String.length "j" < Client.minQueryLength)%nat
  /\ Client.results (Debounce.hook
       (Debounce.step (Debounce.step c (Debounce.QueryChange "j"))
          (Debounce.HookEvent (Client.JsonSettled 0 (inl d)))))
     = [userResult Sample.johnDoe 0].
Proof.
  cbv zeta.
  assert (H3 : (String.length "j" < Client.minQueryLength)%nat)
    by (cbn; unfold Client.minQueryLength; lia).
  split; [reflexivity|]. split; [reflexivity|]. split; [exact H3|].
  exact (proj1 (proj2 (proj2 (proj2 (proj2
    (short_text_keeps_request_alive
       (Debounce.run Debounce.init
          [Debounce.QueryChange "john"; Debounce.TimerFires;
           Debounce.HookEvent (Client.SessionResolved 0 true);
           Debounce.HookEvent
             (Client.FetchSettled 0 (Client.HttpResponse true))])
       0 0 "j" (Client.mkData [userResult Sample.johnDoe 0] [])
       eq_refl eq_refl H3)))))).
Defined.

(** ** CSV rendering *)

Section CsvFacts.
Import Csv.

Lemma append_snoc (field : string) (c : ascii) (s : string) :
  ((field ++ String c EmptyString) ++ s)%string = (field ++ String c s)%string.
Proof. now rewrite append_assoc. Qed.

Lemma read_quoted_body (s : string) : forall field fields rest,
  read Quoted field fields (double_quotes s ++ String dquote rest)
  = read QuoteSeen (field ++ s) fields rest.
Proof.
  induction s as [|c s IH]; intros field fields rest.
  - cbn [double_quotes append read]. rewrite Ascii.eqb_refl.
    now rewrite append_empty_r.
  - cbn [double_quotes]. destruct (Ascii.eqb c dquote) eqn:E.
    + apply Ascii.eqb_eq in E. subst c. cbn [append read].
      rewrite !Ascii.eqb_refl. rewrite IH. now rewrite append_snoc.
    + cbn [append read]. rewrite E, IH. now rewrite append_snoc.
Qed.

Lemma read_ordinary (t : string) : forall field fields rest,
  all_chars ordinary t = true ->
  read Plain field fields (t ++ rest) = read Plain (field ++ t) fields rest.
Proof.
  induction t as [|c t IH]; intros field fields rest H.
  - cbn [append]. now rewrite append_empty_r.
  - cbn [all_chars] in H. apply andb_true_iff in H. destruct H as [Hc Ht].
    unfold ordinary in Hc. apply andb_true_iff in Hc. destruct Hc as [Hc H3].
    apply andb_true_iff in Hc. destruct Hc as [H1 H2].
    apply negb_true_iff in H1, H2, H3.
    cbn [append read]. rewrite H1, H2, H3, (IH _ _ _ Ht).
    now rewrite append_snoc.
Qed.

Lemma read_after_quote (field : string) (fields : list string) (rest : string) :
  boundary rest ->
  read QuoteSeen field fields rest = read Plain field fields rest.
Proof.
  destruct rest as [|c rest]; [reflexivity|].
  intros [->| ->]; reflexivity.
Qed.

Lemma quoted_encodes (s : string) : encodes (quoted s) s.
Proof.
  intros fields rest Hb. unfold quoted. cbn [append read].
  rewrite Ascii.eqb_refl, append_assoc. cbn [append].
  rewrite read_quoted_body. cbn [append]. now apply read_after_quote.
Qed.

Lemma ordinary_encodes (t : string) :
  all_chars ordinary t = true -> encodes t t.
Proof. intros H fields rest _. now rewrite read_ordinary. Qed.

Lemma number_char_ordinary (c : ascii) :
  number_char c = true -> ordinary c = true.
Proof.
  destruct c as [[|] [|] [|] [|] [|] [|] [|] [|]]; vm_compute;
    intro H; first [reflexivity | discriminate H].
Qed.

Lemma all_chars_weaken (p q : ascii -> bool) (s : string) :
  (forall c, p c = true -> q c = true) ->
  all_chars p s = true -> all_chars q s = true.
Proof.
  intro Hpq. induction s as [|c s IH]; cbn [all_chars]; [reflexivity|].
  intro H. apply andb_true_iff in H. destruct H as [Hc Hs].
  now rewrite (Hpq c Hc), (IH Hs).
Qed.

Lemma function_ordinary (f : Builtin) :
  all_chars ordinary (string_of_function f) = true.
Proof. destruct f; reflexivity. Qed.

Lemma cell_encodes (val : option Value) : encodes (cell val) (text val).
Proof.
  destruct val as [[|s|json|digits shape|[|]|f]|]; cbn [cell text];
    try apply quoted_encodes; apply ordinary_encodes;
    first [reflexivity
          | apply function_ordinary
          | exact (all_chars_weaken _ _ _ number_char_ordinary shape)].
Qed.

Lemma read_record (items : list (string * string)) :
  Forall (fun p => encodes (fst p) (snd p)) items -> items <> [] ->
  forall fields,
    read Plain EmptyString fields
      (JS.join (String comma EmptyString) (map fst items))
    = [(fields ++ map snd items)%list]
    /\ forall r,
         read Plain EmptyString fields
           (JS.join (String comma EmptyString) (map fst items)
            ++ String linefeed r)
         = (fields ++ map snd items)%list :: read Plain EmptyString [] r.
Proof.
  induction items as [|[enc dec] items IH]; intros He Hne fields;
    [contradiction|].
  inversion He as [|? ? Hx Hrest]; subst. cbn [fst snd] in Hx.
  destruct items as [|y items].
  - cbn [map JS.join fst snd]. split.
    + rewrite <- (append_empty_r enc). now rewrite (Hx fields "" I).
    + intro r. rewrite (Hx fields (String linefeed r)); [reflexivity|].
      now right.
  - assert (Hne' : y :: items <> []) by discriminate.
    specialize (IH Hrest Hne' (fields ++ [dec])%list).
    destruct IH as [IH1 IH2].
    change (JS.join (String comma EmptyString)
              (map fst ((enc, dec) :: y :: items)))
      with (enc ++ String comma
              (JS.join (String comma EmptyString) (map fst (y :: items)))).
    change (map snd ((enc, dec) :: y :: items))
      with (dec :: map snd (y :: items)).
    assert (Hassoc : (fields ++ dec :: map snd (y :: items))%list
                     = ((fields ++ [dec]) ++ map snd (y :: items))%list)
      by (now rewrite <- app_assoc).
    rewrite Hassoc. split.
    + rewrite (Hx fields); [|now left].
      cbn [read]. exact IH1.
    + intro r. rewrite append_assoc. cbn [append].
      rewrite (Hx fields); [|now left].
      cbn [read]. exact (IH2 r).
Qed.

Lemma read_records (lines : list (list (string * string))) :
  Forall (fun items =>
            Forall (fun p => encodes (fst p) (snd p)) items /\ items <> [])
    lines ->
  lines <> [] ->
  parse (JS.join (String linefeed EmptyString)
           (map (fun items =>
                   JS.join (String comma EmptyString) (map fst items)) lines))
  = map (map snd) lines.
Proof.
  unfold parse. induction lines as [|l lines IH]; intros H Hne;
    [contradiction|].
  inversion H as [|? ? [Hl Hl'] Hrest]; subst.
  destruct (read_record l Hl Hl' []) as [R1 R2].
  destruct lines as [|l' lines].
  - cbn [map JS.join]. exact R1.
  - change (JS.join (String linefeed EmptyString)
              (map (fun items =>
                      JS.join (String comma EmptyString) (map fst items))
                 (l :: l' :: lines)))
      with (JS.join (String comma EmptyString) (map fst l)
            ++ String linefeed
                 (JS.join (String linefeed EmptyString)
                    (map (fun items =>
                            JS.join (String comma EmptyString) (map fst items))
                       (l' :: lines)))).
    rewrite R2. cbn [app map]. f_equal. apply IH; [exact Hrest|discriminate].
Qed.

End CsvFacts.

(** The lines that [jsonToCSV] joins, read back. *)
Lemma parse_lines (headers : list string) (data : list Csv.Row) :
  headers <> [] ->
  forallb (all_chars Csv.ordinary) headers = true ->
  Csv.parse
    (JS.join (String Csv.linefeed EmptyString)
       (JS.join (String Csv.comma EmptyString) headers
        :: map (fun row =>
                  JS.join (String Csv.comma EmptyString)
                    (map (fun header => Csv.cell (Csv.get row header)) headers))
             data))
  = headers
    :: map (fun row => map (fun header => Csv.text (Csv.get row header)) headers)
         data.
Proof.
  intros Hne Hord.
  set (line := fun row : Csv.Row =>
         map (fun header =>
                (Csv.cell (Csv.get row header), Csv.text (Csv.get row header)))
           headers).
  set (lines := map (fun h => (h, h)) headers :: map line data).
  assert (Henc :
    JS.join (String Csv.linefeed EmptyString)
      (JS.join (String Csv.comma EmptyString) headers
       :: map (fun row =>
                 JS.join (String Csv.comma EmptyString)
                   (map (fun header => Csv.cell (Csv.get row header)) headers))
            data)
    = JS.join (String Csv.linefeed EmptyString)
        (map (fun items =>
                JS.join (String Csv.comma EmptyString) (map fst items)) lines)).
  { unfold lines. cbn [map]. f_equal. f_equal.
    - f_equal. rewrite map_map. cbn [fst]. now rewrite map_id.
    - rewrite map_map. apply map_ext. intro row. f_equal.
      unfold line. rewrite map_map. reflexivity. }
  rewrite Henc, read_records.
  - unfold lines. cbn [map]. f_equal.
    + rewrite map_map. cbn [snd]. now rewrite map_id.
    + rewrite map_map. apply map_ext. intro row. unfold line.
      rewrite map_map. reflexivity.
  - unfold lines. constructor.
    + split; [|destruct headers; [contradiction|discriminate]].
      apply Forall_forall. intros p Hp. apply in_map_iff in Hp.
      destruct Hp as [h [<- Hh]]. cbn [fst snd]. apply ordinary_encodes.
      rewrite forallb_forall in Hord. now apply Hord.
    + apply Forall_forall. intros items Hi. apply in_map_iff in Hi.
      destruct Hi as [row [<- _]]. split.
      * apply Forall_forall. intros p Hp. unfold line in Hp.
        apply in_map_iff in Hp. destruct Hp as [h [<- _]]. cbn [fst snd].
        apply cell_encodes.
      * unfold line. destruct headers; [contradiction|discriminate].
  - unfold lines. discriminate.
Qed.

(** X19.  The CSV text of a non-empty list of rows reads back as what was
    exported, for a reader that splits records at line feeds and fields at
    commas and takes a double-quoted field up to its closing double quote,
    a doubled one standing for itself: the first record is the list of
    column names, and each further record holds, column by column, the
    text of [row[header]], whatever commas, double quotes or line feeds
    the strings contain.  [null] and [undefined] read back as empty
    fields; a column name that the row lacks but [Object.prototype] has
    reads back as the text of the inherited member.  The column names
    themselves must be free of those three characters, and there must be
    at least one. *)
Theorem csv_reads_back (first : Csv.Row) (others : list Csv.Row)
    (columns : option (list string)) :
  let headers := Csv.headers_of first columns in
  headers <> [] ->
  forallb (all_chars Csv.ordinary) headers = true ->
  Csv.parse (Csv.jsonToCSV (first :: others) columns)
  = headers
    :: map (fun row => map (fun header => Csv.text (Csv.get row header)) headers)
         (first :: others).
Proof.
  intros headers Hne Hord. unfold Csv.jsonToCSV. fold headers.
  now apply parse_lines.
Qed.

Lemma csv_reads_back_witness :
  let tricky := String Csv.dquote "Doe, J" in
  let row := [("name", Csv.Str tricky); ("duration", Csv.Num "1e+21" eq_refl);
              ("is_active", Csv.Bool true); ("email", Csv.Null)] in
  Csv.parse
    (Csv.jsonToCSV [row]
       (Some ["name"; "email"; "duration"; "phone"; "constructor"]))
  = [["name"; "email"; "duration"; "phone"; "constructor"];
     [tricky; ""; "1e+21"; ""; "function Object() { [native code] }"]].
Proof.
  cbv zeta.
  assert (Hne : ["name"; "email"; "duration"; "phone"; "constructor"] <> [])
    by discriminate.
  exact (csv_reads_back
           [("name", Csv.Str (String Csv.dquote "Doe, J"));
            ("duration", Csv.Num "1e+21" eq_refl);
            ("is_active", Csv.Bool true); ("email", Csv.Null)]
           [] (Some ["name"; "email"; "duration"; "phone"; "constructor"])
           Hne eq_refl).
Defined.

(** ** The export handler *)

Section ExportFacts.
Import ExportData.
Variable auth : Auth.
Variable store : Store.
Variable analyticsData : list Csv.Row -> list Csv.Row.

Lemma type_is_spec (b : ExportRequest) (name : string) :
  type_is b name = true <-> type b = Some name.
Proof.
  unfold type_is. destruct (type b) as [t|]; [|split; discriminate].
  rewrite String.eqb_eq. split; congruence.
Qed.

Lemma company_scope_spec (userProfile : UserProfile) (rest : list Filter) :
  role userProfile <> "super_admin" ->
  In (Eq "company_id" (company_id userProfile))
     (company_scope userProfile ++ rest)%list.
Proof.
  intro H. unfold company_scope.
  destruct (String.eqb (role userProfile) "super_admin") eqn:E.
  - apply String.eqb_eq in E. contradiction.
  - cbn. now left.
Qed.

Lemma deliver_spec (b : ExportRequest) (data : list Csv.Row)
    (filename : string) (columns : list string) (sent : list Query) :
  status (fst (deliver b data filename columns sent)) = 200
  /\ snd (deliver b data filename columns sent) = sent
  /\ (content (fst (deliver b data filename columns sent))
      = CsvFile (Csv.jsonToCSV data (Some columns)) (filename ++ ".csv")
      \/ content (fst (deliver b data filename columns sent))
         = DataJson data filename).
Proof.
  unfold deliver.
  destruct (String.eqb match format b with Some f => f | None => "csv" end
              "csv"); cbn; auto.
Qed.

Lemma selected_spec (q : Query) (b : ExportRequest) (filename : string)
    (columns : list string) :
  snd (selected store q b filename columns) = [q]
  /\ (is_data (fst (selected store q b filename columns)) = true ->
      status (fst (selected store q b filename columns)) = 200
      /\ (content (fst (selected store q b filename columns))
          = CsvFile (Csv.jsonToCSV (rows_or_empty (select store q))
                       (Some columns)) (filename ++ ".csv")
          \/ content (fst (selected store q b filename columns))
             = DataJson (rows_or_empty (select store q)) filename)).
Proof.
  unfold selected. destruct (error (select store q)) as [message|].
  - split; [reflexivity|]. cbn. discriminate.
  - destruct (deliver_spec b (rows_or_empty (select store q)) filename
                columns [q]) as (H1 & H2 & H3).
    split; [exact H2|]. intros _. split; assumption.
Qed.

(** What [switch] guarantees of a reply that carries data. *)
Lemma switch_data (userProfile : UserProfile) (b : ExportRequest) :
  is_data (fst (switch store analyticsData userProfile b)) = true ->
  exists t q columns rows,
    type b = Some t
    /\ In t ["leads"; "users"; "companies"; "calls"; "analytics"]
    /\ (t = "users" -> In (role userProfile) admins)
    /\ (t = "companies" -> role userProfile = "super_admin")
    /\ snd (switch store analyticsData userProfile b) = [q]
    /\ (role userProfile <> "super_admin" ->
        In (Eq "company_id" (company_id userProfile)) (q_filters q))
    /\ (rows = rows_or_empty (select store q)
        /\ q_select q = JS.join ", " columns
        \/ rows = analyticsData (rows_or_empty (select store q))
           /\ columns = ["metric"; "value"; "count"])
    /\ columns <> []
    /\ forallb (all_chars Csv.ordinary) columns = true
    /\ status (fst (switch store analyticsData userProfile b)) = 200
    /\ (content (fst (switch store analyticsData userProfile b))
        = CsvFile (Csv.jsonToCSV rows (Some columns))
            ((t ++ "_export_" ++ today store) ++ ".csv")
        \/ content (fst (switch store analyticsData userProfile b))
           = DataJson rows (t ++ "_export_" ++ today store)).
Proof.
  unfold switch.
  destruct (type_is b "leads") eqn:T1.
  { apply type_is_spec in T1. intro Hd.
    match goal with
    | |- context [selected store ?q b ?f ?c] =>
        destruct (selected_spec q b f c) as [Hs Hr];
        destruct (Hr Hd) as [Hst Hc];
        exists "leads", q, c, (rows_or_empty (select store q))
    end.
    split; [exact T1|]. split; [cbn; tauto|].
    split; [discriminate|]. split; [discriminate|].
    split; [exact Hs|].
    split; [intro Hrole; now apply company_scope_spec|].
    split; [left; split; reflexivity|].
    split; [discriminate|]. split; [reflexivity|].
    split; [exact Hst|exact Hc]. }
  destruct (type_is b "users") eqn:T2.
  { apply type_is_spec in T2.
    destruct (JS.arr_includes admins (role userProfile)) eqn:Hadm;
      cbn [negb]; [|cbn; discriminate].
    apply arr_includes_In in Hadm. intro Hd.
    match goal with
    | |- context [selected store ?q b ?f ?c] =>
        destruct (selected_spec q b f c) as [Hs Hr];
        destruct (Hr Hd) as [Hst Hc];
        exists "users", q, c, (rows_or_empty (select store q))
    end.
    split; [exact T2|]. split; [cbn; tauto|].
    split; [intros _; exact Hadm|]. split; [discriminate|].
    split; [exact Hs|].
    split; [intro Hrole; cbn [q_filters];
            rewrite <- (app_nil_r (company_scope userProfile));
            now apply company_scope_spec|].
    split; [left; split; reflexivity|].
    split; [discriminate|]. split; [reflexivity|].
    split; [exact Hst|exact Hc]. }
  destruct (type_is b "companies") eqn:T3.
  { apply type_is_spec in T3.
    destruct (String.eqb (role userProfile) "super_admin") eqn:Hsup;
      cbn [negb]; [|cbn; discriminate].
    apply String.eqb_eq in Hsup. intro Hd.
    match goal with
    | |- context [selected store ?q b ?f ?c] =>
        destruct (selected_spec q b f c) as [Hs Hr];
        destruct (Hr Hd) as [Hst Hc];
        exists "companies", q, c, (rows_or_empty (select store q))
    end.
    split; [exact T3|]. split; [cbn; tauto|].
    split; [discriminate|]. split; [intros _; exact Hsup|].
    split; [exact Hs|].
    split; [intro Hrole; contradiction|].
    split; [left; split; reflexivity|].
    split; [discriminate|]. split; [reflexivity|].
    split; [exact Hst|exact Hc]. }
  destruct (type_is b "calls") eqn:T4.
  { apply type_is_spec in T4. intro Hd.
    match goal with
    | |- context [selected store ?q b ?f ?c] =>
        destruct (selected_spec q b f c) as [Hs Hr];
        destruct (Hr Hd) as [Hst Hc];
        exists "calls", q, c, (rows_or_empty (select store q))
    end.
    split; [exact T4|]. split; [cbn; tauto|].
    split; [discriminate|]. split; [discriminate|].
    split; [exact Hs|].
    split; [intro Hrole; cbn [q_filters];
            rewrite <- (app_nil_r (company_scope userProfile));
            now apply company_scope_spec|].
    split; [left; split; reflexivity|].
    split; [discriminate|]. split; [reflexivity|].
    split; [exact Hst|exact Hc]. }
  destruct (type_is b "analytics") eqn:T5; [|cbn; discriminate].
  apply type_is_spec in T5. intros _. cbv zeta.
  match goal with
  | |- context [deliver b ?d ?f ?c [?q]] =>
      destruct (deliver_spec b d f c [q]) as (Hst & Hs & Hc);
      exists "analytics", q, c, d
  end.
  split; [exact T5|]. split; [cbn; tauto|].
  split; [discriminate|]. split; [discriminate|].
  split; [exact Hs|].
  split; [intro Hrole; cbn [q_filters];
          rewrite <- (app_nil_r (company_scope userProfile));
          now apply company_scope_spec|].
  split; [right; split; reflexivity|].
  split; [discriminate|]. split; [reflexivity|].
  split; [exact Hst|exact Hc].
Qed.

(** The handler reaches [switch] only for a caller with a profile who is
    an administrator or holds the export permission. *)
Lemma handler_data (req : Request) :
  is_data (fst (handler auth store analyticsData req)) = true ->
  exists user userProfile b,
    getUser auth (remove_first "Bearer " (JS.template (authorization req)))
    = Some user
    /\ maybeSingle auth (auth_user_id user) = Some userProfile
    /\ json req = Parsed b
    /\ (In (role userProfile) admins
        \/ exists row, permissions store (auth_user_id user) = Some row
                       /\ can_export_data row = Some true)
    /\ handler auth store analyticsData req
       = switch store analyticsData userProfile b.
Proof.
  unfold handler.
  destruct (String.eqb (method req) "OPTIONS"); [cbn; discriminate|].
  destruct (negb (JS.truthy (authorization req))); [cbn; discriminate|].
  cbv zeta.
  destruct (getUser auth _) as [user|] eqn:Hu; [|cbn; discriminate].
  destruct (maybeSingle auth (auth_user_id user)) as [userProfile|] eqn:Hp;
    [|cbn; discriminate].
  destruct (negb (JS.arr_includes admins (role userProfile))
            && negb (may_export (permissions store (auth_user_id user))))
    eqn:Hgate; [cbn; discriminate|].
  destruct (json req) as [b|message] eqn:Hj; [|cbn; discriminate].
  intros _. exists user, userProfile, b.
  do 3 (split; [first [reflexivity | assumption]|]). split; [|reflexivity].
  apply andb_false_iff in Hgate. destruct Hgate as [H|H];
    apply negb_false_iff in H.
  - left. now apply arr_includes_In.
  - right. unfold may_export in H.
    destruct (permissions store (auth_user_id user)) as [row|];
      [|discriminate].
    exists row. split; [reflexivity|].
    destruct (can_export_data row) as [[|]|]; try discriminate. reflexivity.
Qed.

End ExportFacts.

(** X20.  A reply that carries exported data is given only to a caller
    whose token the identity provider accepts, who has a profile, and who
    is an administrator or holds the export permission; the users export
    only to administrators and the companies export only to super
    administrators.  Besides the profile and permission lookups, exactly
    one select is sent for it, and for every caller but a super
    administrator that select is restricted to the caller's own company. *)
Theorem exported_data_is_authorized (auth : Auth) (store : ExportData.Store)
    (analyticsData : list Csv.Row -> list Csv.Row) (req : ExportData.Request) :
  ExportData.is_data
    (fst (ExportData.handler auth store analyticsData req)) = true ->
  exists user userProfile b t q,
    getUser auth
      (remove_first "Bearer " (JS.template (ExportData.authorization req)))
    = Some user
    /\ maybeSingle auth (auth_user_id user) = Some userProfile
    /\ ExportData.json req = ExportData.Parsed b
    /\ ExportData.type b = Some t
    /\ In t ["leads"; "users"; "companies"; "calls"; "analytics"]
    /\ ExportData.status
         (fst (ExportData.handler auth store analyticsData req)) = 200
    /\ (In (role userProfile) ExportData.admins
        \/ exists row,
             ExportData.permissions store (auth_user_id user) = Some row
             /\ ExportData.can_export_data row = Some true)
    /\ (t = "users" -> In (role userProfile) ExportData.admins)
    /\ (t = "companies" -> role userProfile = "super_admin")
    /\ snd (ExportData.handler auth store analyticsData req) = [q]
    /\ (role userProfile <> "super_admin" ->
        In (ExportData.Eq "company_id" (company_id userProfile))
           (ExportData.q_filters q)).
Proof.
  intro Hd.
  destruct (handler_data auth store analyticsData req Hd)
    as (user & userProfile & b & Hu & Hp & Hj & Hperm & Heq).
  rewrite Heq in Hd |- *.
  destruct (switch_data store analyticsData userProfile b Hd)
    as (t & q & columns & rows & Ht & Hin & Husers & Hcomp & Hs & Hscope
        & _ & _ & _ & Hst & _).
  exists user, userProfile, b, t, q. auto 12.
Qed.

Lemma exported_data_is_authorized_witness :
  ExportData.is_data
    (fst (ExportData.handler ExportSample.auth ExportSample.store
            ExportSample.noAnalytics ExportSample.request)) = true
  /\ exists q,
       snd (ExportData.handler ExportSample.auth ExportSample.store
              ExportSample.noAnalytics ExportSample.request) = [q]
       /\ In (ExportData.Eq "company_id" "acme") (ExportData.q_filters q).
Proof.
  assert (Hd : ExportData.is_data
                 (fst (ExportData.handler ExportSample.auth ExportSample.store
                         ExportSample.noAnalytics ExportSample.request))
               = true) by reflexivity.
  split; [exact Hd|].
  destruct (exported_data_is_authorized _ _ _ _ Hd)
    as (user & userProfile & b & t & q & Hu & Hp & _ & _ & _ & _ & _ & _ & _
        & Hs & Hscope).
  exists q. split; [exact Hs|].
  cbn in Hu, Hp. inversion Hu; subst user. inversion Hp; subst userProfile.
  apply Hscope. cbn. discriminate.
Defined.



Lemma filter_none {A} (f : A -> bool) (l : list A) :
  (forall x, In x l -> f x = false) -> filter f l = [].
Proof.
  induction l as [|x l IH]; intro H; [reflexivity|].
  cbn. rewrite (H x (or_introl eq_refl)). apply IH.
  intros y Hy. apply H. now right.
Qed.

(** X22.  An account created as member or user cannot export by default:
    with the permissions row that the trigger inserts for it, every export
    request of that account is refused with status 403, whatever is asked
    for, and no data is read. *)
Theorem new_account_cannot_export (auth : Auth) (store : ExportData.Store)
    (analyticsData : list Csv.Row -> list Csv.Row) (req : ExportData.Request)
    (user : AuthUser) (userProfile : UserProfile)
    (t : PermissionsTable.Table) :
  ExportData.method req <> "OPTIONS" ->
  JS.truthy (ExportData.authorization req) = true ->
  getUser auth
    (remove_first "Bearer " (JS.template (ExportData.authorization req)))
  = Some user ->
  maybeSingle auth (auth_user_id user) = Some userProfile ->
  In (role userProfile) ["member"; "user"] ->
  (forall r, In r t -> PermissionsTable.user_id r <> auth_user_id user) ->
  ExportData.permissions store (auth_user_id user)
  = PermissionsTable.lookup
      (PermissionsTable.create_default_permissions (auth_user_id user)
         (role userProfile) t)
      (auth_user_id user) ->
  ExportData.handler auth store analyticsData req
  = (ExportData.mkReply 403 (ExportData.ErrorJson "Export permission denied"),
     []).
Proof.
  intros Hm Ha Hu Hp Hrole Hfresh Hperm.
  unfold ExportData.handler.
  apply String.eqb_neq in Hm. rewrite Hm, Ha. cbn [negb]. cbv zeta.
  rewrite Hu, Hp, Hperm.
  assert (Hadm : JS.arr_includes ExportData.admins (role userProfile) = false).
  { destruct Hrole as [<-|[<-|[]]]; reflexivity. }
  assert (Hlook :
    PermissionsTable.lookup
      (PermissionsTable.create_default_permissions (auth_user_id user)
         (role userProfile) t) (auth_user_id user)
    = Some (ExportData.mkPermissions (Some false))).
  { unfold PermissionsTable.create_default_permissions.
    rewrite (proj2 (arr_includes_In _ _) Hrole).
    assert (Hf : forall r, In r t ->
              String.eqb (PermissionsTable.user_id r) (auth_user_id user)
              = false).
    { intros r Hr. apply String.eqb_neq. now apply Hfresh. }
    assert (Hex : existsb (fun r => String.eqb (PermissionsTable.user_id r)
                                      (auth_user_id user)) t = false).
    { apply not_true_is_false. intro Hex. apply existsb_exists in Hex.
      destruct Hex as (r & Hr & E). rewrite (Hf r Hr) in E. discriminate. }
    rewrite Hex. unfold PermissionsTable.lookup.
    rewrite filter_app, (filter_none _ _ Hf). cbn [filter app PermissionsTable.user_id].
    rewrite String.eqb_refl. reflexivity. }
  rewrite Hadm, Hlook. reflexivity.
Qed.

Lemma new_account_cannot_export_witness :
  ExportData.handler ExportSample.auth ExportSample.freshStore
    ExportSample.noAnalytics ExportSample.request
  = (ExportData.mkReply 403 (ExportData.ErrorJson "Export permission denied"),
     []).
Proof.
  assert (Hm : ExportData.method ExportSample.request <> "OPTIONS")
    by discriminate.
  assert (Hrole : In (role Sample.member) ["member"; "user"])
    by (cbn; tauto).
  assert (Hfresh : forall r : PermissionsTable.Row,
            In r [] -> PermissionsTable.user_id r <> auth_user_id Sample.caller)
    by (intros r Hr; destruct Hr).
  exact (new_account_cannot_export ExportSample.auth ExportSample.freshStore
           ExportSample.noAnalytics ExportSample.request Sample.caller
           Sample.member [] Hm eq_refl eq_refl eq_refl Hrole Hfresh eq_refl).
Defined.
